(** * fms-mobilex-bridge: checkpointed ingestion, publishing and merge

    A shallow embedding of the two long-running programs of the repository,

    - [kafka_docker_temphum.py]: the streaming publisher (module [Publisher]);
    - [fms-minIO-temphum-collector/src/streaming_pipeline.py]: the window
      fetcher, the minute collector, the merge cycle and the weekly batch
      backfill (module [Pipeline]);

    together with the properties of their checkpoint, merge and retry logic.

    Conventions.  A Python [dict] read from JSON is an association list in
    insertion order; a [str] is a Rocq [string] compared by [String.compare]
    (code-point order on the UTF-8 bytes, as Python compares [str]).  Calls
    that leave the process (the search index, the message bus, the object
    store) are answered by an environment value that the functions take as an
    argument; every theorem quantifies over it, so it covers every way those
    calls can answer or raise.  What a run does to the outside world is kept
    as a list of events in program order. *)

From Stdlib Require Import ZArith QArith Sorted Permutation.
From Equations Require Import Equations.
From stdpp Require Import base list strings gmap.

Local Open Scope string_scope.
Local Open Scope list_scope.

(** ** Python values and exceptions *)

Module Py.

(** A JSON scalar as Python sees it after [json.load] / [resp.json()].
    Numbers are kept as integers (a fixed-point reading of the sensor
    values); nothing below computes with them. *)
Inductive value :=
| VNone
| VBool (b : bool)
| VNum (z : Z)
| VStr (s : string).

#[global] Instance value_eq_dec : EqDecision value.
Proof. solve_decision. Defined.

(** [bool(v)]: Python truthiness. *)
Definition truthy (v : value) : bool :=
  match v with
  | VNone => false
  | VBool b => b
  | VNum z => negb (z =? 0)%Z
  | VStr s => negb (String.eqb s "")
  end.

Definition is_none (v : value) : bool :=
  match v with VNone => true | _ => false end.

(** A [dict] with string keys, in insertion order. *)
Definition doc := list (string * value).

(** [d[k]] as an option: the first binding of [k]. *)
Fixpoint dict_get (k : string) (d : doc) : option value :=
  match d with
  | [] => None
  | (k', v) :: rest => if String.eqb k k' then Some v else dict_get k rest
  end.

(** [k in d]. *)
Definition dict_mem (k : string) (d : doc) : bool :=
  match dict_get k d with Some _ => true | None => false end.

(** [d[k] = v]: overwrite in place, or append a new key at the end. *)
Fixpoint dict_set (k : string) (v : value) (d : doc) : doc :=
  match d with
  | [] => [(k, v)]
  | (k', v') :: rest =>
      if String.eqb k k' then (k', v) :: rest else (k', v') :: dict_set k v rest
  end.

(** [d.get(k)]: [None] when the key is missing. *)
Definition dict_get_default (k : string) (d : doc) : value :=
  match dict_get k d with Some v => v | None => VNone end.

(** The exceptions the two programs can meet. *)
Inductive exn :=
| RequestException          (* requests: connection, timeout, HTTP status *)
| JSONDecodeError           (* json.load on a file that is not JSON *)
| TypeError                 (* comparison of a str with a non-str *)
| KafkaError                (* producer.send / producer.flush *)
| S3Error (code : string)   (* minio.error.S3Error with its code *)
| ParquetError              (* pd.read_parquet on bytes that are not parquet *)
| OtherError.               (* anything else derived from Exception *)

#[global] Instance exn_eq_dec : EqDecision exn.
Proof. solve_decision. Defined.

(** The outcome of a call that may raise. *)
Inductive result (A : Type) :=
| Ok (a : A)
| Raise (e : exn).
Arguments Ok {A} a.
Arguments Raise {A} e.

Definition is_ok {A} (r : result A) : bool :=
  match r with Ok _ => true | Raise _ => false end.

(** *** Order on strings *)

Definition str_lt (a b : string) : Prop := String.ltb a b = true.
Definition str_le (a b : string) : Prop := String.leb a b = true.

Lemma ascii_compare_refl a : Ascii.compare a a = Eq.
Proof. unfold Ascii.compare. apply N.compare_refl. Qed.

Lemma string_compare_refl s : String.compare s s = Eq.
Proof.
  induction s as [|a s IH]; simpl; [done|].
  by rewrite ascii_compare_refl.
Qed.

Lemma ascii_compare_lt_trans a b c :
  Ascii.compare a b = Lt → Ascii.compare b c = Lt → Ascii.compare a c = Lt.
Proof.
  unfold Ascii.compare. rewrite !N.compare_lt_iff. lia.
Qed.

Lemma string_compare_lt_trans s1 : ∀ s2 s3,
  String.compare s1 s2 = Lt → String.compare s2 s3 = Lt →
  String.compare s1 s3 = Lt.
Proof.
  induction s1 as [|a s1 IH]; intros [|b s2] [|c s3]; simpl; try done.
  destruct (Ascii.compare a b) eqn:Hab; try done;
    destruct (Ascii.compare b c) eqn:Hbc; try done; intros H1 H2.
  - apply Ascii.compare_eq_iff in Hab, Hbc. subst.
    rewrite ascii_compare_refl. eauto.
  - apply Ascii.compare_eq_iff in Hab. subst. by rewrite Hbc.
  - apply Ascii.compare_eq_iff in Hbc. subst. by rewrite Hab.
  - by rewrite (ascii_compare_lt_trans a b c).
Qed.

Lemma str_lt_irrefl s : ¬ str_lt s s.
Proof. unfold str_lt, String.ltb. by rewrite string_compare_refl. Qed.

Lemma str_lt_trans a b c : str_lt a b → str_lt b c → str_lt a c.
Proof.
  unfold str_lt, String.ltb. intros H1 H2.
  destruct (String.compare a b) eqn:Hab; try done.
  destruct (String.compare b c) eqn:Hbc; try done.
  by rewrite (string_compare_lt_trans a b c).
Qed.

Lemma str_le_refl s : str_le s s.
Proof. unfold str_le, String.leb. by rewrite string_compare_refl. Qed.

Lemma str_lt_le a b : str_lt a b → str_le a b.
Proof.
  unfold str_lt, str_le, String.ltb, String.leb.
  by destruct (String.compare a b).
Qed.

Lemma str_le_lt_eq a b : str_le a b ↔ str_lt a b ∨ a = b.
Proof.
  unfold str_lt, str_le, String.ltb, String.leb. split.
  - destruct (String.compare a b) eqn:H; try done; [|by left].
    right. by apply String.compare_eq_iff.
  - intros [H| ->]; [by destruct (String.compare a b)|].
    by rewrite string_compare_refl.
Qed.

Lemma str_le_trans a b c : str_le a b → str_le b c → str_le a c.
Proof.
  rewrite !str_le_lt_eq. intros [H1| ->] [H2| ->]; eauto using str_lt_trans.
Qed.

Lemma str_not_lt_le a b : String.ltb a b = false → str_le b a.
Proof.
  unfold str_le, String.ltb, String.leb. rewrite (String.compare_antisym b a).
  by destruct (String.compare a b).
Qed.

Lemma str_le_not_lt a b : str_le a b → ¬ str_lt b a.
Proof.
  unfold str_le, str_lt, String.ltb, String.leb.
  rewrite (String.compare_antisym b a).
  by destruct (String.compare a b).
Qed.

(** *** Facts about dictionaries *)

Lemma dict_get_set_eq (k : string) (v : value) (d : doc) :
  dict_get k (dict_set k v d) = Some v.
Proof.
  induction d as [|[k' v'] rest IH]; simpl.
  - by rewrite String.eqb_refl.
  - destruct (String.eqb_spec k k') as [->|Hne]; simpl.
    + by rewrite String.eqb_refl.
    + destruct (String.eqb_spec k k'); [done|]. exact IH.
Qed.

Lemma dict_get_set_ne (k k' : string) (v : value) (d : doc) :
  k ≠ k' → dict_get k (dict_set k' v d) = dict_get k d.
Proof.
  intros Hne. induction d as [|[k0 v0] rest IH]; simpl.
  - destruct (String.eqb_spec k k'); done.
  - destruct (String.eqb_spec k' k0) as [->|Hne']; simpl.
    + destruct (String.eqb_spec k k0); done.
    + destruct (String.eqb_spec k k0); done.
Qed.

Lemma dict_get_set (k k' : string) (v : value) (d : doc) :
  dict_get k (dict_set k' v d) = if decide (k = k') then Some v else dict_get k d.
Proof.
  destruct (decide (k = k')) as [->|Hne];
    [apply dict_get_set_eq|by apply dict_get_set_ne].
Qed.

(** Writing under a key the value it already has changes nothing. *)
Lemma dict_set_same (k : string) (v : value) (d : doc) :
  dict_get k d = Some v → dict_set k v d = d.
Proof.
  induction d as [|[k' v'] rest IH]; simpl; [done|].
  destruct (String.eqb_spec k k') as [->|Hne].
  - by intros [= ->].
  - intros H. by rewrite IH.
Qed.

(** The keys after a write: as before, with a new key at the end. *)
Lemma dict_set_keys (k : string) (v : value) (d : doc) :
  (dict_set k v d).*1 = if dict_mem k d then d.*1 else d.*1 ++ [k].
Proof.
  unfold dict_mem. induction d as [|[k' v'] rest IH]; csimpl; [done|].
  destruct (String.eqb_spec k k') as [->|Hne]; csimpl; [done|].
  rewrite IH. by destruct (dict_get k rest).
Qed.

Lemma dict_mem_keys (k : string) (d : doc) : dict_mem k d = true ↔ k ∈ d.*1.
Proof.
  unfold dict_mem. induction d as [|[k' v'] rest IH]; csimpl.
  - split; [done|]. by intros ?%elem_of_nil.
  - rewrite elem_of_cons. destruct (String.eqb_spec k k') as [->|Hne].
    + split; [by left|done].
    + rewrite IH. split; [by right|]. by intros [?|?].
Qed.

Lemma dict_get_None (k : string) (d : doc) : dict_get k d = None ↔ k ∉ d.*1.
Proof.
  rewrite <-dict_mem_keys. unfold dict_mem. destruct (dict_get k d); split; done.
Qed.

Lemma dict_set_NoDup (k : string) (v : value) (d : doc) :
  NoDup d.*1 → NoDup (dict_set k v d).*1.
Proof.
  intros Hnd. rewrite dict_set_keys. destruct (dict_mem k d) eqn:Hm; [done|].
  apply NoDup_app. split; [done|]. split; [|apply NoDup_singleton].
  intros x Hx ->%list_elem_of_singleton. apply dict_mem_keys in Hx. congruence.
Qed.

(** In a dictionary, whose keys are distinct, the items are the bindings. *)
Lemma dict_get_items (k : string) (v : value) (d : doc) :
  NoDup d.*1 → (k, v) ∈ d ↔ dict_get k d = Some v.
Proof.
  induction d as [|[k' v'] rest IH]; csimpl; intros Hnd.
  - split; [by intros ?%elem_of_nil|done].
  - apply NoDup_cons in Hnd as [Hk' Hnd]. rewrite elem_of_cons, IH by done.
    destruct (String.eqb_spec k k') as [->|Hne].
    + split.
      * intros [[= ->]|Hget]; [done|]. exfalso. apply Hk'.
        apply dict_mem_keys. unfold dict_mem. by rewrite Hget.
      * intros [= ->]. by left.
    + split; [|by right]. intros [[= ? ?]|?]; done.
Qed.

End Py.

(** ** The streaming publisher: [kafka_docker_temphum.py] *)

Module Publisher.
Import Py.

(** *** The checkpoint file *)

(** What [--checkpoint-file] holds: nothing, bytes that [json.load] rejects,
    or the JSON object [{"last_timestamp": ts}] (the key may be missing).
    The value under the key is a string, which is all [save_checkpoint]
    ever writes. *)
Inductive file :=
| NoFile
| Unparsable
| Parsed (last_timestamp : option string).

(** [load_checkpoint(checkpoint_file, default_ts)].  The [os.path.exists]
    guard covers the missing file only: [json.load] runs unprotected. *)
Definition load_checkpoint (checkpoint_file : file) (default_ts : string)
  : result string :=
  match checkpoint_file with
  | NoFile => Ok default_ts
  | Unparsable => Raise JSONDecodeError
  | Parsed data => Ok (default default_ts data)
  end.

(** [save_checkpoint(checkpoint_file, last_ts)]: a full rewrite of the file.
    (A failure of the local write itself is not modelled.) *)
Definition save_checkpoint (last_ts : string) : file := Parsed (Some last_ts).

(** *** Field projection and the canonical schema *)

(** [filter_fields(doc, keep_fields)]. *)
Definition filter_fields (d : doc) (keep_fields : list string) : doc :=
  match keep_fields with
  | [] => d
  | _ =>
      let filtered :=
        fold_left
          (λ filtered field,
             match dict_get field d with
             | Some v => dict_set field v filtered
             | None => filtered
             end)
          keep_fields [] in
      match dict_get "@timestamp" d with
      | Some ts =>
          if dict_mem "@timestamp" filtered then filtered
          else dict_set "@timestamp" ts filtered
      | None => filtered
      end
  end.

Definition base_schema : doc :=
  [ ("@timestamp", VNone); ("objId", VNone); ("rsctypeId", VNone);
    ("TEMPERATURE", VNone); ("TEMPERATURE1", VNone);
    ("HUMIDITY", VNone); ("HUMIDITY1", VNone) ].

(** [apply_base_schema(doc, base_schema)]: a copy of the schema in which the
    keys that [doc] also has take [doc]'s values. *)
Definition apply_base_schema (d : doc) (base_schema : doc) : doc :=
  fold_left
    (λ new_doc '(k, v), if dict_mem k new_doc then dict_set k v new_doc else new_doc)
    d base_schema.

(** [is_effectively_empty(doc)]. *)
Fixpoint is_effectively_empty (d : doc) : bool :=
  match d with
  | [] => true
  | (k, v) :: rest =>
      if String.eqb k "@timestamp" then is_effectively_empty rest
      else if is_none v then is_effectively_empty rest
      else false
  end.

(** The record as published: projection, then the canonical schema. *)
Definition unified_doc (keep_fields : list string) (d : doc) : doc :=
  apply_base_schema (filter_fields d keep_fields) base_schema.

(** A record survives when its unified form is not effectively empty. *)
Definition survives (keep_fields : list string) (d : doc) : bool :=
  negb (is_effectively_empty (unified_doc keep_fields d)).

(** *** One tick of the polling loop *)

(** What the outside world sees of a run, in program order.  An event is
    recorded when the call has returned. *)
Inductive event :=
| Send (payload : doc)            (* producer.send(kafka_topic, payload) *)
| Flush                           (* producer.flush() *)
| SaveCheckpoint (ts : string).   (* save_checkpoint(checkpoint_file, ts) *)

#[global] Instance event_eq_dec : EqDecision event.
Proof. solve_decision. Defined.

(** How the outside world answers during one tick: the search request for
    the documents after a cursor, the [n]-th [producer.send] of the tick
    ([None]: it returns), and [producer.flush]. *)
Record tick_env := {
  fetch_new_docs : string → result (list doc);
  send_raises : nat → option exn;
  flush_raises : option exn
}.

(** The loop's variables that outlive a tick, and the file. *)
Record state := {
  last_timestamp : string;
  checkpoint_file : file
}.

(** [if doc_ts and doc_ts > local_max_ts: local_max_ts = doc_ts].  A falsy
    [doc_ts] skips the comparison; a truthy one that is not a [str] makes
    [>] raise [TypeError]. *)
Definition advance (doc_ts : value) (local_max_ts : string) : result string :=
  match doc_ts with
  | VStr s =>
      if truthy (VStr s) && String.ltb local_max_ts s then Ok s else Ok local_max_ts
  | v => if truthy v then Raise TypeError else Ok local_max_ts
  end.

(** The [for doc in new_docs] loop; [nsent] counts the sends made so far in
    this tick.  Returns the events of the loop and either the final
    [local_max_ts] or the exception that ended the loop. *)
Fixpoint publish_docs (env : tick_env) (keep_fields : list string)
    (new_docs : list doc) (local_max_ts : string) (nsent : nat)
  : list event * result string :=
  match new_docs with
  | [] => ([], Ok local_max_ts)
  | d :: rest =>
      let doc_ts := dict_get_default "@timestamp" d in
      let unified := unified_doc keep_fields d in
      if is_effectively_empty unified then
        publish_docs env keep_fields rest local_max_ts nsent
      else
        match send_raises env nsent with
        | Some e => ([], Raise e)
        | None =>
            match advance doc_ts local_max_ts with
            | Raise e => ([Send unified], Raise e)
            | Ok local_max_ts' =>
                let '(tr, r) :=
                  publish_docs env keep_fields rest local_max_ts' (S nsent) in
                (Send unified :: tr, r)
            end
        end
  end.

(** The body of [try:] once the documents are fetched. *)
Definition tick_docs (env : tick_env) (keep_fields : list string)
    (new_docs : list doc) (s : state) : state * list event :=
  match new_docs with
  | [] => (s, [])
  | _ =>
      let '(tr, r) := publish_docs env keep_fields new_docs (last_timestamp s) 0 in
      match r with
      | Raise _ => (s, tr)
      | Ok local_max_ts =>
          match flush_raises env with
          | Some _ => (s, tr)
          | None =>
              if String.eqb local_max_ts (last_timestamp s) then (s, tr ++ [Flush])
              else
                ({| last_timestamp := local_max_ts;
                    checkpoint_file := save_checkpoint local_max_ts |},
                 tr ++ [Flush; SaveCheckpoint local_max_ts])
          end
      end
  end.

(** One iteration of [while True]: every exception is caught and printed. *)
Definition tick (env : tick_env) (keep_fields : list string) (s : state)
  : state * list event :=
  match fetch_new_docs env (last_timestamp s) with
  | Raise _ => (s, [])
  | Ok new_docs => tick_docs env keep_fields new_docs s
  end.

(** The first iterations of the loop, one environment per tick. *)
Fixpoint run (envs : list tick_env) (keep_fields : list string) (s : state)
  : state * list event :=
  match envs with
  | [] => (s, [])
  | env :: envs' =>
      let '(s1, tr1) := tick env keep_fields s in
      let '(s2, tr2) := run envs' keep_fields s1 in
      (s2, tr1 ++ tr2)
  end.

(** [main] up to the loop: the checkpoint is loaded outside any [try]. *)
Definition start (checkpoint_file : file) (default_start_ts : string)
  : result state :=
  match load_checkpoint checkpoint_file default_start_ts with
  | Ok ts => Ok {| last_timestamp := ts; checkpoint_file := checkpoint_file |}
  | Raise e => Raise e
  end.

Definition main (checkpoint_file : file) (default_start_ts : string)
    (keep_fields : list string) (envs : list tick_env)
  : result (state * list event) :=
  match start checkpoint_file default_start_ts with
  | Ok s => Ok (run envs keep_fields s)
  | Raise e => Raise e
  end.

(** The payloads sent and the cursors written, read off a trace. *)
Definition sends (tr : list event) : list doc :=
  omap (λ e, match e with Send p => Some p | _ => None end) tr.

Definition saves (tr : list event) : list string :=
  omap (λ e, match e with SaveCheckpoint ts => Some ts | _ => None end) tr.

(** The [@timestamp] of a record when it is a non-empty string. *)
Definition doc_timestamp (d : doc) : option string :=
  match dict_get_default "@timestamp" d with
  | VStr s => if String.eqb s "" then None else Some s
  | _ => None
  end.

(** *** Facts about the loop *)

Lemma is_effectively_empty_spec (d : doc) :
  is_effectively_empty d = true ↔
  ∀ k v, (k, v) ∈ d → k ≠ "@timestamp" → v = VNone.
Proof.
  induction d as [|[k v] rest IH]; simpl.
  - split; [|done]. intros _ k v Hin. by apply elem_of_nil in Hin.
  - destruct (String.eqb_spec k "@timestamp") as [->|Hk].
    + rewrite IH. split.
      * intros H k v' [Heq|Hin]%elem_of_cons; [by inversion Heq|eauto].
      * intros H k v' Hin. apply H. by right.
    + destruct v; simpl; try rewrite IH; split; try done.
      * intros H k' v' [Heq|Hin]%elem_of_cons; [by inversion Heq|eauto].
      * intros H k' v' Hin. apply H. by right.
      * intros H. specialize (H k (VBool b) (list_elem_of_here _ _) Hk). done.
      * intros H. specialize (H k (VNum z) (list_elem_of_here _ _) Hk). done.
      * intros H. specialize (H k (VStr s) (list_elem_of_here _ _) Hk). done.
Qed.

Lemma advance_ok (doc_ts : value) (m m' : string) :
  advance doc_ts m = Ok m' →
  (m' = m ∧ (truthy doc_ts = true → ∃ s, doc_ts = VStr s ∧ str_le s m)) ∨
  (doc_ts = VStr m' ∧ m' ≠ "" ∧ str_lt m m').
Proof.
  destruct doc_ts as [|b|z|s]; simpl.
  - intros [= <-]. left. done.
  - destruct b; [done|]. intros [= <-]. left. done.
  - destruct (z =? 0)%Z; simpl; [|done]. intros [= <-]. left. done.
  - destruct (String.eqb_spec s "") as [->|Hs]; simpl.
    + intros [= <-]. left. done.
    + destruct (String.ltb m s) eqn:Hlt; intros [= <-].
      * right. done.
      * left. split; [done|]. intros _. exists s. split; [done|].
        by apply str_not_lt_le.
Qed.

Lemma advance_le (doc_ts : value) (m m' : string) :
  advance doc_ts m = Ok m' → str_le m m'.
Proof.
  intros [[-> _]|(_ & _ & H)]%advance_ok; [apply str_le_refl|by apply str_lt_le].
Qed.

Lemma doc_timestamp_truthy (d : doc) (ts : string) :
  doc_timestamp d = Some ts ↔
  dict_get_default "@timestamp" d = VStr ts ∧ ts ≠ "".
Proof.
  unfold doc_timestamp. destruct (dict_get_default "@timestamp" d); try (split; [done|by intros [? ?]]).
  destruct (String.eqb_spec s ""); split.
  - done.
  - intros [[= ->] ?]. done.
  - intros [= ->]. done.
  - intros [[= ->] ?]. done.
Qed.

Lemma empty_not_survives keep_fields (d : doc) :
  is_effectively_empty (unified_doc keep_fields d) = negb (survives keep_fields d).
Proof. unfold survives. by rewrite negb_involutive. Qed.

(** Case analysis on whether the record at the head of the loop survives. *)
Ltac case_survives d :=
  simpl; rewrite (empty_not_survives _ d);
  destruct (survives _ d) eqn:?; simpl.

(** Records dropped by the emptiness check leave no mark on the loop. *)
Lemma publish_docs_filter env keep_fields (new_docs : list doc) :
  ∀ local_max_ts nsent,
    publish_docs env keep_fields new_docs local_max_ts nsent =
    publish_docs env keep_fields (List.filter (survives keep_fields) new_docs)
      local_max_ts nsent.
Proof.
  induction new_docs as [|d rest IH]; intros m n; [done|].
  case_survives d; [|apply IH].
  rewrite (empty_not_survives _ d). replace (survives keep_fields d) with true.
  simpl. destruct (send_raises env n); [done|].
  destruct (advance _ m); [|done]. by rewrite IH.
Qed.

(** The loop sends the unified form of the surviving records, in order,
    up to the point where it stops. *)
Lemma publish_docs_sends env keep_fields (new_docs : list doc) :
  ∀ local_max_ts nsent tr r,
    publish_docs env keep_fields new_docs local_max_ts nsent = (tr, r) →
    ∃ k, tr = Send <$> take k (unified_doc keep_fields <$>
                               List.filter (survives keep_fields) new_docs) ∧
         (is_ok r = true →
          tr = Send <$> (unified_doc keep_fields <$>
                         List.filter (survives keep_fields) new_docs)).
Proof.
  induction new_docs as [|d rest IH]; intros m n tr r.
  - intros [= <- <-]. by exists 0.
  - case_survives d; [|apply IH].
    + destruct (send_raises env n).
      { intros [= <- <-]. by exists 0. }
      destruct (advance _ m) as [m'|e].
      * destruct (publish_docs env keep_fields rest m' (S n)) as [tr' r'] eqn:Hp.
        intros [= <- <-]. destruct (IH _ _ _ _ Hp) as (k & -> & Hok).
        exists (S k). split; [done|]. intros Hr. simpl. f_equal. by apply Hok.
      * intros [= <- <-]. by exists 1.
Qed.

(** When the loop completes, every needed send returned. *)
Lemma publish_docs_ok_sends_returned env keep_fields (new_docs : list doc) :
  ∀ local_max_ts nsent tr m',
    publish_docs env keep_fields new_docs local_max_ts nsent = (tr, Ok m') →
    ∀ i, i < length (List.filter (survives keep_fields) new_docs) →
         send_raises env (nsent + i) = None.
Proof.
  induction new_docs as [|d rest IH]; intros m n tr m'.
  - simpl. intros _ i Hi. lia.
  - case_survives d; [|apply IH].
    + destruct (send_raises env n) eqn:Hs; [done|].
      destruct (advance _ m) as [m1|e]; [|done].
      destruct (publish_docs env keep_fields rest m1 (S n)) as [tr' r'] eqn:Hp.
      intros [= <- ->] [|i] Hi.
      * by rewrite Nat.add_0_r.
      * replace (n + S i) with (S n + i) by lia.
        eapply IH; [done|lia].
Qed.

(** When the loop completes, the cursor it ends with bounds the one it began
    with and the timestamp of every surviving record, and is one of them. *)
Lemma publish_docs_max env keep_fields (new_docs : list doc) :
  ∀ local_max_ts nsent tr m',
    publish_docs env keep_fields new_docs local_max_ts nsent = (tr, Ok m') →
    str_le local_max_ts m' ∧
    (m' = local_max_ts ∨
     ∃ d, d ∈ List.filter (survives keep_fields) new_docs ∧
          doc_timestamp d = Some m') ∧
    (∀ d, d ∈ List.filter (survives keep_fields) new_docs →
          (truthy (dict_get_default "@timestamp" d) = true →
           ∃ ts, doc_timestamp d = Some ts ∧ str_le ts m')).
Proof.
  induction new_docs as [|d rest IH]; intros m n tr m'.
  - intros [= <- <-]. split; [apply str_le_refl|]. split; [by left|].
    intros d Hd. by apply elem_of_nil in Hd.
  - case_survives d; [|apply IH].
    + destruct (send_raises env n); [done|].
      destruct (advance _ m) as [m1|e] eqn:Ha; [|done].
      destruct (publish_docs env keep_fields rest m1 (S n)) as [tr' r'] eqn:Hp.
      intros [= <- ->].
      destruct (IH _ _ _ _ Hp) as (Hle & Hone & Hall).
      pose proof (advance_le _ _ _ Ha) as Hle1.
      split; [by eapply str_le_trans|]. split.
      * destruct Hone as [->|(d' & Hd' & Hts)].
        -- apply advance_ok in Ha as [[-> _]|(Hv & Hne & _)]; [by left|].
           right. exists d. split; [apply list_elem_of_here|].
           by apply doc_timestamp_truthy.
        -- right. exists d'. split; [by apply list_elem_of_further|done].
      * intros d' [->|Hin]%elem_of_cons Ht; [|by apply Hall].
        apply advance_ok in Ha as [[-> Hv]|(Hv & Hne & _)].
        -- destruct (Hv Ht) as (s & Hs & Hsm). exists s. split.
           ++ apply doc_timestamp_truthy. split; [done|].
              rewrite Hs in Ht. simpl in Ht. intros ->. done.
           ++ by eapply str_le_trans.
        -- exists m1. split; [by apply doc_timestamp_truthy|done].
Qed.

(** [ts] is the largest [@timestamp] among [docs]: it is the timestamp of one
    of them, and every truthy [@timestamp] among them is a string below it. *)
Definition max_timestamp_of (ts : string) (docs : list doc) : Prop :=
  (∃ d, d ∈ docs ∧ doc_timestamp d = Some ts) ∧
  (∀ d, d ∈ docs → truthy (dict_get_default "@timestamp" d) = true →
        ∃ ts', doc_timestamp d = Some ts' ∧ str_le ts' ts).

(** The records of a response that reach the message bus. *)
Definition survivors (keep_fields : list string) (docs : list doc) : list doc :=
  List.filter (survives keep_fields) docs.

Lemma saves_app (tr1 tr2 : list event) : saves (tr1 ++ tr2) = saves tr1 ++ saves tr2.
Proof. unfold saves. apply omap_app. Qed.

Lemma sends_app (tr1 tr2 : list event) : sends (tr1 ++ tr2) = sends tr1 ++ sends tr2.
Proof. unfold sends. apply omap_app. Qed.

Lemma saves_Send (ps : list doc) : saves (Send <$> ps) = [].
Proof. induction ps; simpl; done. Qed.

Lemma sends_Send (ps : list doc) : sends (Send <$> ps) = ps.
Proof. induction ps; simpl; [done|]. by f_equal. Qed.

(** The two ways a tick over a fetched response can end: nothing is written
    and the state is as before, or the loop and the flush completed and the
    new cursor is written last. *)
Lemma tick_docs_cases env keep_fields (docs : list doc) (s : state) :
  let s' := (tick_docs env keep_fields docs s).1 in
  let tr := (tick_docs env keep_fields docs s).2 in
  (s' = s ∧ saves tr = [] ∧
   ∃ k, sends tr = take k (unified_doc keep_fields <$> survivors keep_fields docs)) ∨
  (∃ ts,
     (∀ i, i < length (survivors keep_fields docs) → send_raises env i = None) ∧
     flush_raises env = None ∧
     tr = (Send <$> (unified_doc keep_fields <$> survivors keep_fields docs))
          ++ [Flush; SaveCheckpoint ts] ∧
     max_timestamp_of ts (survivors keep_fields docs) ∧
     str_lt (last_timestamp s) ts ∧
     s' = {| last_timestamp := ts; checkpoint_file := save_checkpoint ts |}).
Proof.
  unfold tick_docs. destruct docs as [|d0 rest].
  { left. simpl. split; [done|]. split; [done|]. by exists 0. }
  set (docs := d0 :: rest).
  destruct (publish_docs env keep_fields docs (last_timestamp s) 0)
    as [tr r] eqn:Hp.
  destruct (publish_docs_sends _ _ _ _ _ _ _ Hp) as (k & Htr & Hall).
  destruct r as [m|e]; simpl.
  2:{ left. split; [done|]. rewrite Htr, saves_Send, sends_Send. eauto. }
  specialize (Hall eq_refl).
  destruct (flush_raises env) eqn:Hf; simpl.
  { left. split; [done|]. rewrite Htr, saves_Send, sends_Send. eauto. }
  destruct (String.eqb_spec m (last_timestamp s)) as [->|Hne]; simpl.
  { left. split; [done|]. rewrite saves_app, sends_app, Hall, saves_Send, sends_Send.
    simpl. split; [done|]. exists (length (unified_doc keep_fields <$> survivors keep_fields docs)).
    by rewrite take_ge, app_nil_r. }
  right. exists m.
  destruct (publish_docs_max _ _ _ _ _ _ _ Hp) as (Hle & Hone & Hmax).
  pose proof (publish_docs_ok_sends_returned _ _ _ _ _ _ _ Hp) as Hs.
  destruct Hone as [->|Hone]; [done|].
  split; [done|]. split; [done|]. split; [by rewrite Hall|].
  split; [by split|]. split; [|done].
  apply str_le_lt_eq in Hle as [?|Heq]; [done|congruence].
Qed.

Lemma tick_cases env keep_fields (s : state) :
  let s' := (tick env keep_fields s).1 in
  let tr := (tick env keep_fields s).2 in
  (s' = s ∧ saves tr = []) ∨
  (∃ ts docs,
     fetch_new_docs env (last_timestamp s) = Ok docs ∧
     (∀ i, i < length (survivors keep_fields docs) → send_raises env i = None) ∧
     flush_raises env = None ∧
     tr = (Send <$> (unified_doc keep_fields <$> survivors keep_fields docs))
          ++ [Flush; SaveCheckpoint ts] ∧
     max_timestamp_of ts (survivors keep_fields docs) ∧
     str_lt (last_timestamp s) ts ∧
     s' = {| last_timestamp := ts; checkpoint_file := save_checkpoint ts |}).
Proof.
  unfold tick. destruct (fetch_new_docs env (last_timestamp s)) as [docs|e] eqn:Hf.
  - destruct (tick_docs_cases env keep_fields docs s) as [(? & ? & _)|(ts & H)].
    + by left.
    + right. exists ts, docs. by destruct H as (? & ? & ? & ? & ? & ?).
  - by left.
Qed.

(** Over any number of ticks the cursors written to the file form a strictly
    increasing sequence above the cursor the run began with, and the state
    at the end holds the last of them. *)
Lemma run_saves_sorted keep_fields (envs : list tick_env) :
  ∀ s,
    let s' := (run envs keep_fields s).1 in
    let tr := (run envs keep_fields s).2 in
    StronglySorted str_lt (last_timestamp s :: saves tr) ∧
    last_timestamp s' = default (last_timestamp s) (last (saves tr)) ∧
    checkpoint_file s' =
      from_option save_checkpoint (checkpoint_file s) (last (saves tr)).
Proof.
  induction envs as [|env envs IH]; intros s; simpl.
  { split; [|done]. repeat constructor. }
  destruct (tick env keep_fields s) as [s1 tr1] eqn:Ht.
  destruct (run envs keep_fields s1) as [s2 tr2] eqn:Hr. simpl.
  specialize (IH s1). rewrite Hr in IH. simpl in IH.
  destruct IH as (Hsorted & Hlast & Hfile).
  pose proof (tick_cases env keep_fields s) as Hc. rewrite Ht in Hc. simpl in Hc.
  rewrite saves_app.
  destruct Hc as [[-> Hnil]|(ts & docs & _ & _ & _ & -> & _ & Hlt & ->)].
  - by rewrite Hnil.
  - rewrite saves_app, saves_Send. simpl in *.
    split.
    + constructor; [done|]. constructor; [done|].
      apply StronglySorted_inv in Hsorted as [_ Hall].
      eapply Forall_impl; [exact Hall|]. intros x Hx. by eapply str_lt_trans.
    + destruct (saves tr2) as [|x l] eqn:Hs; [done|].
      rewrite Hlast, Hfile, last_cons_cons, (last_cons x l).
      by destruct (last l).
Qed.

Lemma elem_of_saves (tr : list event) (ts : string) :
  ts ∈ saves tr ↔ SaveCheckpoint ts ∈ tr.
Proof.
  unfold saves. rewrite list_elem_of_omap. split.
  - intros (e & He & Hs). destruct e; simplify_eq. done.
  - intros H. exists (SaveCheckpoint ts). done.
Qed.

Lemma survivors_survive keep_fields (docs : list doc) (d : doc) :
  d ∈ survivors keep_fields docs → is_effectively_empty (unified_doc keep_fields d) = false.
Proof.
  unfold survivors. rewrite list_elem_of_In, filter_In. intros [_ H].
  rewrite empty_not_survives, H. done.
Qed.

(** *** Examples *)

Definition sample_full : doc :=
  [ ("@timestamp", VStr "2025-06-01T00:00:05Z"); ("objId", VNum 7);
    ("rsctypeId", VStr "FTH"); ("TEMPERATURE", VNum 215) ].

(** A record whose projected fields are all missing, stamped later than
    [sample_full]. *)
Definition sample_empty : doc :=
  [ ("@timestamp", VStr "2025-06-01T00:00:09Z"); ("voltage", VNum 3) ].

Definition sample_keep : list string :=
  [ "TEMPERATURE"; "HUMIDITY"; "TEMPERATURE1"; "HUMIDITY1"; "objId"; "rsctypeId" ].

Definition quiet_env (docs : list doc) : tick_env :=
  {| fetch_new_docs := λ _, Ok docs;
     send_raises := λ _, None;
     flush_raises := None |}.

Definition sample_state : state :=
  {| last_timestamp := "1970-01-01T00:00:00Z"; checkpoint_file := NoFile |}.

Example unified_sample_full :
  unified_doc sample_keep sample_full =
  [ ("@timestamp", VStr "2025-06-01T00:00:05Z"); ("objId", VNum 7);
    ("rsctypeId", VStr "FTH"); ("TEMPERATURE", VNum 215);
    ("TEMPERATURE1", VNone); ("HUMIDITY", VNone); ("HUMIDITY1", VNone) ].
Proof. reflexivity. Qed.

Example unified_sample_empty :
  is_effectively_empty (unified_doc sample_keep sample_empty) = true.
Proof. reflexivity. Qed.

Example tick_sample :
  tick (quiet_env [sample_full; sample_empty]) sample_keep sample_state =
  ({| last_timestamp := "2025-06-01T00:00:05Z";
      checkpoint_file := Parsed (Some "2025-06-01T00:00:05Z") |},
   [ Send (unified_doc sample_keep sample_full); Flush;
     SaveCheckpoint "2025-06-01T00:00:05Z" ]).
Proof. reflexivity. Qed.

(** A send that raises ends the tick with the file as it was. *)
Example tick_send_raises :
  tick {| fetch_new_docs := λ _, Ok [sample_full];
          send_raises := λ _, Some KafkaError;
          flush_raises := None |} sample_keep sample_state =
  (sample_state, []).
Proof. reflexivity. Qed.

(** *** The claims about the publisher *)

(** C1 — Checkpoint monotonicity of the streaming publisher.
    (1) Over every sequence of ticks the cursor [last_timestamp] never
    decreases, the values written to the checkpoint file are strictly
    increasing and above the cursor the run began with, and the file at the
    end holds the last value written (or is untouched when none was).
    (2) Within a tick, a write of the checkpoint file is the last event of
    the tick: before it every surviving record of the response has been
    sent, in order, and the flush has returned; the value written is the
    maximum [@timestamp] among those records, and it becomes the cursor.
    (3) If the fetch raises, or a send of a surviving record raises, or the
    flush raises, the tick leaves cursor and file unchanged and writes
    nothing. *)
Theorem checkpoint_monotone (keep_fields : list string) :
  (∀ envs s,
     let s' := (run envs keep_fields s).1 in
     let tr := (run envs keep_fields s).2 in
     str_le (last_timestamp s) (last_timestamp s') ∧
     StronglySorted str_lt (last_timestamp s :: saves tr) ∧
     last_timestamp s' = default (last_timestamp s) (last (saves tr)) ∧
     checkpoint_file s' =
       from_option save_checkpoint (checkpoint_file s) (last (saves tr))) ∧
  (∀ env s ts,
     SaveCheckpoint ts ∈ (tick env keep_fields s).2 →
     ∃ docs,
       fetch_new_docs env (last_timestamp s) = Ok docs ∧
       (∀ i, i < length (survivors keep_fields docs) → send_raises env i = None) ∧
       flush_raises env = None ∧
       (tick env keep_fields s).2 =
         (Send <$> (unified_doc keep_fields <$> survivors keep_fields docs))
         ++ [Flush; SaveCheckpoint ts] ∧
       max_timestamp_of ts (survivors keep_fields docs) ∧
       str_lt (last_timestamp s) ts ∧
       (tick env keep_fields s).1 =
         {| last_timestamp := ts; checkpoint_file := save_checkpoint ts |}) ∧
  (∀ env s,
     (is_ok (fetch_new_docs env (last_timestamp s)) = false ∨
      (∃ docs i, fetch_new_docs env (last_timestamp s) = Ok docs ∧
                 i < length (survivors keep_fields docs) ∧
                 is_Some (send_raises env i)) ∨
      is_Some (flush_raises env)) →
     (tick env keep_fields s).1 = s ∧ saves (tick env keep_fields s).2 = []).
Proof.
  split; [|split].
  - intros envs s s' tr.
    destruct (run_saves_sorted keep_fields envs s) as (Hsorted & Hlast & Hfile).
    fold s' tr in Hsorted, Hlast, Hfile. split; [|done].
    rewrite Hlast. destruct (last (saves tr)) as [x|] eqn:Hx; simpl.
    + apply str_lt_le. apply StronglySorted_inv in Hsorted as [_ Hall].
      rewrite Forall_forall in Hall. apply Hall.
      by eapply last_Some_elem_of.
    + apply str_le_refl.
  - intros env s ts Hin.
    destruct (tick_cases env keep_fields s) as [[_ Hnil]|(ts' & docs & H)].
    + apply elem_of_saves in Hin. rewrite Hnil in Hin. by apply elem_of_nil in Hin.
    + destruct H as (Hf & Hs & Hfl & Htr & Hmax & Hlt & Hst).
      assert (ts = ts') as ->.
      { rewrite Htr in Hin. apply elem_of_saves in Hin.
        rewrite saves_app, saves_Send in Hin. simpl in Hin.
        by apply list_elem_of_singleton in Hin. }
      by exists docs.
  - intros env s Hraise.
    destruct (tick_cases env keep_fields s) as [[? ?]|(ts' & docs & H)]; [done|].
    destruct H as (Hf & Hs & Hfl & _). exfalso.
    destruct Hraise as [Hr|[(docs' & i & Hf' & Hi & Hsome)|Hsome]].
    + by rewrite Hf in Hr.
    + rewrite Hf in Hf'. injection Hf' as <-.
      rewrite (Hs i Hi) in Hsome. by destruct Hsome.
    + rewrite Hfl in Hsome. by destruct Hsome.
Qed.

(** C5 — Empty-record suppression.  A fetched record whose unified form has
    every field other than [@timestamp] equal to [None] is never sent, and
    the tick ends in the same state, with the same sends and the same
    checkpoint writes, as if the response had held the surviving records
    only: neither the cursor nor the file depends on the dropped records. *)
Theorem empty_record_suppressed (keep_fields : list string) (env : tick_env)
    (docs : list doc) (s : state) :
  let out := tick_docs env keep_fields docs s in
  let out' := tick_docs env keep_fields (survivors keep_fields docs) s in
  (∀ d, d ∈ docs →
        (∀ k v, (k, v) ∈ unified_doc keep_fields d → k ≠ "@timestamp" → v = VNone) →
        unified_doc keep_fields d ∉ sends out.2) ∧
  out.1 = out'.1 ∧
  sends out.2 = sends out'.2 ∧
  saves out.2 = saves out'.2.
Proof.
  intros out out'. split.
  - intros d _ Hempty%is_effectively_empty_spec Hin.
    assert (∃ d', d' ∈ survivors keep_fields docs ∧
                  unified_doc keep_fields d = unified_doc keep_fields d')
      as (d' & Hd' & Heq).
    { destruct (tick_docs_cases env keep_fields docs s)
        as [(_ & _ & k & Hk)|(ts & _ & _ & Htr & _)]; fold out in Hk || fold out in Htr.
      - rewrite Hk in Hin. apply elem_of_take in Hin as (i & Hin & _).
        apply list_elem_of_lookup_2 in Hin.
        apply list_elem_of_fmap in Hin as (d' & -> & Hd'). eauto.
      - rewrite Htr, sends_app, sends_Send in Hin. simpl in Hin.
        rewrite app_nil_r in Hin.
        apply list_elem_of_fmap in Hin as (d' & -> & Hd'). eauto. }
    apply survivors_survive in Hd'. congruence.
  - unfold out, out', tick_docs.
    destruct docs as [|d0 rest]; [done|].
    rewrite (publish_docs_filter env keep_fields (d0 :: rest)).
    fold (survivors keep_fields (d0 :: rest)).
    destruct (survivors keep_fields (d0 :: rest)) as [|d1 rest']; [|done].
    simpl. destruct (flush_raises env); [done|].
    by rewrite String.eqb_refl.
Qed.

(** C6 — the publisher's [load_checkpoint] on a checkpoint file that exists
    but does not parse: it raises, and since [main] calls it outside any
    [try], the program ends there, before the first tick.  (A missing file
    does give the default.) *)
Theorem load_checkpoint_unparsable_raises (default_ts : string)
    (keep_fields : list string) (envs : list tick_env) :
  load_checkpoint Unparsable default_ts = Raise JSONDecodeError ∧
  main Unparsable default_ts keep_fields envs = Raise JSONDecodeError ∧
  load_checkpoint NoFile default_ts = Ok default_ts.
Proof. done. Qed.

(** *** Projection, canonical schema and restart *)

(** The loop of [filter_fields] over [keep_fields], from any [filtered]. *)
Lemma filter_fields_loop_get (d : doc) (keep_fields : list string) :
  ∀ filtered k,
    dict_get k
      (fold_left
         (λ filtered field,
            match dict_get field d with
            | Some v => dict_set field v filtered
            | None => filtered
            end)
         keep_fields filtered) =
    if decide (k ∈ keep_fields)
    then match dict_get k d with Some v => Some v | None => dict_get k filtered end
    else dict_get k filtered.
Proof.
  induction keep_fields as [|field rest IH]; intros filtered k.
  { cbn [fold_left]. by destruct (decide (k ∈ [])) as [?%elem_of_nil|]. }
  cbn [fold_left]. rewrite IH.
  assert (dict_get k (match dict_get field d with
                      | Some v => dict_set field v filtered
                      | None => filtered
                      end) =
          if decide (k = field)
          then match dict_get k d with Some v => Some v | None => dict_get k filtered end
          else dict_get k filtered) as ->.
  { destruct (decide (k = field)) as [->|Hne].
    - destruct (dict_get field d); [apply dict_get_set_eq|done].
    - destruct (dict_get field d); [by apply dict_get_set_ne|done]. }
  destruct (decide (k ∈ field :: rest)) as [Hin|Hnin];
    destruct (decide (k ∈ rest)) as [Hin'|Hnin'];
    destruct (decide (k = field)) as [->|Hne]; try done.
  all: try (by destruct (dict_get field d)).
  all: exfalso; rewrite elem_of_cons in *; tauto.
Qed.

Lemma filter_fields_loop_NoDup (d : doc) (keep_fields : list string) :
  ∀ filtered,
    NoDup filtered.*1 →
    NoDup (fold_left
             (λ filtered field,
                match dict_get field d with
                | Some v => dict_set field v filtered
                | None => filtered
                end)
             keep_fields filtered).*1.
Proof.
  induction keep_fields as [|field rest IH]; intros filtered Hnd; simpl; [done|].
  apply IH. destruct (dict_get field d); [by apply dict_set_NoDup|done].
Qed.

Lemma filter_fields_get (d : doc) (keep_fields : list string) (k : string) :
  keep_fields ≠ [] →
  dict_get k (filter_fields d keep_fields) =
  if decide (k ∈ keep_fields ∨ k = "@timestamp") then dict_get k d else None.
Proof.
  intros Hne. unfold filter_fields. destruct keep_fields as [|f0 rest]; [done|].
  cbv beta iota zeta.
  match goal with |- context [dict_mem _ ?x] => set (filtered := x) end.
  set (keep_fields := f0 :: rest) in *.
  assert (∀ k', dict_get k' filtered =
                if decide (k' ∈ keep_fields) then dict_get k' d else None) as Hget.
  { intros k'. unfold filtered. rewrite filter_fields_loop_get. simpl.
    destruct (decide (k' ∈ keep_fields)); [|done]. by destruct (dict_get k' d). }
  destruct (decide (k = "@timestamp")) as [->|Hk].
  - rewrite decide_True by (by right).
    destruct (dict_get "@timestamp" d) as [ts|] eqn:Hts.
    + unfold dict_mem. rewrite Hget, Hts.
      destruct (decide ("@timestamp" ∈ keep_fields)).
      * by rewrite Hget, decide_True, Hts.
      * apply dict_get_set_eq.
    + rewrite Hget, Hts. by destruct (decide ("@timestamp" ∈ keep_fields)).
  - assert (dict_get k
              (match dict_get "@timestamp" d with
               | Some ts => if dict_mem "@timestamp" filtered then filtered
                            else dict_set "@timestamp" ts filtered
               | None => filtered
               end) = dict_get k filtered) as ->.
    { destruct (dict_get "@timestamp" d); [|done].
      destruct (dict_mem "@timestamp" filtered); [done|]. by apply dict_get_set_ne. }
    rewrite Hget. destruct (decide (k ∈ keep_fields)).
    + rewrite decide_True; [done|by left].
    + rewrite decide_False; [done|]. by intros [?|?].
Qed.

Lemma filter_fields_NoDup (d : doc) (keep_fields : list string) :
  NoDup d.*1 → NoDup (filter_fields d keep_fields).*1.
Proof.
  intros Hd. unfold filter_fields. destruct keep_fields as [|f0 rest]; [done|].
  cbv beta iota zeta.
  match goal with |- context [dict_mem _ ?x] => set (filtered := x) end.
  assert (NoDup filtered.*1) as Hnd by (apply filter_fields_loop_NoDup; constructor).
  destruct (dict_get "@timestamp" d); [|done].
  destruct (dict_mem "@timestamp" filtered); [done|]. by apply dict_set_NoDup.
Qed.

(** The loop of [apply_base_schema] over the items of the document. *)
Lemma apply_base_schema_keys (d new_doc : doc) :
  (apply_base_schema d new_doc).*1 = new_doc.*1.
Proof.
  unfold apply_base_schema. revert new_doc.
  induction d as [|[k v] rest IH]; intros new_doc; simpl; [done|].
  rewrite IH. destruct (dict_mem k new_doc) eqn:Hm; [|done].
  by rewrite dict_set_keys, Hm.
Qed.

Lemma apply_base_schema_get (d : doc) :
  ∀ new_doc k,
    NoDup d.*1 →
    dict_get k (apply_base_schema d new_doc) =
    match dict_get k new_doc with
    | Some v0 => Some (default v0 (dict_get k d))
    | None => None
    end.
Proof.
  unfold apply_base_schema.
  induction d as [|[k1 v1] rest IH]; intros new_doc k Hnd; csimpl.
  { by destruct (dict_get k new_doc). }
  apply NoDup_cons in Hnd as [Hk1 Hnd]. rewrite IH by done.
  destruct (String.eqb_spec k k1) as [->|Hne].
  - apply dict_get_None in Hk1. simpl in Hk1. rewrite Hk1. unfold dict_mem.
    destruct (dict_get k1 new_doc) eqn:Hget; simpl.
    + by rewrite dict_get_set_eq.
    + by rewrite Hget.
  - destruct (dict_mem k1 new_doc); [|done]. by rewrite dict_get_set_ne.
Qed.

(** A record is not effectively empty when one of its items other than
    [@timestamp] is not [None]. *)
Lemma is_effectively_empty_false (d : doc) :
  is_effectively_empty d = false ↔
  ∃ k v, (k, v) ∈ d ∧ k ≠ "@timestamp" ∧ v ≠ VNone.
Proof.
  induction d as [|[k v] rest IH]; simpl.
  - split; [done|]. intros (k & v & Hin & _). by apply elem_of_nil in Hin.
  - assert ((∃ k0 v0, (k0, v0) ∈ (k, v) :: rest ∧ k0 ≠ "@timestamp" ∧ v0 ≠ VNone) ↔
            (k ≠ "@timestamp" ∧ v ≠ VNone) ∨
            ∃ k0 v0, (k0, v0) ∈ rest ∧ k0 ≠ "@timestamp" ∧ v0 ≠ VNone) as ->.
    { split.
      - intros (k0 & v0 & [[= -> ->]|Hin]%elem_of_cons & Hk & Hv); [by left|].
        right. by exists k0, v0.
      - intros [[Hk Hv]|(k0 & v0 & Hin & Hk & Hv)].
        + exists k, v. split; [left|done].
        + exists k0, v0. split; [by right|done]. }
    destruct (String.eqb_spec k "@timestamp") as [->|Hk].
    + rewrite IH. split; [by right|]. by intros [[? _]|?].
    + destruct v; simpl; rewrite ?IH; split; try (by right); try (by intros [[_ ?]|?]);
        intros _; left; done.
Qed.

Lemma base_schema_get (k : string) :
  dict_get k base_schema = if decide (k ∈ base_schema.*1) then Some VNone else None.
Proof.
  destruct (decide (k ∈ base_schema.*1)) as [Hin|Hnin].
  - cbn in Hin. repeat (apply elem_of_cons in Hin as [->|Hin]; [done|]).
    by apply elem_of_nil in Hin.
  - by apply dict_get_None.
Qed.

Lemma base_schema_NoDup : NoDup base_schema.*1.
Proof. apply (bool_decide_unpack (NoDup base_schema.*1)). vm_compute. exact I. Qed.

(** X1 — What [filter_fields] keeps.  With an empty field list the
    document is returned as it is.  With a non-empty one, the result binds
    exactly the listed keys that the document has, and [@timestamp] when
    the document has it whether listed or not, each to the document's
    value; every other key is gone.  Its keys are distinct when the
    document's are. *)
Theorem filter_fields_projection (d : doc) (keep_fields : list string) :
  (keep_fields = [] → filter_fields d keep_fields = d) ∧
  (keep_fields ≠ [] →
   ∀ k, dict_get k (filter_fields d keep_fields) =
        if decide (k ∈ keep_fields ∨ k = "@timestamp") then dict_get k d else None) ∧
  (NoDup d.*1 → NoDup (filter_fields d keep_fields).*1).
Proof.
  split; [by intros ->|]. split.
  - intros Hne k. by apply filter_fields_get.
  - apply filter_fields_NoDup.
Qed.

(** X2 — What [apply_base_schema] builds.  The result has the keys of the
    schema, in the schema's order, whatever the document holds: keys of the
    document that the schema lacks are dropped.  Under each key stands the
    document's value when the document has the key, and the schema's own
    value otherwise. *)
Theorem apply_base_schema_canonical (d schema : doc) :
  (apply_base_schema d schema).*1 = schema.*1 ∧
  (NoDup d.*1 →
   ∀ k, dict_get k (apply_base_schema d schema) =
        match dict_get k schema with
        | Some v0 => Some (default v0 (dict_get k d))
        | None => None
        end).
Proof.
  split; [apply apply_base_schema_keys|].
  intros Hnd k. by apply apply_base_schema_get.
Qed.

(** The published form of a record, key by key. *)
Lemma unified_doc_get (keep_fields : list string) (d : doc) (k : string) :
  NoDup d.*1 →
  dict_get k (unified_doc keep_fields d) =
  if decide (k ∈ base_schema.*1)
  then Some (default VNone (dict_get k (filter_fields d keep_fields)))
  else None.
Proof.
  intros Hnd. unfold unified_doc.
  rewrite apply_base_schema_get by (by apply filter_fields_NoDup).
  rewrite base_schema_get. by destruct (decide (k ∈ base_schema.*1)).
Qed.

(** X3 — Which records reach the message bus.  A fetched document passes
    the emptiness check of the loop exactly when it holds a value other than
    [None] under one of the six data fields of the schema ([objId],
    [rsctypeId], [TEMPERATURE], [TEMPERATURE1], [HUMIDITY], [HUMIDITY1])
    that the field list keeps (every field, when the list is empty).  The
    keys of the document are distinct, as those of a [dict] are. *)
Theorem published_iff_data (keep_fields : list string) (d : doc) :
  NoDup d.*1 →
  survives keep_fields d = true ↔
  ∃ k v, k ∈ base_schema.*1 ∧ k ≠ "@timestamp" ∧
         (keep_fields = [] ∨ k ∈ keep_fields) ∧
         dict_get k d = Some v ∧ v ≠ VNone.
Proof.
  intros Hnd. unfold survives. rewrite negb_true_iff, is_effectively_empty_false.
  assert (NoDup (unified_doc keep_fields d).*1) as Hu.
  { unfold unified_doc. rewrite apply_base_schema_keys. apply base_schema_NoDup. }
  assert (∀ k v, k ≠ "@timestamp" →
                 dict_get k (filter_fields d keep_fields) = Some v ↔
                 (keep_fields = [] ∨ k ∈ keep_fields) ∧ dict_get k d = Some v) as Hf.
  { intros k v Hk. destruct keep_fields as [|f0 rest].
    - simpl. split; [by split; [left|]|by intros [_ ?]].
    - rewrite filter_fields_get by done.
      destruct (decide (k ∈ f0 :: rest ∨ k = "@timestamp")) as [[Hin|?]|Hnin]; [|done|].
      + split; [by split; [right|]|by intros [_ ?]].
      + split; [done|]. intros [[?|Hin] _]; [done|]. destruct Hnin. by left. }
  split.
  - intros (k & v & Hin & Hk & Hv). exists k, v.
    apply dict_get_items in Hin; [|done]. rewrite unified_doc_get in Hin by done.
    destruct (decide (k ∈ base_schema.*1)) as [Hkeys|]; [|done].
    split; [done|]. split; [done|].
    destruct (dict_get k (filter_fields d keep_fields)) as [v'|] eqn:Hget;
      simpl in Hin; simplify_eq; try done.
    apply Hf in Hget as [? ?]; done.
  - intros (k & v & Hkeys & Hk & Hkeep & Hget & Hv). exists k, v.
    split; [|done]. apply dict_get_items; [done|].
    rewrite unified_doc_get, decide_True by done.
    assert (dict_get k (filter_fields d keep_fields) = Some v) as -> by (by apply Hf).
    done.
Qed.

(** The sample record holds a temperature. *)
Lemma published_iff_data_witness :
  survives sample_keep sample_full = true ↔
  ∃ k v, k ∈ base_schema.*1 ∧ k ≠ "@timestamp" ∧
         (sample_keep = [] ∨ k ∈ sample_keep) ∧
         dict_get k sample_full = Some v ∧ v ≠ VNone.
Proof.
  apply (published_iff_data sample_keep sample_full).
  apply (bool_decide_unpack (NoDup sample_full.*1)). vm_compute. exact I.
Defined.

(** What a tick sends is a prefix of the unified surviving records of the
    response. *)
Lemma tick_sends env keep_fields (s : state) :
  ∃ docs k,
    sends (tick env keep_fields s).2 =
    take k (unified_doc keep_fields <$> survivors keep_fields docs).
Proof.
  unfold tick. destruct (fetch_new_docs env (last_timestamp s)) as [docs|e].
  - exists docs.
    destruct (tick_docs_cases env keep_fields docs s)
      as [(_ & _ & k & Hk)|(ts & _ & _ & Htr & _)]; [by exists k|].
    exists (length (unified_doc keep_fields <$> survivors keep_fields docs)).
    rewrite Htr, sends_app, sends_Send, take_ge by done. simpl. by rewrite app_nil_r.
  - by exists [], 0.
Qed.

(** X4 — The shape of what is published.  Over any number of ticks, every
    payload handed to [producer.send] has exactly the seven keys of
    [base_schema], in that order, and at least one field other than
    [@timestamp] that is not [None]. *)
Theorem published_payload_shape (keep_fields : list string) (envs : list tick_env)
    (s : state) :
  Forall (λ payload, payload.*1 = base_schema.*1 ∧
                     is_effectively_empty payload = false)
    (sends (run envs keep_fields s).2).
Proof.
  revert s. induction envs as [|env envs IH]; intros s; simpl; [constructor|].
  destruct (tick env keep_fields s) as [s1 tr1] eqn:Ht.
  specialize (IH s1). destruct (run envs keep_fields s1) as [s2 tr2]. simpl in *.
  rewrite sends_app. apply Forall_app. split; [|done].
  destruct (tick_sends env keep_fields s) as (docs & k & Hk).
  rewrite Ht in Hk. simpl in Hk. rewrite Hk.
  apply Forall_take, Forall_fmap, Forall_forall. intros d Hd. simpl. split.
  - unfold unified_doc. apply apply_base_schema_keys.
  - by eapply survivors_survive.
Qed.

(** X5 — Stop and start again.  Whenever [main] has started and run any
    number of ticks, starting again on the checkpoint file as the run left
    it gives the very state the run ended in: the cursor in memory and the
    cursor a restart reads never differ. *)
Theorem restart_resumes (checkpoint_file0 : file) (default_start_ts : string)
    (keep_fields : list string) (envs : list tick_env) (s' : state)
    (tr : list event) :
  main checkpoint_file0 default_start_ts keep_fields envs = Ok (s', tr) →
  start (checkpoint_file s') default_start_ts = Ok s'.
Proof.
  unfold main. destruct (start checkpoint_file0 default_start_ts) as [s0|e] eqn:Hs; [|done].
  intros [= Hrun].
  destruct (run_saves_sorted keep_fields envs s0) as (_ & Hlast & Hfile).
  rewrite Hrun in Hlast, Hfile. simpl in Hlast, Hfile.
  destruct s' as [ts' file']. simpl in *. subst ts' file'.
  destruct (last (saves tr)) as [ts|]; simpl; [done|].
  unfold start in *. destruct (load_checkpoint checkpoint_file0 default_start_ts) eqn:Hl; [|done].
  simplify_eq/=. by rewrite Hl.
Qed.

(** The sample run of one tick, started without a file. *)
Lemma restart_resumes_witness :
  start (Parsed (Some "2025-06-01T00:00:05Z")) "1970-01-01T00:00:00Z" =
  Ok {| last_timestamp := "2025-06-01T00:00:05Z";
        checkpoint_file := Parsed (Some "2025-06-01T00:00:05Z") |}.
Proof.
  exact (restart_resumes NoFile "1970-01-01T00:00:00Z" sample_keep
           [quiet_env [sample_full; sample_empty]]
           {| last_timestamp := "2025-06-01T00:00:05Z";
              checkpoint_file := Parsed (Some "2025-06-01T00:00:05Z") |}
           [ Send (unified_doc sample_keep sample_full); Flush;
             SaveCheckpoint "2025-06-01T00:00:05Z" ]
           eq_refl).
Defined.

(** The loop does not get past a surviving record whose [@timestamp] is
    truthy and not a string. *)
Lemma publish_docs_unorderable env keep_fields (d : doc) (new_docs : list doc) :
  d ∈ new_docs → survives keep_fields d = true →
  truthy (dict_get_default "@timestamp" d) = true →
  (∀ ts, dict_get_default "@timestamp" d ≠ VStr ts) →
  ∀ local_max_ts nsent,
    ∃ e, (publish_docs env keep_fields new_docs local_max_ts nsent).2 = Raise e.
Proof.
  intros Hin Hs Ht Hstr. induction new_docs as [|d0 rest IH]; intros m n.
  { by apply elem_of_nil in Hin. }
  apply elem_of_cons in Hin as [<-|Hin].
  - simpl. rewrite (empty_not_survives _ d), Hs. simpl.
    destruct (send_raises env n); [by eexists|].
    assert (advance (dict_get_default "@timestamp" d) m = Raise TypeError) as ->.
    { destruct (dict_get_default "@timestamp" d) as [|b|z|ts]; simpl in *;
        try done; try by rewrite Ht. by destruct (Hstr ts). }
    by eexists.
  - case_survives d0; [|by apply IH].
    destruct (send_raises env n); [by eexists|].
    destruct (advance _ m) as [m1|e]; [|by eexists].
    destruct (IH Hin m1 (S n)) as [e He].
    destruct (publish_docs env keep_fields rest m1 (S n)) as [tr r]. simpl in *.
    by exists e.
Qed.

(** X6 — A timestamp that cannot be compared.  If the response holds a
    record that passes the emptiness check and whose [@timestamp] is truthy
    but not a string (a number of epoch milliseconds, say), the comparison
    [doc_ts > local_max_ts] raises, or the tick has ended before reaching
    it: either way the tick writes no checkpoint and leaves cursor and file
    as they were, so the next tick asks for the same documents again. *)
Theorem unorderable_timestamp_blocks_checkpoint (env : tick_env)
    (keep_fields : list string) (s : state) (docs : list doc) (d : doc) :
  fetch_new_docs env (last_timestamp s) = Ok docs →
  d ∈ docs → survives keep_fields d = true →
  truthy (dict_get_default "@timestamp" d) = true →
  (∀ ts, dict_get_default "@timestamp" d ≠ VStr ts) →
  (tick env keep_fields s).1 = s ∧ saves (tick env keep_fields s).2 = [].
Proof.
  intros Hf Hin Hs Ht Hstr. unfold tick. rewrite Hf. unfold tick_docs.
  destruct docs as [|d0 rest]; [done|].
  destruct (publish_docs_unorderable env keep_fields d (d0 :: rest) Hin Hs Ht Hstr
              (last_timestamp s) 0) as [e He].
  destruct (publish_docs env keep_fields (d0 :: rest) (last_timestamp s) 0)
    as [tr r] eqn:Hp.
  simpl in He. subst r. split; [done|]. simpl.
  destruct (publish_docs_sends _ _ _ _ _ _ _ Hp) as (k & -> & _).
  apply saves_Send.
Qed.

(** A record stamped with epoch milliseconds. *)
Definition sample_epoch : doc :=
  [ ("@timestamp", VNum 1748736005000); ("TEMPERATURE", VNum 215) ].

(** The sample record is sent first; the tick then ends on the record
    stamped with a number. *)
Lemma unorderable_timestamp_witness :
  (tick (quiet_env [sample_full; sample_epoch]) sample_keep sample_state).1 = sample_state ∧
  saves (tick (quiet_env [sample_full; sample_epoch]) sample_keep sample_state).2 = [].
Proof.
  apply (unorderable_timestamp_blocks_checkpoint
           (quiet_env [sample_full; sample_epoch]) sample_keep sample_state
           [sample_full; sample_epoch] sample_epoch).
  - reflexivity.
  - apply list_elem_of_further, list_elem_of_here.
  - reflexivity.
  - reflexivity.
  - intros ts. discriminate.
Defined.

(** *** A tick that did not reach the checkpoint *)

(** Whatever a loop sends, the loop whose sends all return sends it first. *)
Lemma publish_docs_prefix env env' keep_fields (new_docs : list doc) :
  (∀ i, send_raises env' i = None) →
  ∀ local_max_ts nsent nsent',
    (publish_docs env keep_fields new_docs local_max_ts nsent).1 `prefix_of`
    (publish_docs env' keep_fields new_docs local_max_ts nsent').1.
Proof.
  intros Hquiet. induction new_docs as [|d rest IH]; intros m n n'; [done|].
  case_survives d; [|apply IH].
  rewrite Hquiet. destruct (send_raises env n); [apply prefix_nil|].
  destruct (advance _ m) as [m1|e]; [|done].
  specialize (IH m1 (S n) (S n')).
  destruct (publish_docs env keep_fields rest m1 (S n)) as [tr r].
  destruct (publish_docs env' keep_fields rest m1 (S n')) as [tr' r'].
  by apply prefix_cons.
Qed.

(** The payloads of a prefix of a trace are a prefix of its payloads. *)
Lemma sends_prefix (tr tr' : list event) :
  tr `prefix_of` tr' → sends tr `prefix_of` sends tr'.
Proof. intros [k ->]. rewrite sends_app. by apply prefix_app_r. Qed.

(** The payloads a tick over a response sends are those its loop sends. *)
Lemma tick_docs_sends env keep_fields (docs : list doc) (s : state) :
  sends (tick_docs env keep_fields docs s).2 =
  sends (publish_docs env keep_fields docs (last_timestamp s) 0).1.
Proof.
  unfold tick_docs. destruct docs as [|d0 rest]; [done|].
  destruct (publish_docs env keep_fields (d0 :: rest) (last_timestamp s) 0) as [tr r].
  destruct r as [m|e]; [|done]. destruct (flush_raises env); [done|].
  destruct (String.eqb m (last_timestamp s)); simpl;
    rewrite sends_app; simpl; by rewrite app_nil_r.
Qed.

(** X21 — At-least-once delivery.  When a tick ends without saving the
    checkpoint (the fetch raised, nothing new came back, a send or the
    flush raised, or a timestamp could not be ordered), the state is the one
    it started from; and if the next tick receives the same response and
    none of its sends raises, it sends again, first and in the same order,
    every payload the failed tick had sent. *)
Theorem unsaved_sends_are_repeated (env env' : tick_env) (keep_fields : list string)
    (s : state) :
  saves (tick env keep_fields s).2 = [] →
  fetch_new_docs env' (last_timestamp s) = fetch_new_docs env (last_timestamp s) →
  (∀ i, send_raises env' i = None) →
  (tick env keep_fields s).1 = s ∧
  sends (tick env keep_fields s).2 `prefix_of`
    sends (tick env' keep_fields (tick env keep_fields s).1).2.
Proof.
  intros Hsaves Hfetch Hquiet.
  assert ((tick env keep_fields s).1 = s) as Hs.
  { destruct (tick_cases env keep_fields s) as [[? _]|(ts & docs & _ & _ & _ & Htr & _)];
      [done|].
    rewrite Htr, saves_app in Hsaves. by destruct (saves (Send <$> _)). }
  split; [done|]. rewrite Hs. unfold tick. rewrite Hfetch.
  destruct (fetch_new_docs env (last_timestamp s)) as [docs|e]; [|done].
  rewrite !tick_docs_sends. apply sends_prefix. by apply publish_docs_prefix.
Qed.

(** The sample record is sent, the flush raises; the next tick sends it
    again. *)
Lemma unsaved_sends_are_repeated_witness :
  let env := {| fetch_new_docs := λ _, Ok [sample_full];
                send_raises := λ _, None;
                flush_raises := Some KafkaError |} in
  sends (tick env sample_keep sample_state).2 `prefix_of`
    sends (tick (quiet_env [sample_full]) sample_keep
             (tick env sample_keep sample_state).1).2.
Proof.
  refine (proj2 (unsaved_sends_are_repeated _ (quiet_env [sample_full]) sample_keep
                   sample_state _ _ _)).
  - reflexivity.
  - reflexivity.
  - intros i. reflexivity.
Defined.

End Publisher.

(** ** The collector: [streaming_pipeline.py] *)

Module Pipeline.
Import Py.

(** *** Data frames *)

(** A [pandas.DataFrame] is the list of its rows; a row maps column names
    to cells. *)
Definition row := doc.
Definition dataframe := list row.

(** The sort key of a row: its [@timestamp] cell.  The frames that reach a
    sort have passed [process_dataframe_timestamps], which leaves a formatted
    string there. *)
Definition row_ts (r : row) : string :=
  match dict_get "@timestamp" r with
  | Some (VStr s) => s
  | _ => ""
  end.

(** [df.drop_duplicates()]: full-row duplicates go, the first occurrence
    stays ([keep='first']).  [seen] holds the rows kept so far. *)
Fixpoint drop_duplicates_from (seen : list row) (df : dataframe) : dataframe :=
  match df with
  | [] => []
  | r :: rest =>
      if decide (r ∈ seen) then drop_duplicates_from seen rest
      else r :: drop_duplicates_from (r :: seen) rest
  end.

Definition drop_duplicates (df : dataframe) : dataframe :=
  drop_duplicates_from [] df.

(** [df.sort_values('@timestamp')]: ascending by the key.  pandas does the
    sorting; it is modelled by insertion, which is one sort among those
    pandas may run. *)
Fixpoint insert_row (r : row) (df : dataframe) : dataframe :=
  match df with
  | [] => [r]
  | r' :: rest =>
      if String.leb (row_ts r) (row_ts r') then r :: r' :: rest
      else r' :: insert_row r rest
  end.

Definition sort_values (df : dataframe) : dataframe :=
  foldr insert_row [] df.

(** [pd.concat(dfs, ignore_index=True)]. *)
Definition pd_concat (dfs : list dataframe) : dataframe := concat dfs.

(** The record set a merge cycle writes to the daily artifact, from the
    daily artifact it read ([None]: there was none) and the non-empty minute
    frames it loaded: lines 532-557 of [merge_previous_minute_data]. *)
Definition merge_records (existing_df : option dataframe) (dfs : list dataframe)
  : dataframe :=
  let merged_df := sort_values (drop_duplicates (pd_concat dfs)) in
  match existing_df with
  | Some existing_df =>
      sort_values (drop_duplicates (pd_concat [existing_df; merged_df]))
  | None => merged_df
  end.

(** *** The outside world *)

(** An object of the bucket: a parquet file with its rows, or bytes that
    [pd.read_parquet] rejects. *)
Inductive blob :=
| Parquet (df : dataframe)
| Garbage.

(** The calls to the object store. *)
Inductive call :=
| ListObjects (prefix : string)
| StatObject (name : string)
| FGetObject (name : string)
| FPutObject (name : string) (df : dataframe)
| RemoveObject (name : string).

Inductive level := DEBUG | INFO | WARNING | ERROR.

(** The calls to the search index. *)
Inductive request :=
| OpenScroll (attempt : nat)    (* POST <index>/_search?scroll=2m *)
| NextPage                      (* POST _search/scroll *)
| CountQuery.                   (* POST <index>/_search with size 0 *)

(** What a run does, in program order.  A call is recorded with the
    exception it raised, [None] when it returned. *)
Inductive event :=
| Store (c : call) (raised : option exn)
| Search (q : request) (raised : option exn)
| Sleep (seconds : Z)
| Log (lvl : level) (msg : string).

#[global] Instance call_eq_dec : EqDecision call.
Proof. solve_decision. Defined.
#[global] Instance level_eq_dec : EqDecision level.
Proof. solve_decision. Defined.
#[global] Instance request_eq_dec : EqDecision request.
Proof. solve_decision. Defined.
#[global] Instance event_eq_dec : EqDecision event.
Proof. solve_decision. Defined.

(** The streaming checkpoint file [streaming_checkpoint.json]. *)
Inductive checkpoint_file :=
| NoFile
| Unparsable
| Parsed (checkpoint : doc).

(** The batch checkpoint [batch_checkpoint_<month>.json]: the weeks done,
    and what is known of the weeks that failed or came back short.  The
    week numbers of a run are integers; keys read back from a JSON file are
    strings, never equal to a week number, and are left out. *)
Record failed_info := {
  attempts : nat;
  last_error : option exn;        (* [None]: "No data retrieved" *)
  failed_expected_count : Z;
  timestamp : string
}.

Record partial_info := {
  current_count : nat;
  partial_expected_count : Z;
  last_attempt : string
}.

Record batch_checkpoint := {
  completed_weeks : gset Z;
  failed_weeks : gmap Z failed_info;
  partial_weeks : gmap Z partial_info
}.

(** The bucket, the local checkpoint files, and the faults to come: the
    [n]-th call to the object store raises [store_faults n] when that is
    [Some e], whatever the bucket holds. *)
Record world := {
  objects : gmap string blob;
  store_faults : nat → option exn;
  store_calls : nat;
  streaming_checkpoint : checkpoint_file;
  batch_checkpoint_file : option batch_checkpoint
}.

(** *** Computations: state, exceptions, and the events they leave *)

Definition M (A : Type) : Type := world → result A * world * list event.

#[global] Instance M_ret : MRet M := λ A a w, (Ok a, w, []).

#[global] Instance M_bind : MBind M := λ A B f m w,
  match m w with
  | (Ok a, w1, tr1) => let '(r, w2, tr2) := f a w1 in (r, w2, tr1 ++ tr2)
  | (Raise e, w1, tr1) => (Raise e, w1, tr1)
  end.

Definition raise {A} (e : exn) : M A := λ w, (Raise e, w, []).

(** [try: m  except Exception as e: handler e].  A handler that does not
    match re-raises. *)
Definition try_except {A} (m : M A) (handler : exn → M A) : M A := λ w,
  match m w with
  | (Ok a, w1, tr1) => (Ok a, w1, tr1)
  | (Raise e, w1, tr1) => let '(r, w2, tr2) := handler e w1 in (r, w2, tr1 ++ tr2)
  end.

Definition log (lvl : level) (msg : string) : M unit := λ w, (Ok tt, w, [Log lvl msg]).

(** The world once a call to the object store has ended, with the bucket
    it leaves. *)
Definition after_call (w : world) (objs : gmap string blob) : world :=
  {| objects := objs;
     store_faults := store_faults w;
     store_calls := S (store_calls w);
     streaming_checkpoint := streaming_checkpoint w;
     batch_checkpoint_file := batch_checkpoint_file w |}.

(** One call to the object store: it raises the fault scheduled for it, or
    acts on the bucket. *)
Definition store_call {A} (c : call)
    (act : gmap string blob → result A * gmap string blob) : M A := λ w,
  match store_faults w (store_calls w) with
  | Some e => (Raise e, after_call w (objects w), [Store c (Some e)])
  | None =>
      match act (objects w) with
      | (Ok a, objs) => (Ok a, after_call w objs, [Store c None])
      | (Raise e, _) => (Raise e, after_call w (objects w), [Store c (Some e)])
      end
  end.

(** [minio_client.list_objects(bucket, prefix=...)], read to the end. *)
Definition list_objects (prefix : string) : M (list string) :=
  store_call (ListObjects prefix)
    (λ objs, (Ok (List.filter (String.prefix prefix) (map_to_list objs).*1), objs)).

Definition stat_object (name : string) : M unit :=
  store_call (StatObject name)
    (λ objs, match objs !! name with
             | Some _ => (Ok tt, objs)
             | None => (Raise (S3Error "NoSuchKey"), objs)
             end).

Definition fget_object (name : string) : M blob :=
  store_call (FGetObject name)
    (λ objs, match objs !! name with
             | Some b => (Ok b, objs)
             | None => (Raise (S3Error "NoSuchKey"), objs)
             end).

(** [df.to_parquet(tmp)] then [minio_client.fput_object(bucket, name, tmp)]. *)
Definition fput_object (name : string) (df : dataframe) : M unit :=
  store_call (FPutObject name df) (λ objs, (Ok tt, <[name := Parquet df]> objs)).

Definition remove_object (name : string) : M unit :=
  store_call (RemoveObject name) (λ objs, (Ok tt, delete name objs)).

Definition read_parquet (b : blob) : M dataframe :=
  match b with
  | Parquet df => mret df
  | Garbage => raise ParquetError
  end.

(** [s in name] for strings. *)
Fixpoint contains (s name : string) : bool :=
  String.prefix s name ||
  match name with
  | EmptyString => false
  | String _ name' => contains s name'
  end.

(** *** The merge cycle: [merge_previous_minute_data] *)

(** [minute_str] is [target_minute.strftime("%Y%m%d_%H%M")] and [date_str]
    is [target_date.strftime('%Y%m%d')], for the minute two before now. *)

Definition is_target_file (minute_str name : string) : bool :=
  contains ("rt_" ++ minute_str)%string name && contains "_kst.parquet" name.

Definition daily_file (date_str : string) : string :=
  ("/daily/daily_" ++ date_str ++ "_kst.parquet")%string.

(** The body of the loop over [target_files], lines 517-530: the frame of
    a file that loads and has rows; a file that raises is logged and
    skipped. *)
Definition load_minute_file (file_name : string) : M (option dataframe) :=
  try_except
    (b ← fget_object file_name;
     df ← read_parquet b;
     mret (match df with [] => None | _ => Some df end))
    (λ e, log ERROR "Failed to process";; mret None).

(** The loop over [target_files]: the frames kept are [dfs], their files
    [processed_files]. *)
Fixpoint load_minute_files (target_files : list string)
  : M (list dataframe * list string) :=
  match target_files with
  | [] => mret ([], [])
  | file_name :: rest =>
      loaded ← load_minute_file file_name;
      '(dfs, processed_files) ← load_minute_files rest;
      mret (match loaded with
            | Some df => (df :: dfs, file_name :: processed_files)
            | None => (dfs, processed_files)
            end)
  end.

(** The body of the loop over [processed_files], lines 576-580. *)
Definition remove_processed_file (file_name : string) : M unit :=
  try_except
    (remove_object file_name;; log DEBUG "Removed merged KST file")
    (λ e, log WARNING "Failed to remove").

Fixpoint remove_processed_files (processed_files : list string) : M unit :=
  match processed_files with
  | [] => mret tt
  | file_name :: rest =>
      remove_processed_file file_name;;
      remove_processed_files rest
  end.

(** Lines 541-557: the frame to write, from the existing daily file when
    there is one; [None] stands for the [return] of the handler.  Only
    [S3Error] is caught. *)
Definition read_daily_file (daily : string) (merged_df : dataframe)
  : M (option dataframe) :=
  try_except
    (b ← fget_object daily;
     existing_df ← read_parquet b;
     mret (Some (sort_values
                   (drop_duplicates (pd_concat [existing_df; merged_df])))))
    (λ e, match e with
          | S3Error code =>
              if String.eqb code "NoSuchKey" then mret (Some merged_df)
              else log ERROR "Error accessing daily file";; mret None
          | _ => raise e
          end).

(** Lines 497-504: the names under [realtime/] that belong to the minute;
    [None] stands for the [return] taken when the listing raises. *)
Definition list_target_files (minute_str : string) : M (option (list string)) :=
  try_except
    (names ← list_objects "realtime/";
     mret (Some (List.filter (is_target_file minute_str) names)))
    (λ e, log ERROR "Failed to list objects";; mret None).

(** Lines 532-584, the [if dfs:] block: merge, write the daily file, and
    only then delete the processed minute files. *)
Definition merge_loaded_frames (date_str : string) (dfs : list dataframe)
    (processed_files : list string) : M unit :=
  match dfs with
  | [] => mret tt
  | _ =>
      let merged_df := sort_values (drop_duplicates (pd_concat dfs)) in
      final ← read_daily_file (daily_file date_str) merged_df;
      match final with
      | None => mret tt
      | Some final_df =>
          fput_object (daily_file date_str) final_df;;
          log INFO "Merged records into daily file";;
          remove_processed_files processed_files
      end
  end.

Definition merge_previous_minute_data (minute_str date_str : string) : M unit :=
  listed ← list_target_files minute_str;
  match listed with
  | None => mret tt
  | Some [] => log DEBUG "No KST files to merge"
  | Some target_files =>
      log INFO "Merging KST files";;
      '(dfs, processed_files) ← load_minute_files target_files;
      merge_loaded_frames date_str dfs processed_files
  end.

(** *** The window fetcher: [fetch_elasticsearch_data_paginated] *)

(** What the pipeline object carries that the functions below read:
    [self.keep_fields], and the two steps whose bodies are pandas and pytz
    calls, taken as given: [process_dataframe_timestamps] (timestamps to
    KST strings) and the week filter of [process_and_save_week_data]
    ([pd.to_datetime] and the range test, which may raise), by week. *)
Record pipeline := {
  keep_fields : list string;
  process_dataframe_timestamps : dataframe → dataframe;
  week_filter : Z → dataframe → result dataframe
}.

(** An opened scroll: the [_source] of the hits of the opening answer, and
    the answers to the continuation requests that follow.  A scroll reads a
    snapshot of the index, so these are finitely many; after the last one
    the server answers with no hits. *)
Record scroll := {
  hits : list doc;
  pages : list (result (list doc))
}.

(** The search index during one call of the fetcher: its answer to the
    opening request of each attempt. *)
Definition es_env := nat → result scroll.

(** The projection applied to each hit (lines 306-314 and 346-354). *)
Definition project (keep_fields : list string) (source : doc) : doc :=
  let filtered :=
    fold_left
      (λ filtered field,
         match dict_get field source with
         | Some v => dict_set field v filtered
         | None => filtered
         end)
      keep_fields [] in
  match dict_get "@timestamp" source with
  | Some ts => dict_set "@timestamp" ts filtered
  | None => filtered
  end.

(** The [while True] loop over the continuation requests.  A
    [RequestException] is logged and ends the loop; any other exception
    leaves the function.  The [DELETE] that releases the scroll after the
    loop sits under a bare [except: pass] and changes neither the result nor
    the flow; it is left out of the events. *)
Fixpoint scroll_pages (keep_fields : list string)
    (pages : list (result (list doc))) (all_docs : list doc)
  : list event * result (list doc) :=
  match pages with
  | [] | Ok [] :: _ =>
      ([Search NextPage None; Log INFO "Scroll completed"], Ok all_docs)
  | Ok scroll_hits :: rest =>
      let '(tr, r) :=
        scroll_pages keep_fields rest
          (all_docs ++ (project keep_fields <$> scroll_hits)) in
      (Search NextPage None :: Log INFO "Fetched batch" :: tr, r)
  | Raise RequestException :: _ =>
      ([Search NextPage (Some RequestException); Log ERROR "Scroll request failed"],
       Ok all_docs)
  | Raise e :: _ => ([Search NextPage (Some e)], Raise e)
  end.

(** [wait_time = min(2 ** attempt, 10)]. *)
Definition wait_time (attempt : nat) : Z := Z.min (2 ^ Z.of_nat attempt) 10.

(** The [for attempt in range(max_retries)] loop, from [attempt] on, with
    [remaining] iterations to go. *)
Fixpoint open_scroll (es : es_env) (keep_fields : list string)
    (max_retries attempt remaining : nat) (all_docs : list doc)
  : list event * result (list doc) :=
  match remaining with
  | 0 => ([], Ok all_docs)
  | S remaining' =>
      match es attempt with
      | Ok sc =>
          match hits sc with
          | [] => ([Search (OpenScroll attempt) None; Log INFO "No data found"], Ok [])
          | first_hits =>
              let '(tr, r) :=
                scroll_pages keep_fields (pages sc)
                  (all_docs ++ (project keep_fields <$> first_hits)) in
              (Search (OpenScroll attempt) None :: Log INFO "Started scroll" :: tr, r)
          end
      | Raise RequestException =>
          if (attempt =? max_retries - 1)%nat then
            ([Search (OpenScroll attempt) (Some RequestException);
              Log ERROR "All scroll attempts failed"],
             Ok all_docs)
          else
            let '(tr, r) :=
              open_scroll es keep_fields max_retries (S attempt) remaining' all_docs in
            (Search (OpenScroll attempt) (Some RequestException)
               :: Log WARNING "Scroll attempt failed, retrying"
               :: Sleep (wait_time attempt) :: tr,
             r)
      | Raise e => ([Search (OpenScroll attempt) (Some e)], Raise e)
      end
  end.

Definition fetch_elasticsearch_data_paginated (es : es_env)
    (keep_fields : list string) (max_retries : nat)
  : list event * result (list doc) :=
  open_scroll es keep_fields max_retries 0 max_retries [].

(** The default of the [max_retries] argument. *)
Definition default_max_retries : nat := 5.

(** A computation that touches neither bucket nor files. *)
Definition lift {A} (p : list event * result A) : M A := λ w, (p.2, w, p.1).

(** *** The minute collector: [collect_current_minute_data] *)

(** The target minute, as the strings the collector derives from the clock:
    the [strftime] used in the object name, the [isoformat] of the UTC end of
    the minute, and the [isoformat] of the KST minute. *)
Record minute_window := {
  minute_str : string;
  utc_minute_end : string;
  target_minute : string
}.

(** [_load_checkpoint]: any failure to open or parse gives the default,
    stamped one hour before now. *)
Definition _load_checkpoint (one_hour_ago : string) : M doc := λ w,
  match streaming_checkpoint w with
  | Parsed checkpoint => (Ok checkpoint, w, [])
  | NoFile | Unparsable =>
      (Ok [("last_timestamp", VStr (one_hour_ago ++ "Z")%string)], w,
       [Log ERROR "Failed to load checkpoint"])
  end.

(** [_save_checkpoint]: a full rewrite of the file.  (A failure of the local
    write, which the source logs and swallows, is not modelled.) *)
Definition _save_checkpoint (checkpoint : doc) : M unit := λ w,
  (Ok tt,
   {| objects := objects w;
      store_faults := store_faults w;
      store_calls := store_calls w;
      streaming_checkpoint := Parsed checkpoint;
      batch_checkpoint_file := batch_checkpoint_file w |},
   []).

(** ['@timestamp' in df.columns]: the columns of a frame built from
    dictionaries are the keys that occur in them. *)
Definition has_timestamp_column (df : dataframe) : bool :=
  existsb (dict_mem "@timestamp") df.

Definition minute_object_name (minute_str : string) : string :=
  ("realtime/rt_" ++ minute_str ++ "_kst.parquet")%string.

(** [save_minute_data(df, minute_timestamp)]. *)
Definition save_minute_data (self : pipeline) (df : dataframe)
    (minute_str : string) : M (option string) :=
  match df with
  | [] => mret None
  | _ =>
      let df_processed := process_dataframe_timestamps self df in
      let object_name := minute_object_name minute_str in
      fput_object object_name df_processed;;
      log INFO "Saved records";;
      mret (Some object_name)
  end.

Definition collect_current_minute_data (self : pipeline) (es : es_env)
    (win : minute_window) (one_hour_ago : string) : M unit :=
  docs ← lift (fetch_elasticsearch_data_paginated es (keep_fields self)
                 default_max_retries);
  match docs with
  | [] => log INFO "No data found for KST minute"
  | _ =>
      let df := docs in
      if has_timestamp_column df then
        let df_kst := process_dataframe_timestamps self df in
        saved_file ← save_minute_data self df_kst (minute_str win);
        checkpoint ← _load_checkpoint one_hour_ago;
        let checkpoint :=
          dict_set "last_timestamp" (VStr (utc_minute_end win ++ "Z")%string)
            checkpoint in
        let checkpoint :=
          dict_set "last_processed_minute" (VStr (target_minute win)) checkpoint in
        _save_checkpoint checkpoint;;
        log INFO "Successfully processed records"
      else log WARNING "No @timestamp field in documents"
  end.

(** *** The weekly batch: [process_batch_mode] *)

(** [object_exists]. *)
Definition object_exists (object_name : string) : M bool :=
  try_except
    (stat_object object_name;; mret true)
    (λ e, match e with
          | S3Error code => if String.eqb code "NoSuchKey" then mret false else raise e
          | _ => raise e
          end).

(** [load_parquet_safe]. *)
Definition load_parquet_safe (object_name : string) : M dataframe :=
  b ← fget_object object_name;
  read_parquet b.

(** Lines 902-945 of [process_and_save_week_data]: the new rows that fall
    in the week; [None] stands for the [return False] taken when none does.
    Documents without an [@timestamp] column pass unfiltered. *)
Definition week_frame (self : pipeline) (week_num : Z) (df : dataframe)
  : M (option dataframe) :=
  if has_timestamp_column df then
    let df := process_dataframe_timestamps self df in
    week_df ← lift ([], week_filter self week_num df);
    match week_df with
    | [] => log WARNING "No data in target week range after filtering";; mret None
    | _ => mret (Some week_df)
    end
  else log WARNING "No @timestamp field in documents";; mret (Some df).

(** Lines 947-959: merge with the existing weekly file when the pre-check
    counted records in it; if that file cannot be loaded now, the new rows
    are kept alone. *)
Definition merge_with_existing (object_name : string) (final_df : dataframe)
    (existing_record_count : nat) : M dataframe :=
  if (0 <? existing_record_count)%nat then
    try_except
      (existing_df ← load_parquet_safe object_name;
       log INFO "Merged with existing records";;
       mret (sort_values (drop_duplicates (pd_concat [existing_df; final_df]))))
      (λ e, log ERROR "Failed to merge with existing file, using new data only";;
            mret final_df)
  else mret final_df.

(** [process_and_save_week_data]; the result is the returned [bool]. *)
Definition process_and_save_week_data (self : pipeline) (all_docs : list doc)
    (week_num : Z) (object_name : string) (existing_record_count : nat) : M bool :=
  match all_docs with
  | [] => log INFO "No new data to process";; mret false
  | _ =>
      try_except
        (trimmed ← week_frame self week_num all_docs;
         match trimmed with
         | None => mret false
         | Some final_df =>
             final_df ← merge_with_existing object_name final_df existing_record_count;
             fput_object object_name final_df;;
             log INFO "Saved records";;
             mret true
         end)
        (λ e, log ERROR "Failed to process and save week data";; mret false)
  end.

(** Lines 692-700 of [process_batch_mode]: the number of records of the
    existing weekly file, 0 when there is none or it cannot be loaded. *)
Definition count_existing_records (object_name : string) : M nat :=
  found ← object_exists object_name;
  if found : bool then
    try_except
      (existing_df ← load_parquet_safe object_name;
       log INFO "Week file already exists";;
       mret (length existing_df))
      (λ e, log WARNING "Could not load existing file, will create new file";;
            mret 0)
  else mret 0.

(** The search index during the processing of one week: the answer to the
    pre-flight count query, and the index as each fetch attempt finds it. *)
Record week_env := {
  count_query : result Z;
  attempt_es : nat → es_env
}.

(** [fetch_ratio = len(all_docs) / expected_count], as an exact fraction.
    Python divides in floating point; for counts below 10^16 the comparison
    of the quotient with 0.8 has the same outcome. *)
Definition fetch_ratio (fetched : nat) (expected_count : Z) : Q :=
  inject_Z (Z.of_nat fetched) / inject_Z expected_count.

(** What the attempts loop hands on: [all_docs], [attempt_successful],
    [last_error]. *)
Definition attempts_result : Type := list doc * bool * option exn.

(** The [for attempt in range(max_attempts)] loop, from [attempt] on. *)
Fixpoint fetch_attempts (self : pipeline) (we : week_env) (expected_count : Z)
    (max_attempts attempt remaining : nat)
    (all_docs : list doc) (last_error : option exn)
  : list event * attempts_result :=
  match remaining with
  | 0 => ([], (all_docs, false, last_error))
  | S remaining' =>
      let '(tr, r) :=
        fetch_elasticsearch_data_paginated (attempt_es we attempt)
          (keep_fields self) default_max_retries in
      let next tr_attempt all_docs last_error :=
        let pause :=
          if (attempt <? max_attempts - 1)%nat
          then [Log INFO "Waiting 10 seconds before next attempt"; Sleep 10]
          else [] in
        let '(tr', out) :=
          fetch_attempts self we expected_count max_attempts (S attempt)
            remaining' all_docs last_error in
        (tr_attempt ++ pause ++ tr', out) in
      match r with
      | Ok [] => next (tr ++ [Log WARNING "No data returned"]) all_docs last_error
      | Ok docs =>
          let all_docs := all_docs ++ docs in
          if (0 <? expected_count)%Z then
            if Qle_bool (8 # 10) (fetch_ratio (length all_docs) expected_count)
            then (tr ++ [Log INFO "Data fetch progress"], (all_docs, true, last_error))
            else next (tr ++ [Log INFO "Data fetch progress"]) all_docs last_error
          else
            if (0 <? length all_docs)%nat
            then (tr, (all_docs, true, last_error))
            else next tr all_docs last_error
      | Raise e => next (tr ++ [Log ERROR "Attempt failed with error"]) all_docs (Some e)
      end
  end.

Definition max_attempts : nat := 3.

(** [json.dump(checkpoint, f)] on the batch checkpoint file.  The
    dictionary written always agrees with the three collections of the
    run. *)
Definition dump_batch_checkpoint (ck : batch_checkpoint) : M unit := λ w,
  (Ok tt,
   {| objects := objects w;
      store_faults := store_faults w;
      store_calls := store_calls w;
      streaming_checkpoint := streaming_checkpoint w;
      batch_checkpoint_file := Some ck |},
   []).

(** Lines 787-851: deduplicate what was fetched, then record the week as
    failed, partial or completed.  [now] is [datetime.now().isoformat()]. *)
Definition record_week_outcome (self : pipeline) (week_num : Z)
    (object_name : string) (now : string) (ck : batch_checkpoint)
    (existing_record_count : nat) (expected_count : Z)
    (fetched : attempts_result) : M batch_checkpoint :=
  let '(all_docs, attempt_successful, last_error) := fetched in
  let all_docs :=
    match all_docs with [] => [] | _ => drop_duplicates all_docs end in
  if negb attempt_successful && (length all_docs =? 0)%nat then
    let ck :=
      {| completed_weeks := completed_weeks ck;
         failed_weeks :=
           <[week_num := {| attempts := max_attempts;
                            last_error := last_error;
                            failed_expected_count := expected_count;
                            timestamp := now |}]> (failed_weeks ck);
         partial_weeks := partial_weeks ck |} in
    log ERROR "Week completely failed";;
    dump_batch_checkpoint ck;;
    log WARNING "Week marked as failed and will be retried later";;
    mret ck
  else if negb attempt_successful && (0 <? length all_docs)%nat then
    let ck :=
      {| completed_weeks := completed_weeks ck;
         failed_weeks := failed_weeks ck;
         partial_weeks :=
           <[week_num := {| current_count := length all_docs + existing_record_count;
                            partial_expected_count := expected_count;
                            last_attempt := now |}]> (partial_weeks ck) |} in
    log WARNING "Week partially successful";;
    dump_batch_checkpoint ck;;
    process_and_save_week_data self all_docs week_num object_name
      existing_record_count;;
    mret ck
  else
    let ck :=
      {| completed_weeks := completed_weeks ck;
         failed_weeks := delete week_num (failed_weeks ck);
         partial_weeks := delete week_num (partial_weeks ck) |} in
    log INFO "Week successfully completed";;
    saved ← process_and_save_week_data self all_docs week_num object_name
              existing_record_count;
    if saved : bool then
      let ck :=
        {| completed_weeks := {[week_num]} ∪ completed_weeks ck;
           failed_weeks := failed_weeks ck;
           partial_weeks := partial_weeks ck |} in
      dump_batch_checkpoint ck;;
      log INFO "Week completed and checkpointed";;
      mret ck
    else mret ck.

(** Lines 702-741: the pre-flight count; a failure leaves 0. *)
Definition expected_count_query (we : week_env) : list event * result Z :=
  match count_query we with
  | Ok n => ([Search CountQuery None; Log INFO "Expected data count"], Ok n)
  | Raise e =>
      ([Search CountQuery (Some e); Log WARNING "Could not get expected count"],
       Ok 0%Z)
  end.

(** The body of the [while current_date < end_date] loop for a week that is
    not yet completed: lines 692-851. *)
Definition process_week (self : pipeline) (we : week_env) (week_num : Z)
    (object_name : string) (now : string) (ck : batch_checkpoint)
  : M batch_checkpoint :=
  existing_record_count ← count_existing_records object_name;
  expected_count ← lift (expected_count_query we);
  fetched ←
    lift (let '(tr, out) :=
            fetch_attempts self we expected_count max_attempts 0 max_attempts [] None in
          (tr, Ok out));
  record_week_outcome self week_num object_name now ck existing_record_count
    expected_count fetched.

(** The loop over the weeks of the month, each with its object name and the
    search index as it finds it; completed weeks are skipped. *)
Fixpoint process_weeks (self : pipeline) (now : string)
    (weeks : list (Z * string * week_env)) (ck : batch_checkpoint)
  : M batch_checkpoint :=
  match weeks with
  | [] => mret ck
  | (week_num, object_name, we) :: rest =>
      if decide (week_num ∈ completed_weeks ck) then
        log INFO "Week already completed, skipping";;
        process_weeks self now rest ck
      else
        ck ← process_week self we week_num object_name now ck;
        process_weeks self now rest ck
  end.

(** The back-off waits and the opening requests of a trace, in order. *)
Definition sleeps (tr : list event) : list Z :=
  omap (λ e, match e with Sleep seconds => Some seconds | _ => None end) tr.

Definition opens (tr : list event) : list nat :=
  omap (λ e, match e with Search (OpenScroll attempt) _ => Some attempt | _ => None end) tr.

(** What [k] failed opening requests from [attempt] on leave in the trace. *)
Definition retry_prefix (attempt k : nat) : list event :=
  flat_map
    (λ i, [ Search (OpenScroll i) (Some RequestException);
            Log WARNING "Scroll attempt failed, retrying";
            Sleep (wait_time i) ])
    (seq attempt k).

(** *** The runs of a merge cycle *)

(** The minute artifacts a cycle sets out to merge: the listing under
    [realtime/], filtered by name. *)
Definition target_files (minute_str : string) (objs : gmap string blob) : list string :=
  List.filter (is_target_file minute_str)
    (List.filter (String.prefix "realtime/") (map_to_list objs).*1).

(** A minute artifact that the cycle downloaded and parsed and that held at
    least one record: its download returned, and the bucket holds a
    non-empty parquet file under its name. *)
Definition loaded (objs : gmap string blob) (tr : list event) (name : string) : Prop :=
  Store (FGetObject name) None ∈ tr ∧
  ∃ df, objs !! name = Some (Parquet df) ∧ df ≠ [].

(** The minute artifacts a trace deletes, and those it asks to delete. *)
Definition deleted (tr : list event) : list string :=
  omap (λ e, match e with Store (RemoveObject name) None => Some name | _ => None end) tr.

Definition delete_requests (tr : list event) : list string :=
  omap (λ e, match e with Store (RemoveObject name) _ => Some name | _ => None end) tr.

(** A call that changes the bucket. *)
Definition is_write (e : event) : bool :=
  match e with
  | Store (FPutObject _ _) _ | Store (RemoveObject _) _ => true
  | _ => false
  end.

(** A log line. *)
Definition is_log (e : event) : Prop := ∃ l m, e = Log l m.

(** What the loading loop leaves: downloads of target files and log lines;
    the frames it keeps are those of the processed files, which are the
    files loaded. *)
Definition load_spec (objs : gmap string blob) (files : list string)
    (tr : list event) (dfs : list dataframe) (processed_files : list string) : Prop :=
  Forall (λ e, (∃ f o, e = Store (FGetObject f) o ∧ f ∈ files) ∨ ∃ l m, e = Log l m) tr ∧
  Forall2 (λ f df, objs !! f = Some (Parquet df) ∧ df ≠ []) processed_files dfs ∧
  (∀ f, f ∈ processed_files ↔ loaded objs tr f).

(** What the deleting loop leaves: one delete request per processed file
    and log lines; the bucket loses the files whose delete returned. *)
Definition remove_spec (objs0 : gmap string blob) (processed_files : list string)
    (tr : list event) (objs : gmap string blob) : Prop :=
  Forall (λ e, (∃ f o, e = Store (RemoveObject f) o ∧ f ∈ processed_files) ∨
               ∃ l m, e = Log l m) tr ∧
  (∀ f, f ∈ processed_files → ∃ o, Store (RemoveObject f) o ∈ tr) ∧
  (∀ name, objs !! name =
           if decide (Store (RemoveObject name) None ∈ tr) then None else objs0 !! name).

(** How the read of the existing daily artifact can end for the cycle to go
    on: it returned a parquet file, or it raised [NoSuchKey]. *)
Inductive daily_read (objs : gmap string blob) (daily : string)
  : option exn → option dataframe → Prop :=
| daily_found existing_df :
    objs !! daily = Some (Parquet existing_df) →
    daily_read objs daily None (Some existing_df)
| daily_not_found :
    daily_read objs daily (Some (S3Error "NoSuchKey")) None.

(** The cycle once minute frames are loaded: result, bucket and events. *)
Inductive merge_tail (objs : gmap string blob) (daily : string)
    (dfs : list dataframe) (processed_files : list string)
  : result unit → gmap string blob → list event → Prop :=
| tail_nothing_loaded :
    dfs = [] →
    merge_tail objs daily dfs processed_files (Ok tt) objs []
| tail_daily_s3_error code :
    code ≠ "NoSuchKey" →
    merge_tail objs daily dfs processed_files (Ok tt) objs
      [ Store (FGetObject daily) (Some (S3Error code));
        Log ERROR "Error accessing daily file" ]
| tail_daily_raised e :
    (∀ code, e ≠ S3Error code) →
    merge_tail objs daily dfs processed_files (Raise e) objs
      [ Store (FGetObject daily) (Some e) ]
| tail_daily_unparsable :
    objs !! daily = Some Garbage →
    merge_tail objs daily dfs processed_files (Raise ParquetError) objs
      [ Store (FGetObject daily) None ]
| tail_put_raised o existing_df e :
    dfs ≠ [] → daily_read objs daily o existing_df →
    merge_tail objs daily dfs processed_files (Raise e) objs
      [ Store (FGetObject daily) o;
        Store (FPutObject daily (merge_records existing_df dfs)) (Some e) ]
| tail_put_returned o existing_df tr_rm objs' :
    dfs ≠ [] → daily_read objs daily o existing_df →
    remove_spec (<[daily := Parquet (merge_records existing_df dfs)]> objs)
      processed_files tr_rm objs' →
    merge_tail objs daily dfs processed_files (Ok tt) objs'
      ([ Store (FGetObject daily) o;
         Store (FPutObject daily (merge_records existing_df dfs)) None;
         Log INFO "Merged records into daily file" ] ++ tr_rm).

(** The whole cycle. *)
Inductive merge_run (objs : gmap string blob) (minute_str date_str : string)
  : result unit → gmap string blob → list event → Prop :=
| run_listing_raised e :
    merge_run objs minute_str date_str (Ok tt) objs
      [ Store (ListObjects "realtime/") (Some e); Log ERROR "Failed to list objects" ]
| run_no_target_files :
    target_files minute_str objs = [] →
    merge_run objs minute_str date_str (Ok tt) objs
      [ Store (ListObjects "realtime/") None; Log DEBUG "No KST files to merge" ]
| run_merge tr_load dfs processed_files r objs' tr_tail :
    load_spec objs (target_files minute_str objs) tr_load dfs processed_files →
    merge_tail objs (daily_file date_str) dfs processed_files r objs' tr_tail →
    merge_run objs minute_str date_str r objs'
      ([ Store (ListObjects "realtime/") None; Log INFO "Merging KST files" ]
       ++ tr_load ++ tr_tail).

(** *** Reading the outcome of a week *)

(** [expected_count] after the pre-flight query: 0 when the query raised. *)
Definition expected_count_of (we : week_env) : Z :=
  match count_query we with Ok n => n | Raise _ => 0%Z end.

(** The success criterion on the cumulative number of documents fetched:
    the ratio to a positive expected count is at least 0.8, or the expected
    count is not known (not positive) and something was fetched. *)
Definition criterion_met (fetched : nat) (expected_count : Z) : bool :=
  if (0 <? expected_count)%Z
  then Qle_bool (8 # 10) (fetch_ratio fetched expected_count)
  else (0 <? fetched)%nat.

(** The documents the fetcher returns at an attempt; none when it raises. *)
Definition fetched_by_attempt (self : pipeline) (we : week_env) (attempt : nat)
  : list doc :=
  match (fetch_elasticsearch_data_paginated (attempt_es we attempt)
           (keep_fields self) default_max_retries).2 with
  | Ok docs => docs
  | Raise _ => []
  end.

(** The cumulative [all_docs] at the end of the attempts, before
    deduplication. *)
Definition fetched_docs (self : pipeline) (we : week_env) : list doc :=
  (fetch_attempts self we (expected_count_of we) max_attempts 0 max_attempts
     [] None).2.1.1.

(** A call to the object store. *)
Definition is_store (e : event) : bool :=
  match e with Store _ _ => true | _ => false end.

(** [process_and_save_week_data] returned [True]: the weekly artifact was
    written. *)
Definition week_saved (object_name : string) (tr : list event) : Prop :=
  ∃ df, Store (FPutObject object_name df) None ∈ tr.

(** *** Sample worlds *)

Definition no_faults : nat → option exn := λ _, None.

(** The [n]-th call to the object store raises [e]. *)
Definition fault_at (n : nat) (e : exn) : nat → option exn :=
  λ i, if (i =? n)%nat then Some e else None.

Definition world_of (objs : gmap string blob) (faults : nat → option exn) : world :=
  {| objects := objs;
     store_faults := faults;
     store_calls := 0;
     streaming_checkpoint := NoFile;
     batch_checkpoint_file := None |}.

Definition sample_minute_file : string := "realtime/rt_20250601_0901_kst.parquet".

Definition sample_minute_row : row :=
  [ ("TEMPERATURE", VNum 216); ("@timestamp", VStr "2025-06-01 09:01:10.000") ].

(** One minute artifact with one record, and no daily artifact yet. *)
Definition bucket_minute : gmap string blob :=
  {[ sample_minute_file := Parquet [sample_minute_row] ]}.

(** The same, with a daily artifact that is not a parquet file. *)
Definition bucket_bad_daily : gmap string blob :=
  {[ sample_minute_file := Parquet [sample_minute_row];
     "/daily/daily_20250601_kst.parquet" := Garbage ]}.

Definition sample_pipeline : pipeline :=
  {| keep_fields := ["TEMPERATURE"];
     process_dataframe_timestamps := id;
     week_filter := λ _ df, Ok df |}.

Definition sample_hit : doc :=
  [ ("@timestamp", VStr "2025-06-01T00:00:01Z"); ("TEMPERATURE", VNum 215) ].

(** A week whose count query fails and whose fetch returns one document. *)
Definition sample_week_env : week_env :=
  {| count_query := Raise RequestException;
     attempt_es := λ _ _, Ok {| hits := [sample_hit]; pages := [] |} |}.

Definition sample_week_file : string :=
  "2025-06/week_01_20250601_20250607_kst.parquet".

Definition sample_now : string := "2025-07-01T00:00:00".

Definition ck_empty : batch_checkpoint :=
  {| completed_weeks := ∅; failed_weeks := ∅; partial_weeks := ∅ |}.

Definition ck_week_1 : batch_checkpoint :=
  {| completed_weeks := {[ 1%Z ]};
     failed_weeks := delete 1%Z ∅;
     partial_weeks := delete 1%Z ∅ |}.

(** Ascending by [@timestamp]. *)
Definition ts_le (r1 r2 : row) : Prop := str_le (row_ts r1) (row_ts r2).

(** *** Facts about [drop_duplicates] and [sort_values] *)

Lemma elem_of_drop_duplicates_from (df : dataframe) :
  ∀ seen r, r ∈ drop_duplicates_from seen df ↔ r ∈ df ∧ r ∉ seen.
Proof.
  induction df as [|x rest IH]; intros seen r; simpl.
  - rewrite elem_of_nil. tauto.
  - destruct (decide (x ∈ seen)) as [Hx|Hx].
    + rewrite IH, elem_of_cons. split; [tauto|].
      intros [[->|?] ?]; tauto.
    + rewrite !elem_of_cons, IH, elem_of_cons.
      destruct (decide (r = x)) as [->|Hne]; tauto.
Qed.

Lemma NoDup_drop_duplicates_from (df : dataframe) :
  ∀ seen, NoDup (drop_duplicates_from seen df).
Proof.
  induction df as [|x rest IH]; intros seen; simpl; [constructor|].
  destruct (decide (x ∈ seen)); [apply IH|].
  constructor; [|apply IH].
  rewrite elem_of_drop_duplicates_from, elem_of_cons. tauto.
Qed.

Lemma elem_of_drop_duplicates (df : dataframe) (r : row) :
  r ∈ drop_duplicates df ↔ r ∈ df.
Proof.
  unfold drop_duplicates. rewrite elem_of_drop_duplicates_from, elem_of_nil. tauto.
Qed.

Lemma NoDup_drop_duplicates (df : dataframe) : NoDup (drop_duplicates df).
Proof. apply NoDup_drop_duplicates_from. Qed.

(** Rows already seen are all dropped. *)
Lemma drop_duplicates_from_seen (df : dataframe) :
  ∀ seen, (∀ r, r ∈ df → r ∈ seen) → drop_duplicates_from seen df = [].
Proof.
  induction df as [|x rest IH]; intros seen Hsub; simpl; [done|].
  rewrite decide_True by (apply Hsub; left).
  apply IH. intros r Hr. apply Hsub. by right.
Qed.

(** A frame without duplicates, followed by rows it already has, is kept as
    it is. *)
Lemma drop_duplicates_from_app (df1 : dataframe) :
  ∀ seen df2,
    NoDup df1 → (∀ r, r ∈ df1 → r ∉ seen) → (∀ r, r ∈ df2 → r ∈ df1 ∨ r ∈ seen) →
    drop_duplicates_from seen (df1 ++ df2) = df1.
Proof.
  induction df1 as [|x rest IH]; intros seen df2 Hnd Hfresh Hsub; simpl.
  - apply drop_duplicates_from_seen. intros r Hr.
    destruct (Hsub r Hr) as [H|H]; [by apply elem_of_nil in H|done].
  - apply NoDup_cons in Hnd as [Hx Hnd].
    rewrite decide_False by (apply Hfresh; left). f_equal.
    apply IH; [done| |].
    + intros r Hr [->|Hs]%elem_of_cons; [done|].
      eapply Hfresh; [|done]. by right.
    + intros r Hr. rewrite elem_of_cons.
      destruct (Hsub r Hr) as [[->|?]%elem_of_cons|?]; tauto.
Qed.

Lemma insert_row_Permutation (r : row) (df : dataframe) :
  insert_row r df ≡ₚ r :: df.
Proof.
  induction df as [|x rest IH]; simpl; [done|].
  destruct (String.leb (row_ts r) (row_ts x)); [done|].
  rewrite IH. apply perm_swap.
Qed.

Lemma sort_values_Permutation (df : dataframe) : sort_values df ≡ₚ df.
Proof.
  induction df as [|x rest IH]; simpl; [done|].
  by rewrite insert_row_Permutation, IH.
Qed.

Lemma insert_row_sorted (r : row) (df : dataframe) :
  StronglySorted ts_le df → StronglySorted ts_le (insert_row r df).
Proof.
  induction df as [|x rest IH]; simpl; intros Hs.
  - repeat constructor.
  - apply StronglySorted_inv in Hs as [Hrest Hall].
    destruct (String.leb (row_ts r) (row_ts x)) eqn:Hle.
    + constructor; [by constructor|]. constructor; [done|].
      eapply Forall_impl; [exact Hall|]. intros y Hy.
      by eapply str_le_trans.
    + constructor; [by apply IH|].
      rewrite insert_row_Permutation. constructor; [|done].
      unfold ts_le. destruct (String.leb_total (row_ts r) (row_ts x)); [congruence|done].
Qed.

Lemma sort_values_sorted (df : dataframe) : StronglySorted ts_le (sort_values df).
Proof.
  induction df as [|x rest IH]; simpl; [constructor|].
  by apply insert_row_sorted.
Qed.

(** Insertion leaves a sorted frame as it is. *)
Lemma sort_values_of_sorted (df : dataframe) :
  StronglySorted ts_le df → sort_values df = df.
Proof.
  induction df as [|x rest IH]; simpl; [done|].
  intros [Hrest Hall]%StronglySorted_inv. rewrite IH by done.
  destruct rest as [|y rest']; simpl; [done|].
  apply Forall_cons in Hall as [Hxy _]. unfold ts_le, str_le in Hxy.
  by rewrite Hxy.
Qed.

Lemma NoDup_sort_values (df : dataframe) : NoDup df → NoDup (sort_values df).
Proof. by rewrite sort_values_Permutation. Qed.

Lemma elem_of_sort_values (df : dataframe) (r : row) : r ∈ sort_values df ↔ r ∈ df.
Proof. by rewrite sort_values_Permutation. Qed.

Lemma merge_records_NoDup existing_df dfs : NoDup (merge_records existing_df dfs).
Proof.
  unfold merge_records.
  destruct existing_df; apply NoDup_sort_values, NoDup_drop_duplicates.
Qed.

Lemma merge_records_sorted existing_df dfs :
  StronglySorted ts_le (merge_records existing_df dfs).
Proof. unfold merge_records. destruct existing_df; apply sort_values_sorted. Qed.

(** The merged frame holds the rows of the old daily frame and of the minute
    frames, and no others. *)
Lemma elem_of_merge_records existing_df dfs (r : row) :
  r ∈ merge_records existing_df dfs ↔
  r ∈ default [] existing_df ∨ r ∈ pd_concat dfs.
Proof.
  unfold merge_records. destruct existing_df as [e|]; simpl.
  - rewrite elem_of_sort_values, elem_of_drop_duplicates. unfold pd_concat at 1.
    simpl. rewrite app_nil_r, elem_of_app, elem_of_sort_values,
      elem_of_drop_duplicates. done.
  - rewrite elem_of_sort_values, elem_of_drop_duplicates, elem_of_nil. tauto.
Qed.

Definition sample_row (ts : string) (temperature : Z) : row :=
  [ ("TEMPERATURE", VNum temperature); ("@timestamp", VStr ts) ].

Example merge_records_sample :
  merge_records
    (Some [ sample_row "2025-06-01 09:00:30.000" 215 ])
    [ [ sample_row "2025-06-01 09:01:10.000" 216; sample_row "2025-06-01 09:01:05.000" 214 ];
      [ sample_row "2025-06-01 09:01:10.000" 216 ] ] =
  [ sample_row "2025-06-01 09:00:30.000" 215;
    sample_row "2025-06-01 09:01:05.000" 214;
    sample_row "2025-06-01 09:01:10.000" 216 ].
Proof. vm_compute. reflexivity. Qed.


(** *** Facts about the window fetcher *)

Lemma sleeps_app (tr1 tr2 : list event) : sleeps (tr1 ++ tr2) = sleeps tr1 ++ sleeps tr2.
Proof. apply omap_app. Qed.

Lemma opens_app (tr1 tr2 : list event) : opens (tr1 ++ tr2) = opens tr1 ++ opens tr2.
Proof. apply omap_app. Qed.

Lemma sleeps_retry_prefix (attempt k : nat) :
  sleeps (retry_prefix attempt k) = wait_time <$> seq attempt k.
Proof.
  revert attempt. induction k as [|k IH]; intros attempt; [done|].
  unfold retry_prefix in *. simpl. f_equal. apply IH.
Qed.

Lemma opens_retry_prefix (attempt k : nat) :
  opens (retry_prefix attempt k) = seq attempt k.
Proof.
  revert attempt. induction k as [|k IH]; intros attempt; [done|].
  unfold retry_prefix in *. simpl. f_equal. apply IH.
Qed.

(** The continuation loop neither sleeps nor reopens the scroll. *)
Lemma scroll_pages_quiet keep_fields (pages : list (result (list doc))) :
  ∀ all_docs,
    sleeps (scroll_pages keep_fields pages all_docs).1 = [] ∧
    opens (scroll_pages keep_fields pages all_docs).1 = [].
Proof.
  induction pages as [|page rest IH]; intros all_docs; simpl; [done|].
  destruct page as [[|h scroll_hits]|e]; simpl; [done| |by destruct e].
  specialize (IH (all_docs ++ (project keep_fields <$> h :: scroll_hits))).
  destruct (scroll_pages keep_fields rest _) as [tr r]. done.
Qed.

(** A continuation request that raises [RequestException] ends the fetch
    with the documents of the pages read before it. *)
Lemma scroll_pages_cut keep_fields (pre : list (list doc)) :
  ∀ post all_docs,
    Forall (λ page, page ≠ []) pre →
    (scroll_pages keep_fields ((Ok <$> pre) ++ Raise RequestException :: post)
       all_docs).2 =
    Ok (all_docs ++ (project keep_fields <$> concat pre)).
Proof.
  induction pre as [|page pre IH]; intros post all_docs Hne; simpl.
  - by rewrite app_nil_r.
  - apply Forall_cons in Hne as [Hpage Hne].
    destruct page as [|h page]; [done|].
    specialize (IH post (all_docs ++ (project keep_fields <$> h :: page)) Hne).
    destruct (scroll_pages keep_fields _ _) as [tr r]. simpl in *.
    rewrite IH. by rewrite fmap_app, <-app_assoc.
Qed.

(** Read to the end, the scroll gives the documents of every page. *)
Lemma scroll_pages_all keep_fields (pre : list (list doc)) :
  ∀ all_docs,
    Forall (λ page, page ≠ []) pre →
    (scroll_pages keep_fields (Ok <$> pre) all_docs).2 =
    Ok (all_docs ++ (project keep_fields <$> concat pre)).
Proof.
  induction pre as [|page pre IH]; intros all_docs Hne; simpl.
  - by rewrite app_nil_r.
  - apply Forall_cons in Hne as [Hpage Hne].
    destruct page as [|h page]; [done|].
    specialize (IH (all_docs ++ (project keep_fields <$> h :: page)) Hne).
    destruct (scroll_pages keep_fields _ _) as [tr r]. simpl in *.
    rewrite IH. by rewrite fmap_app, <-app_assoc.
Qed.

(** [k] opening requests in a row that raise [RequestException], short of
    the last attempt, are each followed by a wait of [wait_time] and by the
    next attempt. *)
Lemma open_scroll_retries (es : es_env) keep_fields (max_retries k : nat) :
  ∀ attempt remaining all_docs,
    (∀ i, attempt ≤ i < attempt + k → es i = Raise RequestException) →
    attempt + k < max_retries → k < remaining →
    open_scroll es keep_fields max_retries attempt remaining all_docs =
    (retry_prefix attempt k ++
       (open_scroll es keep_fields max_retries (attempt + k) (remaining - k) all_docs).1,
     (open_scroll es keep_fields max_retries (attempt + k) (remaining - k) all_docs).2).
Proof.
  induction k as [|k IH]; intros attempt remaining all_docs Hfail Hmax Hrem.
  - rewrite Nat.add_0_r, Nat.sub_0_r. simpl.
    by destruct (open_scroll _ _ _ _ _ _).
  - destruct remaining as [|remaining]; [lia|]. simpl.
    rewrite (Hfail attempt) by lia.
    destruct (Nat.eqb_spec attempt (max_retries - 1)) as [?|_]; [lia|].
    rewrite (IH (S attempt) remaining all_docs) by (try lia; intros i Hi; apply Hfail; lia).
    replace (S attempt + k) with (attempt + S k) by lia. done.
Qed.

(** The last attempt of the loop, when its opening request does not raise
    [RequestException]: one opening request, no wait. *)
Lemma open_scroll_answered (es : es_env) keep_fields (max_retries k remaining : nat)
    (all_docs : list doc) :
  es k ≠ Raise RequestException →
  sleeps (open_scroll es keep_fields max_retries k (S remaining) all_docs).1 = [] ∧
  opens (open_scroll es keep_fields max_retries k (S remaining) all_docs).1 = [k].
Proof.
  intros Hk. simpl. destruct (es k) as [sc|e].
  - destruct (hits sc) as [|h first_hits]; [done|].
    pose proof (scroll_pages_quiet keep_fields (pages sc)
                  (all_docs ++ (project keep_fields <$> h :: first_hits))) as [Hs Ho].
    destruct (scroll_pages keep_fields _ _) as [tr r]. simpl in *.
    by rewrite Hs, Ho.
  - destruct e; done.
Qed.

Definition sample_source (ts : string) : doc :=
  [ ("@timestamp", VStr ts); ("TEMPERATURE", VNum 215); ("voltage", VNum 3) ].

(** A search index whose second continuation request fails. *)
Definition es_cut : es_env := λ _,
  Ok {| hits := [sample_source "2025-06-01T00:00:01Z"];
        pages := [ Ok [sample_source "2025-06-01T00:00:02Z"];
                   Raise RequestException;
                   Ok [sample_source "2025-06-01T00:00:03Z"] ] |}.

(** A search index that is unreachable. *)
Definition es_down : es_env := λ _, Raise RequestException.

Example fetch_es_down :
  fetch_elasticsearch_data_paginated es_down ["TEMPERATURE"] 5 =
  ( [ Search (OpenScroll 0) (Some RequestException);
      Log WARNING "Scroll attempt failed, retrying"; Sleep 1;
      Search (OpenScroll 1) (Some RequestException);
      Log WARNING "Scroll attempt failed, retrying"; Sleep 2;
      Search (OpenScroll 2) (Some RequestException);
      Log WARNING "Scroll attempt failed, retrying"; Sleep 4;
      Search (OpenScroll 3) (Some RequestException);
      Log WARNING "Scroll attempt failed, retrying"; Sleep 8;
      Search (OpenScroll 4) (Some RequestException);
      Log ERROR "All scroll attempts failed" ],
    Ok [] ).
Proof. reflexivity. Qed.

(** C8, as stated, fails: a continuation request of the scroll raises
    [RequestException]; the fetcher makes no further request and waits for
    nothing, and returns the two documents read so far. *)
Lemma scroll_failure_not_retried :
  fetch_elasticsearch_data_paginated es_cut ["TEMPERATURE"] 5 =
  ( [ Search (OpenScroll 0) None; Log INFO "Started scroll";
      Search NextPage None; Log INFO "Fetched batch";
      Search NextPage (Some RequestException);
      Log ERROR "Scroll request failed" ],
    Ok [ [ ("TEMPERATURE", VNum 215); ("@timestamp", VStr "2025-06-01T00:00:01Z") ];
         [ ("TEMPERATURE", VNum 215); ("@timestamp", VStr "2025-06-01T00:00:02Z") ] ] ) ∧
  sleeps (fetch_elasticsearch_data_paginated es_cut ["TEMPERATURE"] 5).1 = [] ∧
  opens (fetch_elasticsearch_data_paginated es_cut ["TEMPERATURE"] 5).1 = [0].
Proof. done. Qed.

(** C8 (amended) — Retry and partial results of the window fetcher.
    (1) While the opening request of the scroll raises [RequestException]
    and attempts remain, the fetcher waits [min(2^attempt, 10)] seconds and
    opens again: if the first [k] attempts fail so and attempt [k] is
    answered otherwise, the waits are those of attempts [0..k-1] and there
    are [k+1] opening requests.
    (2) If all [max_retries] opening requests raise [RequestException], the
    fetcher has waited after each but the last and returns the empty list,
    without raising.
    (3) A continuation request that raises [RequestException] is not
    retried: the fetcher returns the documents of the opening answer and of
    the pages read before the failure.
    (4) Every wait is between 1 and 10 seconds. *)
Theorem fetch_retry_policy (es : es_env) (keep_fields : list string)
    (max_retries : nat) :
  let out := fetch_elasticsearch_data_paginated es keep_fields max_retries in
  (∀ k, k < max_retries →
        (∀ i, i < k → es i = Raise RequestException) →
        es k ≠ Raise RequestException →
        sleeps out.1 = wait_time <$> seq 0 k ∧ opens out.1 = seq 0 (S k)) ∧
  ((∀ i, i < max_retries → es i = Raise RequestException) →
        out.2 = Ok [] ∧
        sleeps out.1 = wait_time <$> seq 0 (max_retries - 1) ∧
        opens out.1 = seq 0 max_retries) ∧
  (∀ k sc pre post,
        k < max_retries →
        (∀ i, i < k → es i = Raise RequestException) →
        es k = Ok sc → hits sc ≠ [] →
        pages sc = (Ok <$> pre) ++ Raise RequestException :: post →
        Forall (λ page, page ≠ []) pre →
        out.2 = Ok (project keep_fields <$> (hits sc ++ concat pre))) ∧
  (∀ attempt, (1 ≤ wait_time attempt ≤ 10)%Z).
Proof.
  intros out. unfold out, fetch_elasticsearch_data_paginated.
  split; [|split; [|split]].
  - intros k Hk Hfail Hans.
    rewrite (open_scroll_retries es keep_fields max_retries k 0 max_retries [])
      by (try lia; intros i Hi; apply Hfail; lia).
    simpl. destruct (max_retries - k) as [|remaining] eqn:Hrem; [lia|].
    destruct (open_scroll_answered es keep_fields max_retries k remaining [] Hans)
      as [Hs Ho].
    rewrite sleeps_app, opens_app, Hs, Ho, sleeps_retry_prefix, opens_retry_prefix.
    rewrite app_nil_r. split; [done|]. symmetry. apply (seq_S k 0).
  - intros Hfail. destruct max_retries as [|m]; [done|].
    rewrite (open_scroll_retries es keep_fields (S m) m 0 (S m) [])
      by (try lia; intros i Hi; apply Hfail; lia).
    replace (S m - m) with 1 by lia. simpl.
    rewrite (Hfail m) by lia. rewrite Nat.sub_0_r, Nat.eqb_refl. simpl.
    rewrite sleeps_app, opens_app, sleeps_retry_prefix, opens_retry_prefix.
    simpl. rewrite app_nil_r. split; [done|]. split; [done|].
    symmetry. apply (seq_S m 0).
  - intros k sc pre post Hk Hfail Hsc Hhits Hpages Hpre.
    rewrite (open_scroll_retries es keep_fields max_retries k 0 max_retries [])
      by (try lia; intros i Hi; apply Hfail; lia).
    simpl. destruct (max_retries - k) as [|remaining] eqn:Hrem; [lia|].
    simpl. rewrite Hsc. destruct (hits sc) as [|h first_hits] eqn:Hh; [done|].
    pose proof (scroll_pages_cut keep_fields pre post
                  (project keep_fields <$> h :: first_hits) Hpre) as Hcut.
    rewrite <-Hpages in Hcut.
    destruct (scroll_pages keep_fields _ _) as [tr r]. simpl in *.
    rewrite Hcut. by rewrite fmap_app.
  - intros attempt. unfold wait_time.
    assert (1 ≤ 2 ^ Z.of_nat attempt)%Z.
    { apply (Z.pow_le_mono_r 2 0 (Z.of_nat attempt)); lia. }
    lia.
Qed.

(** *** Facts about the merge cycle *)

Lemma load_minute_file_run (f : string) (w : world) :
  ∃ r o logs,
    load_minute_file f w =
      (Ok r, after_call w (objects w), Store (FGetObject f) o :: logs) ∧
    Forall is_log logs ∧
    (∀ df, r = Some df ↔ o = None ∧ objects w !! f = Some (Parquet df) ∧ df ≠ []).
Proof.
  unfold load_minute_file, try_except, mbind, M_bind, fget_object, store_call.
  destruct (store_faults w (store_calls w)) as [e|]; simpl.
  { exists None, (Some e), [Log ERROR "Failed to process"].
    split; [done|]. split; [repeat constructor; by eexists _, _|].
    intros df. split; [done|]. by intros [? _]. }
  destruct (objects w !! f) as [[df|]|] eqn:Hf; simpl.
  - destruct df as [|r0 df]; simpl.
    + exists None, None, []. split; [done|]. split; [constructor|].
      intros df. split; [done|]. intros (_ & [= <-] & ?). done.
    + exists (Some (r0 :: df)), None, []. split; [done|]. split; [constructor|].
      intros df'. split.
      * intros [= <-]. done.
      * intros (_ & [= <-] & _). done.
  - exists None, None, [Log ERROR "Failed to process"].
    split; [done|]. split; [repeat constructor; by eexists _, _|].
    intros df. split; [done|]. by intros (_ & ? & _).
  - exists None, (Some (S3Error "NoSuchKey")), [Log ERROR "Failed to process"].
    split; [done|]. split; [repeat constructor; by eexists _, _|].
    intros df. split; [done|]. by intros [? _].
Qed.

Lemma load_minute_files_spec (files : list string) :
  ∀ w, ∃ dfs processed_files w' tr,
    load_minute_files files w = (Ok (dfs, processed_files), w', tr) ∧
    objects w' = objects w ∧
    load_spec (objects w) files tr dfs processed_files.
Proof.
  induction files as [|f rest IH]; intros w.
  { exists [], [], w, []. split; [done|]. split; [done|].
    split; [constructor|]. split; [constructor|].
    intros f. split; [by intros ?%elem_of_nil|].
    intros [H _]. by apply elem_of_nil in H. }
  cbn [load_minute_files]. unfold mbind, M_bind.
  destruct (load_minute_file_run f w) as (r & o & logs & -> & Hlogs & Hr).
  destruct (IH (after_call w (objects w))) as (dfs & processed & w' & tr & -> & Hobjs & Hspec).
  simpl in Hobjs, Hspec. destruct Hspec as (Hev & Hdfs & Hproc).
  assert (Forall (λ e, (∃ f0 o0, e = Store (FGetObject f0) o0 ∧ f0 ∈ f :: rest) ∨
                       ∃ l m, e = Log l m)
            ((Store (FGetObject f) o :: logs) ++ tr ++ [])) as Hev'.
  { rewrite app_nil_r. apply Forall_app. split.
    - constructor.
      + left. eexists _, _. split; [done|]. left.
      + eapply Forall_impl; [exact Hlogs|]. intros e He. by right.
    - eapply Forall_impl; [exact Hev|]. intros e [(f0 & o0 & -> & Hin)|He]; [|by right].
      left. eexists _, _. split; [done|]. by right. }
  assert (∀ f0, loaded (objects w) ((Store (FGetObject f) o :: logs) ++ tr ++ []) f0 ↔
                (f0 = f ∧ o = None ∧ ∃ df, objects w !! f = Some (Parquet df) ∧ df ≠ []) ∨
                loaded (objects w) tr f0) as Hloaded.
  { intros f0. unfold loaded. rewrite app_nil_r, elem_of_app, elem_of_cons. split.
    - intros [[[Heq|Hin]|Hin] Hdf].
      + injection Heq as -> <-. left. done.
      + rewrite Forall_forall in Hlogs. destruct (Hlogs _ Hin) as (l & m & ?). done.
      + right. done.
    - intros [(-> & -> & Hdf)|[Hin Hdf]]; (split; [|done]).
      + left. by left.
      + by right. }
  destruct r as [df|].
  - destruct (proj1 (Hr df) eq_refl) as (-> & Hf & Hne).
    exists (df :: dfs), (f :: processed), w', ((Store (FGetObject f) None :: logs) ++ tr ++ []).
    split; [done|]. split; [done|]. split; [done|]. split; [by constructor|].
    intros f0. rewrite Hloaded, elem_of_cons, Hproc. split.
    + intros [->|?]; [left; eauto|by right].
    + intros [(? & _)|?]; [by left|by right].
  - exists dfs, processed, w', ((Store (FGetObject f) o :: logs) ++ tr ++ []).
    split; [done|]. split; [done|]. split; [done|]. split; [done|].
    intros f0. rewrite Hloaded, Hproc. split; [by right|].
    intros [(-> & -> & df & Hf & Hne)|?]; [|done].
    by specialize (proj2 (Hr df) (conj eq_refl (conj Hf Hne))).
Qed.

Lemma remove_processed_file_run (f : string) (w : world) :
  ∃ o objs l,
    remove_processed_file f w = (Ok tt, after_call w objs, [Store (RemoveObject f) o; l]) ∧
    is_log l ∧
    objs = (if decide (o = None) then delete f (objects w) else objects w).
Proof.
  unfold remove_processed_file, try_except, mbind, M_bind, remove_object, store_call.
  destruct (store_faults w (store_calls w)) as [e|]; simpl.
  - exists (Some e), (objects w), (Log WARNING "Failed to remove").
    split; [done|]. split; [by eexists _, _|done].
  - exists None, (delete f (objects w)), (Log DEBUG "Removed merged KST file").
    split; [done|]. split; [by eexists _, _|done].
Qed.

Lemma remove_processed_files_spec (files : list string) :
  ∀ w, ∃ w' tr,
    remove_processed_files files w = (Ok tt, w', tr) ∧
    remove_spec (objects w) files tr (objects w').
Proof.
  induction files as [|f rest IH]; intros w.
  { exists w, []. split; [done|]. split; [constructor|]. split.
    - intros f Hf. by apply elem_of_nil in Hf.
    - intros name. rewrite decide_False; [done|]. by intros ?%elem_of_nil. }
  cbn [remove_processed_files]. unfold mbind, M_bind.
  destruct (remove_processed_file_run f w) as (o & objs & l & -> & (lv & msg & ->) & Hobjs).
  destruct (IH (after_call w objs)) as (w' & tr & -> & Hev & Hall & Hlook).
  simpl in Hlook, Hev, Hall.
  exists w', ([Store (RemoveObject f) o; Log lv msg] ++ tr). split; [done|].
  split; [|split].
  - apply Forall_app. split.
    + constructor; [left; eexists _, _; split; [done|left]|].
      constructor; [right; by eexists _, _|constructor].
    + eapply Forall_impl; [exact Hev|]. intros e [(f0 & o0 & -> & Hin)|He]; [|by right].
      left. eexists _, _. split; [done|]. by right.
  - intros f0 [->|Hin]%elem_of_cons.
    + exists o. left.
    + destruct (Hall f0 Hin) as [o0 Ho0]. exists o0. simpl. by do 2 right.
  - intros name. rewrite Hlook. simpl.
    destruct (decide (Store (RemoveObject name) None ∈ tr)) as [Hin|Hnin].
    + rewrite decide_True; [done|]. by do 2 right.
    + subst objs. destruct (decide (o = None)) as [->|Ho].
      * destruct (decide (name = f)) as [->|Hne].
        -- rewrite lookup_delete_eq. rewrite decide_True; [done|left].
        -- rewrite lookup_delete_ne by done. rewrite decide_False; [done|].
           intros [[=]|[[=]|?]%elem_of_cons]%elem_of_cons; done.
      * rewrite decide_False; [done|].
        intros [[=]|[[=]|?]%elem_of_cons]%elem_of_cons; done.
Qed.

(** The read of the daily file. *)
Lemma read_daily_file_run (daily : string) (merged_df : dataframe) (w : world) :
  let out := read_daily_file daily merged_df w in
  out.1.2 = after_call w (objects w) ∧
  ((∃ o existing_df,
      daily_read (objects w) daily o existing_df ∧
      out.1.1 = Ok (Some (match existing_df with
                          | Some existing_df =>
                              sort_values (drop_duplicates (pd_concat [existing_df; merged_df]))
                          | None => merged_df
                          end)) ∧
      out.2 = [Store (FGetObject daily) o]) ∨
   (∃ code, code ≠ "NoSuchKey" ∧ out.1.1 = Ok None ∧
            out.2 = [Store (FGetObject daily) (Some (S3Error code));
                     Log ERROR "Error accessing daily file"]) ∨
   (∃ e, (∀ code, e ≠ S3Error code) ∧ out.1.1 = Raise e ∧
         out.2 = [Store (FGetObject daily) (Some e)]) ∨
   (objects w !! daily = Some Garbage ∧ out.1.1 = Raise ParquetError ∧
    out.2 = [Store (FGetObject daily) None])).
Proof.
  unfold read_daily_file, try_except, mbind, M_bind, fget_object, store_call.
  destruct (store_faults w (store_calls w)) as [e|]; simpl.
  { destruct e as [| | | |code| |]; simpl;
      try (split; [done|]; right; right; left; eexists; split; [|done]; done).
    destruct (String.eqb_spec code "NoSuchKey") as [->|Hne]; simpl.
    - split; [done|]. left. exists (Some (S3Error "NoSuchKey")), None.
      split; [constructor|done].
    - split; [done|]. right; left. by exists code. }
  destruct (objects w !! daily) as [[df|]|] eqn:Hd; simpl.
  - split; [done|]. left. exists None, (Some df). split; [by constructor|done].
  - split; [done|]. by do 3 right.
  - split; [done|]. left. exists (Some (S3Error "NoSuchKey")), None.
    split; [constructor|done].
Qed.

Lemma fput_object_run (name : string) (df : dataframe) (w : world) :
  fput_object name df w =
  match store_faults w (store_calls w) with
  | Some e => (Raise e, after_call w (objects w), [Store (FPutObject name df) (Some e)])
  | None => (Ok tt, after_call w (<[name := Parquet df]> (objects w)),
             [Store (FPutObject name df) None])
  end.
Proof. unfold fput_object, store_call. by destruct (store_faults w (store_calls w)). Qed.

Lemma merge_loaded_frames_run (date_str : string) (dfs : list dataframe)
    (processed_files : list string) (w : world) :
  let out := merge_loaded_frames date_str dfs processed_files w in
  merge_tail (objects w) (daily_file date_str) dfs processed_files
    out.1.1 (objects out.1.2) out.2.
Proof.
  unfold merge_loaded_frames. destruct dfs as [|df0 dfs']; [by constructor|].
  set (dfs := df0 :: dfs'). set (daily := daily_file date_str).
  unfold mbind, M_bind.
  pose proof (read_daily_file_run daily (sort_values (drop_duplicates (pd_concat dfs))) w) as Hd.
  destruct (read_daily_file daily _ w) as [[r w1] tr1]. simpl in Hd.
  destruct Hd as [-> Hd].
  destruct Hd as [(o & existing & Hread & Hr & ->)|[(code & Hcode & -> & ->)|
                  [(e & He & -> & ->)|(Hg & -> & ->)]]]; cbn [fst snd].
  - assert (r = Ok (Some (merge_records existing dfs))) as ->.
    { rewrite Hr. by destruct existing. }
    clear Hr. rewrite fput_object_run. cbn [fst snd after_call store_faults store_calls objects].
    destruct (store_faults w (S (store_calls w))) as [e|]; cbn [fst snd].
    + by apply tail_put_raised.
    + destruct (remove_processed_files_spec processed_files
                  (after_call (after_call w (objects w))
                     (<[daily := Parquet (merge_records existing dfs)]> (objects w))))
        as (w' & tr & Heq & Hrm).
      unfold log. cbn [fst snd]. rewrite Heq. cbn [fst snd].
      cbn [after_call objects] in Hrm.
      by apply (tail_put_returned _ _ _ _ o existing tr).
  - by apply tail_daily_s3_error.
  - by apply tail_daily_raised.
  - by apply tail_daily_unparsable.
Qed.

Lemma list_target_files_run (minute_str : string) (w : world) :
  (∃ e, list_target_files minute_str w =
        (Ok None, after_call w (objects w),
         [Store (ListObjects "realtime/") (Some e); Log ERROR "Failed to list objects"])) ∨
  list_target_files minute_str w =
    (Ok (Some (target_files minute_str (objects w))), after_call w (objects w),
     [Store (ListObjects "realtime/") None]).
Proof.
  unfold list_target_files, try_except, mbind, M_bind, list_objects, store_call.
  destruct (store_faults w (store_calls w)) as [e|]; [left; by exists e|by right].
Qed.

Lemma merge_previous_minute_data_run (minute_str date_str : string) (w : world) :
  let out := merge_previous_minute_data minute_str date_str w in
  merge_run (objects w) minute_str date_str out.1.1 (objects out.1.2) out.2.
Proof.
  unfold merge_previous_minute_data, mbind, M_bind.
  destruct (list_target_files_run minute_str w) as [[e ->]| ->]; cbn [fst snd].
  { apply run_listing_raised. }
  destruct (target_files minute_str (objects w)) as [|f0 files'] eqn:Hfiles.
  { cbn. by apply run_no_target_files. }
  unfold log.
  destruct (load_minute_files_spec (f0 :: files') (after_call w (objects w)))
    as (dfs & processed & w1 & tr_load & -> & Hobjs & Hspec).
  cbn [after_call objects] in Hobjs, Hspec.
  pose proof (merge_loaded_frames_run date_str dfs processed w1) as Htail.
  destruct (merge_loaded_frames date_str dfs processed w1) as [[r w2] tr_tail].
  cbn [fst snd] in *. rewrite Hobjs in Htail. rewrite <-Hfiles in Hspec.
  apply (run_merge (objects w) minute_str date_str tr_load dfs processed r
           (objects w2) tr_tail Hspec Htail).
Qed.

Lemma elem_of_delete_requests (tr : list event) (name : string) :
  name ∈ delete_requests tr ↔ ∃ o, Store (RemoveObject name) o ∈ tr.
Proof.
  unfold delete_requests. rewrite list_elem_of_omap. split.
  - intros (e & He & Hs). destruct e as [[]| | |]; simplify_eq. eauto.
  - intros [o Ho]. by exists (Store (RemoveObject name) o).
Qed.

Lemma elem_of_deleted (tr : list event) (name : string) :
  name ∈ deleted tr ↔ Store (RemoveObject name) None ∈ tr.
Proof.
  unfold deleted. rewrite list_elem_of_omap. split.
  - intros (e & He & Hs). destruct e as [[] []| | |]; simplify_eq. done.
  - intros Ho. by exists (Store (RemoveObject name) None).
Qed.

Lemma delete_requests_app (tr1 tr2 : list event) :
  delete_requests (tr1 ++ tr2) = delete_requests tr1 ++ delete_requests tr2.
Proof. apply omap_app. Qed.

(** A trace without writes asks for no deletion. *)
Lemma delete_requests_no_write (tr : list event) :
  Forall (λ e, is_write e = false) tr → delete_requests tr = [].
Proof.
  induction 1 as [|e tr He _ IH]; [done|].
  destruct e as [[]| | |]; simpl in *; done.
Qed.

Lemma load_spec_no_write objs files tr dfs processed_files :
  load_spec objs files tr dfs processed_files → Forall (λ e, is_write e = false) tr.
Proof.
  intros (Hev & _). eapply Forall_impl; [exact Hev|].
  intros e [(f & o & -> & _)|(l & m & ->)]; done.
Qed.

(** In a trace that starts with calls that are not writes and goes on with
    a write of the daily file that returned, every delete request comes
    after that write. *)
Lemma guarded_after_put (daily : string) (df : dataframe) (tr0 rest : list event) :
  Forall (λ e, is_write e = false) tr0 →
  ∀ pre name o post,
    tr0 ++ Store (FPutObject daily df) None :: rest =
      pre ++ Store (RemoveObject name) o :: post →
    Store (FPutObject daily df) None ∈ pre.
Proof.
  induction 1 as [|e tr0 He _ IH]; intros pre name o post Heq.
  - destruct pre as [|e' pre]; simplify_eq/=. left.
  - destruct pre as [|e' pre]; simplify_eq/=; try done.
    right. by eapply IH.
Qed.

Lemma no_write_no_remove (tr : list event) :
  Forall (λ e, is_write e = false) tr →
  ∀ pre name o post, tr ≠ pre ++ Store (RemoveObject name) o :: post.
Proof.
  intros Hall pre name o post ->.
  apply Forall_app in Hall as [_ Hall]. by apply Forall_cons in Hall as [? _].
Qed.

(** The events of a cycle up to the write of the daily file. *)
Lemma merge_run_cases objs minute_str date_str r objs' tr :
  merge_run objs minute_str date_str r objs' tr →
  (Forall (λ e, is_write e = false) tr ∧ objs' = objs) ∨
  (∃ tr0 df e,
     Forall (λ e, is_write e = false) tr0 ∧
     tr = tr0 ++ [Store (FPutObject (daily_file date_str) df) (Some e)] ∧
     r = Raise e ∧ objs' = objs) ∨
  (∃ tr0 tr_load o existing_df tr_rm dfs processed_files,
     tr0 = [ Store (ListObjects "realtime/") None; Log INFO "Merging KST files" ]
           ++ tr_load ++ [ Store (FGetObject (daily_file date_str)) o ] ∧
     load_spec objs (target_files minute_str objs) tr_load dfs processed_files ∧
     dfs ≠ [] ∧
     daily_read objs (daily_file date_str) o existing_df ∧
     tr = tr0 ++ Store (FPutObject (daily_file date_str) (merge_records existing_df dfs)) None
              :: Log INFO "Merged records into daily file" :: tr_rm ∧
     r = Ok tt ∧
     remove_spec (<[daily_file date_str := Parquet (merge_records existing_df dfs)]> objs)
       processed_files tr_rm objs').
Proof.
  intros Hrun. destruct Hrun as [e|Hfiles|tr_load dfs processed r objs' tr_tail Hload Htail].
  - left. split; [|done]. repeat constructor.
  - left. split; [|done]. repeat constructor.
  - pose proof (load_spec_no_write _ _ _ _ _ Hload) as Hnw.
    destruct Htail as [Hdfs|code Hcode|e He|Hg|o existing e Hdfs Hread|
                       o existing tr_rm objs' Hdfs Hread Hrm].
    + left. split; [|done]. rewrite app_nil_r. by repeat constructor.
    + left. split; [|done]. repeat constructor.
      apply Forall_app. split; [done|]. by repeat constructor.
    + left. split; [|done]. repeat constructor.
      apply Forall_app. split; [done|]. by repeat constructor.
    + left. split; [|done]. repeat constructor.
      apply Forall_app. split; [done|]. by repeat constructor.
    + right; left.
      exists ([ Store (ListObjects "realtime/") None; Log INFO "Merging KST files" ]
                ++ tr_load ++ [ Store (FGetObject (daily_file date_str)) o ]),
        (merge_records existing dfs), e.
      split; [|split; [|done]].
      * repeat constructor. apply Forall_app. split; [done|]. by repeat constructor.
      * by rewrite <-!app_assoc.
    + right; right. eexists _, tr_load, o, existing, tr_rm, dfs, processed.
      split; [done|]. split; [done|]. split; [done|]. split; [done|].
      split; [|done]. by rewrite <-!app_assoc.
Qed.

Lemma target_files_not_daily minute_str date_str objs (name : string) :
  name ∈ target_files minute_str objs → name ≠ daily_file date_str.
Proof.
  unfold target_files. rewrite list_elem_of_In, filter_In.
  intros [[_ Hprefix]%filter_In _] ->. cbn in Hprefix. done.
Qed.

Lemma load_spec_processed objs files tr dfs processed_files (f : string) :
  load_spec objs files tr dfs processed_files →
  f ∈ processed_files → f ∈ files.
Proof.
  intros (Hev & _ & Hproc) [Hin _]%Hproc.
  rewrite Forall_forall in Hev.
  destruct (Hev _ Hin) as [(f' & o & [= <- _] & ?)|(l & m & ?)]; done.
Qed.

(** Solve or refute the membership of an event in a trace made of known
    events and of the traces of the loading and deleting loops. *)
Ltac trace_mem :=
  repeat match goal with
  | H : _ ∈ _ ++ _ |- _ => apply elem_of_app in H as [H|H]
  | H : _ ∈ _ :: _ |- _ => apply elem_of_cons in H as [H|H]
  | H : _ ∈ [] |- _ => by apply elem_of_nil in H
  | H : Store _ _ = Store _ _ |- _ => injection H as H; try subst
  | H : Store _ _ = Log _ _ |- _ => discriminate H
  | H : Log _ _ = Store _ _ |- _ => discriminate H
  | H : ?c = ?c' |- _ => (is_var c + is_var c'); first [subst c|subst c']
  | H : _ = _ |- _ => discriminate H
  end.

(** C4 — Delete only after a confirmed write.  In every run of the merge
    cycle, (1) each delete request for a minute artifact comes after a write
    of the daily artifact that returned; (2) if the write of the daily
    artifact raises, the cycle ends with that exception, asks for no
    deletion, and leaves the bucket as it was; (3) if no write of the daily
    artifact returned, whatever the reason, nothing is deleted. *)
Theorem delete_only_after_write (minute_str date_str : string) (w : world) :
  let out := merge_previous_minute_data minute_str date_str w in
  let daily := daily_file date_str in
  (∀ pre name o post,
     out.2 = pre ++ Store (RemoveObject name) o :: post →
     ∃ df, Store (FPutObject daily df) None ∈ pre) ∧
  (∀ name df e,
     Store (FPutObject name df) (Some e) ∈ out.2 →
     out.1.1 = Raise e ∧ delete_requests out.2 = [] ∧ objects out.1.2 = objects w) ∧
  ((∀ df, Store (FPutObject daily df) None ∉ out.2) →
     delete_requests out.2 = [] ∧ objects out.1.2 = objects w).
Proof.
  intros out daily.
  pose proof (merge_previous_minute_data_run minute_str date_str w) as Hrun.
  fold out in Hrun. apply merge_run_cases in Hrun.
  destruct Hrun as [[Hnw Hobjs]|[(tr0 & df & e & Hnw & Htr & Hr & Hobjs)|
    (tr0 & tr_load & o & existing & tr_rm & dfs & processed & Htr0 & Hload & Hdfs &
     Hread & Htr & Hr & Hrm)]].
  - split; [|split].
    + intros pre name o post Heq. by destruct (no_write_no_remove _ Hnw pre name o post).
    + intros name df e Hin. rewrite Forall_forall in Hnw. by specialize (Hnw _ Hin).
    + intros _. split; [by apply delete_requests_no_write|done].
  - assert (delete_requests out.2 = []) as Hdel.
    { rewrite Htr, delete_requests_app, delete_requests_no_write by done. done. }
    split; [|split].
    + intros pre name o post Heq.
      assert (name ∈ delete_requests out.2) as Hin.
      { apply elem_of_delete_requests. exists o. rewrite Heq.
        apply elem_of_app. right. left. }
      rewrite Hdel in Hin. by apply elem_of_nil in Hin.
    + intros name df' e' Hin. rewrite Htr in Hin.
      apply elem_of_app in Hin as [Hin|Hin].
      * rewrite Forall_forall in Hnw. by specialize (Hnw _ Hin).
      * apply list_elem_of_singleton in Hin. by simplify_eq.
    + done.
  - split; [|split].
    + intros pre name o' post Heq. rewrite Htr in Heq.
      eexists. eapply guarded_after_put; [|exact Heq].
      rewrite Htr0. pose proof (load_spec_no_write _ _ _ _ _ Hload).
      repeat constructor. apply Forall_app. split; [done|]. by repeat constructor.
    + intros name df e Hin. exfalso. rewrite Htr, Htr0 in Hin.
      destruct Hload as (Hev & _). destruct Hrm as (Hev' & _).
      rewrite Forall_forall in Hev, Hev'. trace_mem.
      * destruct (Hev _ Hin) as [(? & ? & ? & _)|(? & ? & ?)]; done.
      * destruct (Hev' _ Hin) as [(? & ? & ? & _)|(? & ? & ?)]; done.
    + intros Hno. exfalso. eapply Hno. rewrite Htr.
      apply elem_of_app. right. left.
Qed.

Lemma loaded_mono objs (tr tr' : list event) (name : string) :
  (∀ e, e ∈ tr → e ∈ tr') → loaded objs tr name → loaded objs tr' name.
Proof. intros Hsub [Hin Hdf]. split; [by apply Hsub|done]. Qed.

(** C10 (amended) — What a merge cycle deletes.  (1) In every cycle, a
    minute artifact whose deletion is requested is a target file that the
    cycle downloaded and parsed and that held at least one record: one whose
    download or parse raised, or that was empty, is never deleted.  (2) In a
    cycle whose write of the daily artifact returned, the deletion requests
    are exactly those files.  (3) A file is deleted when its delete call
    returned, and it is then gone from the bucket; (4) every other target
    file is still in the bucket as it was. *)
Theorem deleted_are_loaded (minute_str date_str : string) (w : world) :
  let out := merge_previous_minute_data minute_str date_str w in
  let daily := daily_file date_str in
  (∀ name, name ∈ delete_requests out.2 →
           name ∈ target_files minute_str (objects w) ∧
           loaded (objects w) out.2 name) ∧
  ((∃ df, Store (FPutObject daily df) None ∈ out.2) →
   ∀ name, name ∈ delete_requests out.2 ↔
           name ∈ target_files minute_str (objects w) ∧
           loaded (objects w) out.2 name) ∧
  (∀ name, name ∈ deleted out.2 →
           name ∈ delete_requests out.2 ∧ objects out.1.2 !! name = None) ∧
  (∀ name, name ∈ target_files minute_str (objects w) → name ∉ deleted out.2 →
           objects out.1.2 !! name = objects w !! name).
Proof.
  intros out daily.
  pose proof (merge_previous_minute_data_run minute_str date_str w) as Hrun.
  fold out in Hrun. apply merge_run_cases in Hrun.
  destruct Hrun as [[Hnw Hobjs]|[(tr0 & df & e & Hnw & Htr & Hr & Hobjs)|
    (tr0 & tr_load & o & existing & tr_rm & dfs & processed & Htr0 & Hload & Hdfs &
     Hread & Htr & Hr & Hrm)]].
  - assert (delete_requests out.2 = []) as Hdel by (by apply delete_requests_no_write).
    split; [|split; [|split]].
    + intros name Hin. rewrite Hdel in Hin. by apply elem_of_nil in Hin.
    + intros [df Hin]. rewrite Forall_forall in Hnw. by specialize (Hnw _ Hin).
    + intros name Hin%elem_of_deleted. rewrite Forall_forall in Hnw.
      by specialize (Hnw _ Hin).
    + intros name _ _. by rewrite Hobjs.
  - assert (delete_requests out.2 = []) as Hdel.
    { rewrite Htr, delete_requests_app, delete_requests_no_write by done. done. }
    split; [|split; [|split]].
    + intros name Hin. rewrite Hdel in Hin. by apply elem_of_nil in Hin.
    + intros [df' Hin]. rewrite Htr in Hin. apply elem_of_app in Hin as [Hin|Hin].
      * rewrite Forall_forall in Hnw. by specialize (Hnw _ Hin).
      * apply list_elem_of_singleton in Hin. by simplify_eq.
    + intros name Hin%elem_of_deleted. exfalso.
      assert (name ∈ delete_requests out.2) as Hin'
        by (apply elem_of_delete_requests; eauto).
      rewrite Hdel in Hin'. by apply elem_of_nil in Hin'.
    + intros name _ _. by rewrite Hobjs.
  - pose proof Hload as (Hev & Hdf & Hproc). pose proof Hrm as (Hev' & Hall & Hlook).
    rewrite Forall_forall in Hev, Hev'.
    assert (∀ name o', Store (RemoveObject name) o' ∈ out.2 →
                       Store (RemoveObject name) o' ∈ tr_rm ∧ name ∈ processed) as Hrem.
    { intros name o' Hin. rewrite Htr, Htr0 in Hin. trace_mem.
      - destruct (Hev _ Hin) as [(? & ? & ? & _)|(? & ? & ?)]; done.
      - split; [done|].
        destruct (Hev' _ Hin) as [(? & ? & ? & ?)|(? & ? & ?)]; by simplify_eq. }
    assert (∀ name, name ∈ processed →
                    name ∈ target_files minute_str (objects w) ∧
                    loaded (objects w) out.2 name) as Hproc_loaded.
    { intros name Hin. split; [by eapply load_spec_processed|].
      eapply loaded_mono; [|by apply Hproc].
      intros e' He'. rewrite Htr, Htr0. apply elem_of_app. left.
      do 2 right. apply elem_of_app. by left. }
    split; [|split; [|split]].
    + intros name [o' Hin]%elem_of_delete_requests.
      apply Hproc_loaded. by eapply Hrem.
    + intros _ name. split.
      * intros [o' Hin]%elem_of_delete_requests. apply Hproc_loaded. by eapply Hrem.
      * intros [Htarget [Hget Hdf']].
        assert (name ∈ processed) as Hin.
        { apply Hproc. split; [|done]. rewrite Htr, Htr0 in Hget. trace_mem.
          - done.
          - by destruct (target_files_not_daily minute_str date_str (objects w)
                           (daily_file date_str)).
          - destruct (Hev' _ Hget) as [(? & ? & ? & _)|(? & ? & ?)]; done. }
        destruct (Hall _ Hin) as [o' Ho']. apply elem_of_delete_requests.
        exists o'. rewrite Htr. apply elem_of_app. right. by do 2 right.
    + intros name Hin%elem_of_deleted. destruct (Hrem _ _ Hin) as [Hin' _]. split.
      * apply elem_of_delete_requests. eauto.
      * rewrite Hlook. by rewrite decide_True.
    + intros name Htarget Hnot. rewrite Hlook. rewrite decide_False.
      * rewrite lookup_insert_ne; [done|]. intros Heq.
        by destruct (target_files_not_daily minute_str date_str (objects w) name).
      * intros Hin. apply Hnot, elem_of_deleted. rewrite Htr.
        apply elem_of_app. right. by do 2 right.
Qed.

(** *** Facts about the weekly batch *)

Lemma fetch_ratio_threshold (fetched : nat) (expected_count : Z) :
  (0 < expected_count)%Z →
  Qle_bool (8 # 10) (fetch_ratio fetched expected_count) = true ↔
  (4 * expected_count ≤ 5 * Z.of_nat fetched)%Z.
Proof.
  intros He. rewrite Qle_bool_iff. unfold fetch_ratio, Qdiv, Qle, Qmult, Qinv, inject_Z.
  destruct expected_count as [|p|p]; try lia. simpl.
  rewrite Pos.mul_1_l. lia.
Qed.

Lemma criterion_met_spec (fetched : nat) (expected_count : Z) :
  criterion_met fetched expected_count = true ↔
  (0 < expected_count ∧ 4 * expected_count ≤ 5 * Z.of_nat fetched)%Z ∨
  ((expected_count ≤ 0)%Z ∧ 0 < fetched).
Proof.
  unfold criterion_met. destruct (Z.ltb_spec 0 expected_count) as [He|He].
  - rewrite fetch_ratio_threshold by done. lia.
  - rewrite Nat.ltb_lt. lia.
Qed.

Lemma criterion_met_nil (expected_count : Z) : criterion_met 0 expected_count = false.
Proof.
  apply not_true_is_false. rewrite criterion_met_spec. simpl. lia.
Qed.

Lemma criterion_met_positive (fetched : nat) (expected_count : Z) :
  criterion_met fetched expected_count = true → 0 < fetched.
Proof. rewrite criterion_met_spec. lia. Qed.

Lemma scroll_pages_no_store keep_fields (pages : list (result (list doc))) :
  ∀ all_docs, Forall (λ e, is_store e = false) (scroll_pages keep_fields pages all_docs).1.
Proof.
  induction pages as [|page rest IH]; intros all_docs; simpl; [by repeat constructor|].
  destruct page as [[|h scroll_hits]|e]; simpl.
  - by repeat constructor.
  - specialize (IH (all_docs ++ (project keep_fields <$> h :: scroll_hits))).
    destruct (scroll_pages keep_fields rest _) as [tr r]. by repeat constructor.
  - destruct e; by repeat constructor.
Qed.

Lemma open_scroll_no_store (es : es_env) keep_fields (max_retries remaining : nat) :
  ∀ attempt all_docs,
    Forall (λ e, is_store e = false)
      (open_scroll es keep_fields max_retries attempt remaining all_docs).1.
Proof.
  induction remaining as [|remaining IH]; intros attempt all_docs; simpl; [constructor|].
  destruct (es attempt) as [sc|e].
  - destruct (hits sc) as [|h first_hits]; [by repeat constructor|].
    pose proof (scroll_pages_no_store keep_fields (pages sc)
                  (all_docs ++ (project keep_fields <$> h :: first_hits))).
    destruct (scroll_pages keep_fields _ _) as [tr r]. by repeat constructor.
  - destruct e; try by repeat constructor.
    destruct (attempt =? max_retries - 1)%nat; [by repeat constructor|].
    specialize (IH (S attempt) all_docs).
    destruct (open_scroll es keep_fields max_retries (S attempt) remaining all_docs).
    by repeat constructor.
Qed.

Lemma fetch_no_store (es : es_env) keep_fields (max_retries : nat) :
  Forall (λ e, is_store e = false)
    (fetch_elasticsearch_data_paginated es keep_fields max_retries).1.
Proof. apply open_scroll_no_store. Qed.

(** The attempts loop: it reports success exactly when the cumulative count
    meets the criterion; what it accumulates is what the attempts made
    returned; it makes all the attempts unless it succeeds; it never calls
    the object store. *)
Lemma fetch_attempts_spec (self : pipeline) (we : week_env) (expected_count : Z)
    (max_attempts remaining : nat) :
  ∀ attempt all_docs last_error,
    criterion_met (length all_docs) expected_count = false →
    let out := fetch_attempts self we expected_count max_attempts attempt remaining
                 all_docs last_error in
    out.2.1.2 = criterion_met (length out.2.1.1) expected_count ∧
    (∃ n : nat, (n ≤ remaining)%nat ∧
          out.2.1.1 = all_docs ++ concat (fetched_by_attempt self we <$> seq attempt n) ∧
          (out.2.1.2 = false → n = remaining)) ∧
    Forall (λ e, is_store e = false) out.1.
Proof.
  induction remaining as [|remaining IH]; intros attempt all_docs last_error Hinv.
  { simpl. split; [done|]. split; [|constructor].
    exists 0. split; [done|]. by rewrite app_nil_r. }
  cbn [fetch_attempts].
  pose proof (fetch_no_store (attempt_es we attempt) (keep_fields self) default_max_retries)
    as Hns.
  assert (∀ tr_attempt all_docs' last_error',
            Forall (λ e, is_store e = false) tr_attempt →
            criterion_met (length all_docs') expected_count = false →
            all_docs' = all_docs ++ fetched_by_attempt self we attempt →
            let out :=
              (let pause :=
                 if (attempt <? max_attempts - 1)%nat
                 then [Log INFO "Waiting 10 seconds before next attempt"; Sleep 10]
                 else [] in
               let '(tr', out) :=
                 fetch_attempts self we expected_count max_attempts (S attempt)
                   remaining all_docs' last_error' in
               (tr_attempt ++ pause ++ tr', out)) in
            out.2.1.2 = criterion_met (length out.2.1.1) expected_count ∧
            (∃ n : nat, (n ≤ S remaining)%nat ∧
                  out.2.1.1 = all_docs ++ concat (fetched_by_attempt self we <$> seq attempt n) ∧
                  (out.2.1.2 = false → n = S remaining)) ∧
            Forall (λ e, is_store e = false) out.1) as Hnext.
  { intros tr_attempt all_docs' last_error' Htr Hinv' Hall.
    specialize (IH (S attempt) all_docs' last_error' Hinv').
    destruct (fetch_attempts self we expected_count max_attempts (S attempt) remaining
                all_docs' last_error') as [tr' out'].
    cbn [fst snd] in *. destruct IH as (Hok & (n & Hn & Hdocs & Hfull) & Hns').
    split; [done|]. split.
    - exists (S n). split; [lia|]. split; [|intros ?; f_equal; auto].
      rewrite Hdocs, Hall. simpl. by rewrite <-app_assoc.
    - apply Forall_app. split; [done|]. apply Forall_app. split; [|done].
      destruct (attempt <? max_attempts - 1)%nat; by repeat constructor. }
  destruct (fetch_elasticsearch_data_paginated (attempt_es we attempt) (keep_fields self)
              default_max_retries) as [tr r] eqn:Hf.
  assert (fetched_by_attempt self we attempt =
          match r with Ok docs => docs | Raise _ => [] end) as Hfa.
  { unfold fetched_by_attempt. by rewrite Hf. }
  cbn [fst snd] in *. destruct r as [[|d docs]|e].
  - apply Hnext; [|done|by rewrite Hfa, app_nil_r].
    apply Forall_app. split; [done|]. by repeat constructor.
  - destruct (0 <? expected_count)%Z eqn:Hexp.
    + destruct (Qle_bool (8 # 10) (fetch_ratio (length (all_docs ++ d :: docs)) expected_count))
        eqn:Hratio.
      * cbn [fst snd]. split; [|split].
        -- unfold criterion_met. by rewrite Hexp, Hratio.
        -- exists 1. split; [lia|]. split; [|done]. simpl. by rewrite Hfa, app_nil_r.
        -- apply Forall_app. split; [done|]. by repeat constructor.
      * apply Hnext; [|by unfold criterion_met; rewrite Hexp|by rewrite Hfa].
        apply Forall_app. split; [done|]. by repeat constructor.
    + destruct (0 <? length (all_docs ++ d :: docs))%nat eqn:Hlen.
      * cbn [fst snd]. split; [|split; [|done]].
        -- unfold criterion_met. by rewrite Hexp, Hlen.
        -- exists 1. split; [lia|]. split; [|done]. simpl. by rewrite Hfa, app_nil_r.
      * apply Hnext; [done|by unfold criterion_met; rewrite Hexp|by rewrite Hfa].
  - apply Hnext; [|done|by rewrite Hfa, app_nil_r].
    apply Forall_app. split; [done|]. by repeat constructor.
Qed.

Lemma drop_duplicates_nil (df : dataframe) : drop_duplicates df = [] ↔ df = [].
Proof. destruct df as [|r df]; [done|]. unfold drop_duplicates. simpl. done. Qed.

Lemma load_parquet_safe_run (name : string) (w : world) :
  let out := load_parquet_safe name w in
  out.1.2 = after_call w (objects w) ∧
  ∃ o, out.2 = [Store (FGetObject name) o] ∧
       (∀ df, out.1.1 = Ok df ↔ o = None ∧ objects w !! name = Some (Parquet df)).
Proof.
  unfold load_parquet_safe, mbind, M_bind, fget_object, store_call.
  destruct (store_faults w (store_calls w)) as [e|]; simpl.
  { split; [done|]. exists (Some e). split; [done|]. intros df. split; [done|]. by intros [? _]. }
  destruct (objects w !! name) as [[df|]|]; simpl.
  - split; [done|]. exists None. split; [done|]. intros df'. split.
    + by intros [= ->].
    + by intros [_ [= ->]].
  - split; [done|]. exists None. split; [done|]. intros df'. split; [done|]. by intros [_ ?].
  - split; [done|]. exists (Some (S3Error "NoSuchKey")). split; [done|].
    intros df'. split; [done|]. by intros [? _].
Qed.

Lemma object_exists_run (name : string) (w : world) :
  let out := object_exists name w in
  out.1.2 = after_call w (objects w) ∧ ∃ o, out.2 = [Store (StatObject name) o].
Proof.
  unfold object_exists, try_except, mbind, M_bind, stat_object, store_call.
  destruct (store_faults w (store_calls w)) as [e|]; simpl.
  { destruct e as [| | | |code| |]; simpl; try (split; [done|]; by eexists).
    destruct (String.eqb code "NoSuchKey"); simpl; split; try done; by eexists. }
  destruct (objects w !! name); simpl; split; try done; by eexists.
Qed.

(** The pre-check of the existing weekly file: it only reads; when the file
    is there but cannot be loaded, it logs a warning and counts 0. *)
Lemma count_existing_records_run (name : string) (w : world) :
  let out := count_existing_records name w in
  objects out.1.2 = objects w ∧
  Forall (λ e, is_write e = false) out.2 ∧
  (∀ e, (object_exists name w).1.1 = Ok true →
        (load_parquet_safe name (after_call w (objects w))).1.1 = Raise e →
        out.1.1 = Ok 0 ∧
        ∃ o o', out.2 = [ Store (StatObject name) o; Store (FGetObject name) o';
                          Log WARNING "Could not load existing file, will create new file" ]).
Proof.
  unfold count_existing_records, mbind, M_bind.
  destruct (object_exists_run name w) as [Hw (o & Htr)].
  destruct (object_exists name w) as [[r w1] tr1]. cbn [fst snd] in *. subst w1 tr1.
  destruct r as [[|]|e]; cbn [fst snd].
  - unfold try_except, mbind, M_bind.
    destruct (load_parquet_safe_run name (after_call w (objects w))) as [Hw (o' & Htr & Hdf)].
    destruct (load_parquet_safe name (after_call w (objects w))) as [[r w1] tr1].
    cbn [fst snd] in *. subst w1 tr1. destruct r as [df|e]; cbn.
    + split; [done|]. split; [by repeat constructor|]. done.
    + split; [done|]. split; [by repeat constructor|].
      intros e' _ _. split; [done|]. by exists o, o'.
  - split; [done|]. split; [by repeat constructor|]. done.
  - split; [done|]. split; [by repeat constructor|]. done.
Qed.

Lemma week_frame_run (self : pipeline) (week_num : Z) (df : dataframe) (w : world) :
  let out := week_frame self week_num df w in
  out.1.2 = w ∧ Forall (λ e, is_store e = false) out.2.
Proof.
  unfold week_frame, mbind, M_bind, lift, log.
  destruct (has_timestamp_column df); cbn; [|by repeat constructor].
  destruct (week_filter self week_num _) as [[|r week_df]|e]; cbn; by repeat constructor.
Qed.

(** The merge with the existing weekly file: it only reads and never
    raises; without a count it does not read; when the load raises it logs
    an error and keeps the new rows alone. *)
Lemma merge_with_existing_run (name : string) (final_df : dataframe) (count : nat)
    (w : world) :
  let out := merge_with_existing name final_df count w in
  objects out.1.2 = objects w ∧
  store_faults out.1.2 = store_faults w ∧
  Forall (λ e, is_write e = false) out.2 ∧
  (∃ df, out.1.1 = Ok df) ∧
  (count = 0 → out = (Ok final_df, w, [])) ∧
  (∀ e, 0 < count → (load_parquet_safe name w).1.1 = Raise e →
        out.1.1 = Ok final_df ∧
        ∃ o, out.2 = [ Store (FGetObject name) o;
                       Log ERROR "Failed to merge with existing file, using new data only" ]) ∧
  (∀ existing_df, 0 < count → (load_parquet_safe name w).1.1 = Ok existing_df →
        out.1.1 = Ok (sort_values (drop_duplicates (pd_concat [existing_df; final_df])))).
Proof.
  unfold merge_with_existing. destruct count as [|count]; cbn [Nat.ltb Nat.leb].
  { cbn. split; [done|]. split; [done|]. split; [constructor|]. split; [by eexists|].
    split; [done|]. split; intros; lia. }
  unfold try_except, mbind, M_bind.
  destruct (load_parquet_safe_run name w) as [Hw (o & Htr & Hdf)].
  destruct (load_parquet_safe name w) as [[r w1] tr1].
  cbn [fst snd] in *. subst w1 tr1. destruct r as [df|e]; cbn.
  - split; [done|]. split; [done|]. split; [by repeat constructor|]. split; [by eexists|].
    split; [done|]. split; [done|]. by intros existing _ [= ->].
  - split; [done|]. split; [done|]. split; [by repeat constructor|]. split; [by eexists|].
    split; [done|]. split; [|done]. intros e' _ _. split; [done|]. by exists o.
Qed.

(** [process_and_save_week_data] never raises; it returns [True] exactly
    when its write of the weekly file returned; the frame it writes is the
    one [merge_with_existing] hands over. *)
Lemma process_and_save_week_data_run (self : pipeline) (all_docs : list doc)
    (week_num : Z) (name : string) (count : nat) (w : world) :
  let out := process_and_save_week_data self all_docs week_num name count w in
  ∃ b, out.1.1 = Ok b ∧
       (b = true ↔ week_saved name out.2) ∧
       (∀ fresh,
          all_docs ≠ [] →
          (week_frame self week_num all_docs w).1.1 = Ok (Some fresh) →
          ∃ o, out.2 =
                 (week_frame self week_num all_docs w).2 ++
                 (merge_with_existing name fresh count w).2 ++
                 [ Store (FPutObject name
                            (match (merge_with_existing name fresh count w).1.1 with
                             | Ok df => df
                             | Raise _ => fresh
                             end)) o;
                   if o is None then Log INFO "Saved records"
                   else Log ERROR "Failed to process and save week data" ] ∧
               b = bool_decide (o = None)).
Proof.
  unfold process_and_save_week_data.
  destruct all_docs as [|d0 docs'].
  { cbn. exists false. split; [done|]. split; [|done]. split; [done|].
    intros [df Hin]. apply elem_of_cons in Hin as [?|Hin]; [done|].
    by apply elem_of_nil in Hin. }
  set (all_docs := d0 :: docs').
  unfold try_except, mbind, M_bind.
  destruct (week_frame_run self week_num all_docs w) as [Hw Hns].
  destruct (week_frame self week_num all_docs w) as [[r w1] tr1].
  cbn [fst snd] in *. subst w1.
  assert (∀ df o, Store (FPutObject name df) o ∉ tr1) as Hno1.
  { intros df o Hin. rewrite Forall_forall in Hns. by specialize (Hns _ Hin). }
  destruct r as [[final_df|]|e]; cbn [fst snd].
  - destruct (merge_with_existing_run name final_df count w)
      as (Hobjs & Hfaults & Hnw & [df Hdf] & _).
    destruct (merge_with_existing name final_df count w) as [[r2 w2] tr2] eqn:Hm.
    cbn [fst snd] in *. subst r2.
    assert (∀ df o, Store (FPutObject name df) o ∉ tr2) as Hno2.
    { intros df' o Hin. rewrite Forall_forall in Hnw. by specialize (Hnw _ Hin). }
    rewrite fput_object_run.
    destruct (store_faults w2 (store_calls w2)) as [e|]; cbn.
    + exists false. split; [done|]. split.
      * split; [done|]. intros [df' Hin]. exfalso.
        repeat (apply elem_of_app in Hin as [Hin|Hin] || apply elem_of_cons in Hin as [Hin|Hin]);
          try done; try (by eapply Hno1); try (by eapply Hno2);
          by apply elem_of_nil in Hin.
      * intros fresh _ [= <-]. exists (Some e). split; [|done].
        rewrite Hm. cbn [fst snd]. by rewrite <-!app_assoc.
    + exists true. split; [done|]. split.
      * split; [|done]. intros _. exists df.
        apply elem_of_app. right. apply elem_of_app. right. left.
      * intros fresh _ [= <-]. exists None. split; [|done].
        rewrite Hm. cbn [fst snd]. done.
  - cbn. exists false. split; [done|]. split; [|done].
    split; [done|]. intros [df Hin]. rewrite ?app_nil_r in Hin.
    by destruct (Hno1 df None).
  - cbn. exists false. split; [done|]. split; [|done].
    split; [done|]. intros [df Hin]. apply elem_of_app in Hin as [Hin|Hin].
    + by destruct (Hno1 df None).
    + apply elem_of_cons in Hin as [?|Hin]; [done|]. by apply elem_of_nil in Hin.
Qed.

Lemma no_write_no_put (tr : list event) name df o :
  Forall (λ e, is_write e = false) tr → Store (FPutObject name df) o ∉ tr.
Proof. rewrite Forall_forall. intros H Hin. by specialize (H _ Hin). Qed.

Lemma no_store_no_put (tr : list event) name df o :
  Forall (λ e, is_store e = false) tr → Store (FPutObject name df) o ∉ tr.
Proof. rewrite Forall_forall. intros H Hin. by specialize (H _ Hin). Qed.

Lemma week_saved_app name (tr1 tr2 : list event) :
  week_saved name (tr1 ++ tr2) ↔ week_saved name tr1 ∨ week_saved name tr2.
Proof.
  unfold week_saved. split.
  - intros [df [H|H]%elem_of_app]; eauto.
  - intros [[df H]|[df H]]; exists df; apply elem_of_app; eauto.
Qed.

Lemma week_saved_cons_log name lvl msg (tr : list event) :
  week_saved name (Log lvl msg :: tr) ↔ week_saved name tr.
Proof.
  unfold week_saved. split.
  - intros [df [H|H]%elem_of_cons]; [done|eauto].
  - intros [df H]. exists df. by right.
Qed.

Lemma week_saved_nil name : ¬ week_saved name [].
Proof. intros [df Hin]. by apply elem_of_nil in Hin. Qed.

Lemma not_week_saved_no_write name (tr : list event) :
  Forall (λ e, is_write e = false) tr → ¬ week_saved name tr.
Proof. intros H [df Hin]. by eapply no_write_no_put. Qed.

Lemma not_week_saved_no_store name (tr : list event) :
  Forall (λ e, is_store e = false) tr → ¬ week_saved name tr.
Proof. intros H [df Hin]. by eapply no_store_no_put. Qed.

(** The four ways the recording of a week's outcome can end. *)
Lemma record_week_outcome_cases (self : pipeline) (week_num : Z)
    (name now : string) (ck : batch_checkpoint) (count : nat) (expected : Z)
    (all_docs : list doc) (ok : bool) (last_error : option exn) (w : world) :
  let out := record_week_outcome self week_num name now ck count expected
               (all_docs, ok, last_error) w in
  ok = criterion_met (length all_docs) expected →
  ∃ ck', out.1.1 = Ok ck' ∧
    ((all_docs = [] ∧ ¬ week_saved name out.2 ∧
      ∃ info, attempts info = max_attempts ∧ failed_expected_count info = expected ∧
        ck' = {| completed_weeks := completed_weeks ck;
                 failed_weeks := <[week_num := info]> (failed_weeks ck);
                 partial_weeks := partial_weeks ck |}) ∨
     (all_docs ≠ [] ∧ ok = false ∧
      ∃ info, partial_expected_count info = expected ∧
        ck' = {| completed_weeks := completed_weeks ck;
                 failed_weeks := failed_weeks ck;
                 partial_weeks := <[week_num := info]> (partial_weeks ck) |}) ∨
     (ok = true ∧ week_saved name out.2 ∧
      ck' = {| completed_weeks := {[week_num]} ∪ completed_weeks ck;
               failed_weeks := delete week_num (failed_weeks ck);
               partial_weeks := delete week_num (partial_weeks ck) |}) ∨
     (ok = true ∧ ¬ week_saved name out.2 ∧
      ck' = {| completed_weeks := completed_weeks ck;
               failed_weeks := delete week_num (failed_weeks ck);
               partial_weeks := delete week_num (partial_weeks ck) |})).
Proof.
  intros out Hok. unfold out, record_week_outcome.
  remember (match all_docs with [] => [] | _ :: _ => drop_duplicates all_docs end)
    as deduped eqn:Hded.
  assert (length deduped = 0 ↔ all_docs = []) as Hlen.
  { subst deduped. destruct all_docs as [|d l]; [done|].
    split; [|done]. intros Hl%nil_length_inv. by apply drop_duplicates_nil in Hl. }
  clear Hded. destruct ok.
  - cbn [negb andb]. unfold mbind, M_bind, log. cbn [fst snd].
    destruct (process_and_save_week_data_run self deduped week_num name count w)
      as (b & Hb & Hiff & _).
    destruct (process_and_save_week_data self deduped week_num name count w)
      as [[r1 w1] tr1]. cbn [fst snd] in *. subst r1.
    destruct b; cbn.
    + eexists. split; [done|]. right; right; left. split; [done|]. split; [|done].
      rewrite week_saved_cons_log, week_saved_app. left. by apply Hiff.
    + eexists. split; [done|]. right; right; right. split; [done|]. split; [|done].
      rewrite week_saved_cons_log, app_nil_r. intros H. by apply Hiff in H.
  - cbn [negb andb]. destruct (length deduped =? 0)%nat eqn:Hz.
    + apply Nat.eqb_eq, Hlen in Hz. cbn. eexists. split; [done|]. left.
      split; [done|]. split.
      * intros [df Hin].
        repeat (apply elem_of_cons in Hin as [?|Hin]; [done|]).
        by apply elem_of_nil in Hin.
      * eexists. split; [|split; [|done]]; done.
    + apply Nat.eqb_neq in Hz.
      assert ((0 <? length deduped)%nat = true) as -> by (apply Nat.ltb_lt; lia).
      unfold mbind, M_bind, log, dump_batch_checkpoint. cbn [fst snd].
      match goal with
      | |- context [process_and_save_week_data self deduped week_num name count ?w'] =>
          destruct (process_and_save_week_data_run self deduped week_num name count w')
            as (b & Hb & _);
          destruct (process_and_save_week_data self deduped week_num name count w')
            as [[r1 w1] tr1]
      end.
      cbn [fst snd] in *. subst r1. cbn. eexists. split; [done|]. right; left.
      split; [by rewrite <-Hlen|]. split; [done|].
      eexists. split; [|done]. done.
Qed.

Lemma record_week_outcome_run (self : pipeline) (week_num : Z)
    (name now : string) (ck : batch_checkpoint) (count : nat) (expected : Z)
    (fetched : attempts_result) (w : world) :
  ∃ ck', (record_week_outcome self week_num name now ck count expected fetched w).1.1
         = Ok ck'.
Proof.
  destruct fetched as [[all_docs ok] last_error]. unfold record_week_outcome.
  destruct (negb ok && _); [by eexists|].
  destruct (negb ok && _).
  - unfold mbind, M_bind, log, dump_batch_checkpoint. cbn [fst snd].
    match goal with
    | |- context [process_and_save_week_data self ?d week_num name count ?w'] =>
        destruct (process_and_save_week_data_run self d week_num name count w')
          as (b & Hb & _);
        destruct (process_and_save_week_data self d week_num name count w')
          as [[r1 w1] tr1]
    end.
    cbn [fst snd] in *. subst r1. cbn. by eexists.
  - unfold mbind, M_bind, log, dump_batch_checkpoint. cbn [fst snd].
    match goal with
    | |- context [process_and_save_week_data self ?d week_num name count ?w'] =>
        destruct (process_and_save_week_data_run self d week_num name count w')
          as (b & Hb & _);
        destruct (process_and_save_week_data self d week_num name count w')
          as [[r1 w1] tr1]
    end.
    cbn [fst snd] in *. subst r1. destruct b; cbn; by eexists.
Qed.

(** The four ways the processing of a week can end, when it ends. *)
Lemma process_week_cases (self : pipeline) (we : week_env) (week_num : Z)
    (name now : string) (ck : batch_checkpoint) (w : world) :
  let out := process_week self we week_num name now ck w in
  let docs := fetched_docs self we in
  let expected := expected_count_of we in
  ∀ ck', out.1.1 = Ok ck' →
    (docs = [] ∧ ¬ week_saved name out.2 ∧
     ∃ info, attempts info = max_attempts ∧ failed_expected_count info = expected ∧
       ck' = {| completed_weeks := completed_weeks ck;
                failed_weeks := <[week_num := info]> (failed_weeks ck);
                partial_weeks := partial_weeks ck |}) ∨
    (docs ≠ [] ∧ criterion_met (length docs) expected = false ∧
     ∃ info, partial_expected_count info = expected ∧
       ck' = {| completed_weeks := completed_weeks ck;
                failed_weeks := failed_weeks ck;
                partial_weeks := <[week_num := info]> (partial_weeks ck) |}) ∨
    (criterion_met (length docs) expected = true ∧ week_saved name out.2 ∧
     ck' = {| completed_weeks := {[week_num]} ∪ completed_weeks ck;
              failed_weeks := delete week_num (failed_weeks ck);
              partial_weeks := delete week_num (partial_weeks ck) |}) ∨
    (criterion_met (length docs) expected = true ∧ ¬ week_saved name out.2 ∧
     ck' = {| completed_weeks := completed_weeks ck;
              failed_weeks := delete week_num (failed_weeks ck);
              partial_weeks := delete week_num (partial_weeks ck) |}).
Proof.
  intros out docs expected ck'. subst out. unfold process_week, mbind, M_bind, lift.
  destruct (count_existing_records_run name w) as (_ & Hnw0 & _).
  destruct (count_existing_records name w) as [[r0 w0] tr0]. cbn [fst snd] in Hnw0.
  destruct r0 as [count|e]; [|done]. cbn [fst snd].
  assert (∃ tr_q, expected_count_query we = (tr_q, Ok expected) ∧
                  Forall (λ e, is_store e = false) tr_q) as (tr_q & -> & Hnsq).
  { unfold expected, expected_count_of, expected_count_query.
    destruct (count_query we); eexists; (split; [done|by repeat constructor]). }
  cbn [fst snd].
  pose proof (fetch_attempts_spec self we expected max_attempts max_attempts 0 [] None
                (criterion_met_nil expected)) as Hspec.
  unfold docs, fetched_docs. fold expected.
  destruct (fetch_attempts self we expected max_attempts 0 max_attempts [] None)
    as [tr_a [[all_docs ok] last_error]].
  cbn [fst snd] in *. destruct Hspec as (Hok & _ & Hnsa).
  assert (∀ tr, week_saved name (tr0 ++ tr_q ++ tr_a ++ tr) ↔ week_saved name tr) as Hsaved.
  { intros tr. rewrite !week_saved_app. split; [|tauto]. intros [H|[H|[H|H]]]; [| | |done].
    - by destruct (not_week_saved_no_write name tr0).
    - by destruct (not_week_saved_no_store name tr_q).
    - by destruct (not_week_saved_no_store name tr_a). }
  destruct (record_week_outcome_cases self week_num name now ck count expected
              all_docs ok last_error w0 Hok) as (ck0 & Hr & Hcases).
  destruct (record_week_outcome self week_num name now ck count expected
              (all_docs, ok, last_error) w0) as [[r1 w1] tr1].
  cbn [fst snd] in *. subst r1. intros [= <-].
  rewrite Hsaved, <-Hok. exact Hcases.
Qed.

Lemma concat_eq_nil {A} (ls : list (list A)) : concat ls = [] ↔ Forall (λ l, l = []) ls.
Proof.
  induction ls as [|l ls IH]; simpl.
  - split; [constructor|done].
  - rewrite Forall_cons, <-IH. split.
    + by intros [-> ->]%app_eq_nil.
    + by intros [-> ->].
Qed.

(** Nothing was fetched exactly when every attempt came back empty. *)
Lemma fetched_docs_nil (self : pipeline) (we : week_env) :
  fetched_docs self we = [] ↔
  ∀ attempt, attempt < max_attempts → fetched_by_attempt self we attempt = [].
Proof.
  unfold fetched_docs.
  destruct (fetch_attempts_spec self we (expected_count_of we) max_attempts max_attempts
              0 [] None (criterion_met_nil _)) as (Hok & (n & Hn & Hdocs & Hfull) & _).
  destruct (fetch_attempts self we (expected_count_of we) max_attempts 0 max_attempts [] None)
    as [tr [[all_docs ok] last_error]]. cbn [fst snd] in *.
  simpl in Hdocs. rewrite Hdocs, concat_eq_nil, Forall_fmap, Forall_forall.
  split.
  - intros Hall attempt Hattempt.
    assert (n = max_attempts) as ->.
    { apply Hfull. rewrite Hok, Hdocs.
      replace (concat (fetched_by_attempt self we <$> seq 0 n)) with (@nil doc).
      - apply criterion_met_nil.
      - symmetry. apply concat_eq_nil, Forall_fmap, Forall_forall. exact Hall. }
    apply Hall. apply elem_of_seq. lia.
  - intros Hall attempt [_ Hattempt]%elem_of_seq. apply Hall. simpl in Hattempt. lia.
Qed.


(** [_load_checkpoint] never raises: a file that parses gives its content,
    any other gives the default. *)
Lemma load_checkpoint_never_raises (one_hour_ago : string) (w : world) :
  let out := _load_checkpoint one_hour_ago w in
  out.1.2 = w ∧
  out.1.1 = Ok (match streaming_checkpoint w with
                | Parsed checkpoint => checkpoint
                | NoFile | Unparsable => [("last_timestamp", VStr (one_hour_ago ++ "Z")%string)]
                end).
Proof. unfold _load_checkpoint. by destruct (streaming_checkpoint w). Qed.

(** C9 — The minute collector without documents.  (1) If the fetch for
    the target minute returns no document, the collector returns having
    made no call to the object store and leaves the world, the checkpoint
    file included, as it was.  (2) Whenever a tick changes the checkpoint
    file, and (3) whenever it makes any call to the object store, the fetch
    had returned at least one document. *)
Theorem collector_idle_without_documents (self : pipeline) (es : es_env)
    (win : minute_window) (one_hour_ago : string) (w : world) :
  let out := collect_current_minute_data self es win one_hour_ago w in
  let fetched :=
    (fetch_elasticsearch_data_paginated es (keep_fields self) default_max_retries).2 in
  (fetched = Ok [] →
     out.1.1 = Ok tt ∧ out.1.2 = w ∧ Forall (λ e, is_store e = false) out.2) ∧
  (streaming_checkpoint out.1.2 ≠ streaming_checkpoint w →
     ∃ docs, fetched = Ok docs ∧ docs ≠ []) ∧
  (∀ c o, Store c o ∈ out.2 → ∃ docs, fetched = Ok docs ∧ docs ≠ []).
Proof.
  intros out fetched. subst out fetched.
  unfold collect_current_minute_data, mbind at 1, M_bind at 1, lift.
  pose proof (fetch_no_store es (keep_fields self) default_max_retries) as Hns.
  destruct (fetch_elasticsearch_data_paginated es (keep_fields self) default_max_retries)
    as [tr r]. cbn [fst snd] in *.
  destruct r as [[|d docs]|e]; cbn [fst snd].
  - unfold log. cbn. split; [|split].
    + intros _. split; [done|]. split; [done|].
      apply Forall_app. split; [done|]. by repeat constructor.
    + done.
    + intros c o [Hin|Hin]%elem_of_app.
      * rewrite Forall_forall in Hns. by specialize (Hns _ Hin).
      * apply elem_of_cons in Hin as [?|Hin]; [done|]. by apply elem_of_nil in Hin.
  - split; [done|]. split; intros; by exists (d :: docs).
  - split; [done|]. split; [done|]. intros c o Hin.
    rewrite Forall_forall in Hns. by specialize (Hns _ Hin).
Qed.

(** When the read of the existing daily file returns bytes that do not
    parse, the cycle ends with the parse error and has written nothing. *)
Lemma merge_unparsable_daily (minute_str date_str : string) (w : world) :
  let out := merge_previous_minute_data minute_str date_str w in
  Store (FGetObject (daily_file date_str)) None ∈ out.2 →
  objects w !! daily_file date_str = Some Garbage →
  out.1.1 = Raise ParquetError ∧
  Forall (λ e, is_write e = false) out.2 ∧
  objects out.1.2 = objects w.
Proof.
  intros out Hget Hgarbage.
  pose proof (merge_previous_minute_data_run minute_str date_str w) as Hrun.
  fold out in Hrun.
  destruct Hrun as [e|Hfiles|tr_load dfs processed r objs' tr_tail Hload Htail].
  - exfalso. trace_mem.
  - exfalso. trace_mem.
  - pose proof (load_spec_no_write _ _ _ _ _ Hload) as Hnw.
    assert (Store (FGetObject (daily_file date_str)) None ∉ tr_load) as Hnot.
    { intros Hin. destruct Hload as (Hev & _). rewrite Forall_forall in Hev.
      destruct (Hev _ Hin) as [(f & o & [= <- <-] & Hf)|(l & m & ?)]; [|done].
      by destruct (target_files_not_daily minute_str date_str (objects w)
                     (daily_file date_str)). }
    destruct Htail as [Hdfs|code Hcode|e He|Hg|o existing e Hdfs Hread|
                       o existing tr_rm objs' Hdfs Hread Hrm].
    + exfalso. trace_mem. done.
    + exfalso. trace_mem. done.
    + exfalso. trace_mem. done.
    + split; [done|]. split; [|done]. repeat constructor.
      apply Forall_app. split; [done|]. by repeat constructor.
    + exfalso. destruct Hread as [existing Hex|]; [congruence|]. trace_mem. done.
    + exfalso. destruct Hread as [existing Hex|]; [congruence|].
      destruct Hrm as (Hev & _). rewrite Forall_forall in Hev. trace_mem; [done|].
      destruct (Hev _ Hget) as [(? & ? & ? & _)|(? & ? & ?)]; done.
Qed.

Example process_week_sample :
  (process_week sample_pipeline sample_week_env 1 sample_week_file sample_now
     ck_empty (world_of ∅ no_faults)).1.1 = Ok ck_week_1.
Proof. vm_compute. reflexivity. Qed.



(** C10, as stated, fails: the minute artifact was downloaded and parsed
    and holds a record, the write of the daily artifact raises, and nothing
    is deleted. *)
Lemma loaded_file_kept_when_write_fails :
  (merge_previous_minute_data "20250601_0901" "20250601"
     (world_of bucket_minute (fault_at 3 OtherError))).1.1 = Raise OtherError ∧
  deleted (merge_previous_minute_data "20250601_0901" "20250601"
             (world_of bucket_minute (fault_at 3 OtherError))).2 = [] ∧
  sample_minute_file ∈ target_files "20250601_0901" bucket_minute ∧
  loaded bucket_minute
    (merge_previous_minute_data "20250601_0901" "20250601"
       (world_of bucket_minute (fault_at 3 OtherError))).2
    sample_minute_file.
Proof.
  split; [vm_compute; reflexivity|]. split; [vm_compute; reflexivity|]. split.
  - apply list_elem_of_In. vm_compute. auto.
  - split.
    + apply list_elem_of_In. vm_compute. auto.
    + exists [sample_minute_row]. split; [vm_compute; reflexivity|done].
Qed.



(** *** The projection of a hit *)

Lemma project_get (keep_fields : list string) (source : doc) (k : string) :
  dict_get k (project keep_fields source) =
  if decide (k ∈ keep_fields ∨ k = "@timestamp") then dict_get k source else None.
Proof.
  unfold project.
  match goal with |- context [dict_set _ _ ?x] => set (filtered := x) end.
  assert (∀ k', dict_get k' filtered =
                if decide (k' ∈ keep_fields) then dict_get k' source else None) as Hget.
  { intros k'. unfold filtered. rewrite Publisher.filter_fields_loop_get. simpl.
    destruct (decide (k' ∈ keep_fields)); [|done]. by destruct (dict_get k' source). }
  destruct (decide (k = "@timestamp")) as [->|Hk].
  - rewrite decide_True by (by right).
    destruct (dict_get "@timestamp" source) as [ts|] eqn:Hts.
    + apply dict_get_set_eq.
    + rewrite Hget, Hts. by destruct (decide ("@timestamp" ∈ keep_fields)).
  - assert (dict_get k
              (match dict_get "@timestamp" source with
               | Some ts => dict_set "@timestamp" ts filtered
               | None => filtered
               end) = dict_get k filtered) as ->.
    { destruct (dict_get "@timestamp" source); [|done]. by apply dict_get_set_ne. }
    rewrite Hget. destruct (decide (k ∈ keep_fields)).
    + rewrite decide_True; [done|by left].
    + rewrite decide_False; [done|]. by intros [?|?].
Qed.

(** With a field list, the fetcher projects as [filter_fields] does. *)
Lemma project_filter_fields (keep_fields : list string) (source : doc) :
  keep_fields ≠ [] →
  project keep_fields source = Publisher.filter_fields source keep_fields.
Proof.
  intros Hne. unfold project, Publisher.filter_fields.
  destruct keep_fields as [|f0 rest]; [done|]. cbv beta iota zeta.
  match goal with |- context [dict_mem _ ?x] => set (filtered := x) end.
  destruct (dict_get "@timestamp" source) as [ts|] eqn:Hts; [|done].
  unfold dict_mem. destruct (dict_get "@timestamp" filtered) as [v|] eqn:Hf; [|done].
  apply dict_set_same. rewrite Hf. f_equal.
  unfold filtered in Hf. rewrite Publisher.filter_fields_loop_get in Hf.
  destruct (decide ("@timestamp" ∈ f0 :: rest)); [|done].
  rewrite Hts in Hf. by injection Hf.
Qed.

(** X7 — The projection the fetcher applies to each hit.  The projected
    document binds exactly the listed fields that the hit has, and
    [@timestamp] when the hit has it, each to the hit's value.  With a
    non-empty field list it is the document the publisher's [filter_fields]
    builds; with an empty list the two differ: the fetcher keeps
    [@timestamp] alone where [filter_fields] passes the document whole. *)
Theorem project_projection (keep_fields : list string) (source : doc) :
  (∀ k, dict_get k (project keep_fields source) =
        if decide (k ∈ keep_fields ∨ k = "@timestamp") then dict_get k source
        else None) ∧
  (keep_fields ≠ [] →
   project keep_fields source = Publisher.filter_fields source keep_fields) ∧
  (keep_fields = [] →
   project keep_fields source =
     match dict_get "@timestamp" source with
     | Some ts => [("@timestamp", ts)]
     | None => []
     end ∧
   Publisher.filter_fields source keep_fields = source).
Proof.
  split; [apply project_get|]. split; [apply project_filter_fields|].
  by intros ->.
Qed.

(** *** The window fetcher in every environment *)

(** Read to the end, whether the pages run out or the server answers with
    an empty page. *)
Lemma scroll_pages_end keep_fields (pre : list (list doc)) :
  ∀ post all_docs,
    Forall (λ page, page ≠ []) pre →
    post = [] ∨ (∃ post', post = Ok [] :: post') →
    (scroll_pages keep_fields ((Ok <$> pre) ++ post) all_docs).2 =
    Ok (all_docs ++ (project keep_fields <$> concat pre)).
Proof.
  induction pre as [|page pre IH]; intros post all_docs Hne Hpost; simpl.
  - rewrite app_nil_r. by destruct Hpost as [->|[post' ->]].
  - apply Forall_cons in Hne as [Hpage Hne].
    destruct page as [|h page]; [done|].
    specialize (IH post (all_docs ++ (project keep_fields <$> h :: page)) Hne Hpost).
    destruct (scroll_pages keep_fields _ _) as [tr r]. simpl in *.
    rewrite IH. by rewrite fmap_app, <-app_assoc.
Qed.

(** The continuation requests of a trace, each with what it raised. *)
Definition nexts (tr : list event) : list (option exn) :=
  omap (λ e, match e with Search NextPage o => Some o | _ => None end) tr.

(** X8 — A scroll read to its end.  Once an opening request is answered
    (after any number of failed attempts within the budget): if the answer
    has no hits the fetcher returns the empty list at once, without a
    continuation request; otherwise, when every continuation request is
    answered until the pages run out or an empty page comes, the fetcher
    returns the projection of every hit of the opening answer and of every
    page, in the order received. *)
Theorem fetch_reads_whole_scroll (es : es_env) (keep_fields : list string)
    (max_retries k : nat) (sc : scroll) :
  k < max_retries →
  (∀ i, i < k → es i = Raise RequestException) →
  es k = Ok sc →
  let out := fetch_elasticsearch_data_paginated es keep_fields max_retries in
  (hits sc = [] → out.2 = Ok [] ∧ nexts out.1 = []) ∧
  (∀ pre post,
     hits sc ≠ [] →
     pages sc = (Ok <$> pre) ++ post →
     Forall (λ page, page ≠ []) pre →
     post = [] ∨ (∃ post', post = Ok [] :: post') →
     out.2 = Ok (project keep_fields <$> (hits sc ++ concat pre))).
Proof.
  intros Hk Hfail Hsc out. subst out. unfold fetch_elasticsearch_data_paginated.
  rewrite (open_scroll_retries es keep_fields max_retries k 0 max_retries [])
    by (try lia; intros i Hi; apply Hfail; lia).
  simpl. destruct (max_retries - k) as [|remaining] eqn:Hrem; [lia|].
  simpl. rewrite Hsc. split.
  - intros ->. simpl. split; [done|].
    unfold nexts. rewrite omap_app. simpl. rewrite app_nil_r.
    clear. generalize 0 at 1. induction k as [|k IH]; intros a; [done|].
    unfold retry_prefix in *. simpl. apply IH.
  - intros pre post Hhits Hpages Hpre Hpost.
    destruct (hits sc) as [|h first_hits] eqn:Hh; [done|].
    pose proof (scroll_pages_end keep_fields pre post
                  (project keep_fields <$> h :: first_hits) Hpre Hpost) as Hend.
    rewrite <-Hpages in Hend.
    destruct (scroll_pages keep_fields _ _) as [tr r]. simpl in *.
    rewrite Hend. by rewrite fmap_app.
Qed.

(** A search index that answers the third opening request, with two pages. *)
Definition es_recovering : es_env := λ attempt,
  if (attempt <? 2)%nat then Raise RequestException
  else Ok {| hits := [sample_source "2025-06-01T00:00:01Z"];
             pages := [ Ok [sample_source "2025-06-01T00:00:02Z"];
                        Ok [sample_source "2025-06-01T00:00:03Z"] ] |}.

(** Two failed opening requests, then a scroll of three documents. *)
Lemma fetch_reads_whole_scroll_witness :
  (fetch_elasticsearch_data_paginated es_recovering ["TEMPERATURE"] 5).2 =
  Ok (project ["TEMPERATURE"] <$>
        [ sample_source "2025-06-01T00:00:01Z"; sample_source "2025-06-01T00:00:02Z";
          sample_source "2025-06-01T00:00:03Z" ]).
Proof.
  refine (proj2 (fetch_reads_whole_scroll es_recovering ["TEMPERATURE"] 5 2
                   {| hits := [sample_source "2025-06-01T00:00:01Z"];
                      pages := [ Ok [sample_source "2025-06-01T00:00:02Z"];
                                 Ok [sample_source "2025-06-01T00:00:03Z"] ] |}
                   _ _ _)
            [ [sample_source "2025-06-01T00:00:02Z"];
              [sample_source "2025-06-01T00:00:03Z"] ] [] _ _ _ _).
  - lia.
  - intros [|[|i]] Hi; [reflexivity|reflexivity|lia].
  - reflexivity.
  - discriminate.
  - reflexivity.
  - repeat constructor; discriminate.
  - by left.
Defined.

(** The loop over the attempts, from any attempt on. *)
Lemma open_scroll_bounded (es : es_env) keep_fields (max_retries remaining : nat) :
  ∀ attempt all_docs,
    attempt + remaining = max_retries →
    let tr := (open_scroll es keep_fields max_retries attempt remaining all_docs).1 in
    (length (opens tr) ≤ remaining)%nat ∧
    (length (sleeps tr) ≤ remaining - 1)%nat ∧
    sleeps tr = wait_time <$> seq attempt (length (sleeps tr)).
Proof.
  induction remaining as [|remaining IH]; intros attempt all_docs Hsum; simpl; [done|].
  destruct (es attempt) as [sc|e].
  - destruct (hits sc) as [|h first_hits]; [simpl; split; [lia|split; [lia|done]]|].
    pose proof (scroll_pages_quiet keep_fields (pages sc)
                  (all_docs ++ (project keep_fields <$> h :: first_hits))) as [Hs Ho].
    destruct (scroll_pages keep_fields _ _) as [tr r]. simpl in *.
    rewrite Hs, Ho. simpl. split; [lia|split; [lia|done]].
  - destruct e; try (simpl; split; [lia|split; [lia|done]]).
    destruct (Nat.eqb_spec attempt (max_retries - 1)) as [?|Hne];
      [simpl; split; [lia|split; [lia|done]]|].
    destruct (IH (S attempt) all_docs ltac:(lia)) as (Ho & Hs & Hw).
    destruct (open_scroll es keep_fields max_retries (S attempt) remaining all_docs)
      as [tr r]. simpl in *.
    split; [lia|]. split; [lia|]. by rewrite Hw at 1.
Qed.

(** A scroll whose requests raise nothing but [RequestException] returns. *)
Lemma scroll_pages_returns keep_fields (pages : list (result (list doc))) :
  (∀ e, Raise e ∈ pages → e = RequestException) →
  ∀ all_docs, is_ok (scroll_pages keep_fields pages all_docs).2 = true.
Proof.
  induction pages as [|page rest IH]; intros Hexn all_docs; simpl; [done|].
  destruct page as [[|h scroll_hits]|e]; simpl; [done| |].
  - specialize (IH (λ e He, Hexn e (list_elem_of_further _ _ _ He))
                  (all_docs ++ (project keep_fields <$> h :: scroll_hits))).
    by destruct (scroll_pages keep_fields rest _).
  - by rewrite (Hexn e (list_elem_of_here _ _)).
Qed.

Lemma open_scroll_returns (es : es_env) keep_fields (max_retries remaining : nat) :
  (∀ i e, es i = Raise e → e = RequestException) →
  (∀ i sc e, es i = Ok sc → Raise e ∈ pages sc → e = RequestException) →
  ∀ attempt all_docs,
    is_ok (open_scroll es keep_fields max_retries attempt remaining all_docs).2 = true.
Proof.
  intros Hopen Hpages.
  induction remaining as [|remaining IH]; intros attempt all_docs; simpl; [done|].
  destruct (es attempt) as [sc|e] eqn:Hes.
  - destruct (hits sc) as [|h first_hits]; [done|].
    pose proof (scroll_pages_returns keep_fields (pages sc)
                  (λ e, Hpages attempt sc e Hes)
                  (all_docs ++ (project keep_fields <$> h :: first_hits))).
    by destruct (scroll_pages keep_fields _ _).
  - rewrite (Hopen attempt e Hes).
    destruct (attempt =? max_retries - 1)%nat; [done|].
    specialize (IH (S attempt) all_docs).
    by destruct (open_scroll es keep_fields max_retries (S attempt) remaining all_docs).
Qed.

(** X9 — The fetcher is bounded, whatever the search index does.  It makes
    at most [max_retries] opening requests and waits at most
    [max_retries - 1] times; the waits are [min(2^i, 10)] for [i = 0, 1, ...]
    in this order, so at most [10 * (max_retries - 1)] seconds in all; it
    never calls the object store; and when the only exception the requests
    raise is [RequestException], it returns a list and does not raise. *)
Theorem fetch_bounded (es : es_env) (keep_fields : list string) (max_retries : nat) :
  let out := fetch_elasticsearch_data_paginated es keep_fields max_retries in
  (length (opens out.1) ≤ max_retries)%nat ∧
  (length (sleeps out.1) ≤ max_retries - 1)%nat ∧
  sleeps out.1 = wait_time <$> seq 0 (length (sleeps out.1)) ∧
  (foldr Z.add 0 (sleeps out.1) ≤ 10 * Z.of_nat (max_retries - 1))%Z ∧
  Forall (λ e, is_store e = false) out.1 ∧
  ((∀ i e, es i = Raise e → e = RequestException) →
   (∀ i sc e, es i = Ok sc → Raise e ∈ pages sc → e = RequestException) →
   is_ok out.2 = true).
Proof.
  intros out. subst out. unfold fetch_elasticsearch_data_paginated.
  destruct (open_scroll_bounded es keep_fields max_retries max_retries 0 [] eq_refl)
    as (Ho & Hs & Hw).
  split; [done|]. split; [done|]. split; [done|]. split; [|split].
  - rewrite Hw.
    set (n := length (sleeps _)) in *. clearbody n. clear Hw Ho.
    assert (∀ a k, (foldr Z.add 0 (wait_time <$> seq a k) ≤ 10 * Z.of_nat k)%Z) as Hsum.
    { intros a k. revert a. induction k as [|k IH]; intros a; [done|].
      specialize (IH (S a)). cbn [seq fmap list_fmap foldr].
      assert (wait_time a ≤ 10)%Z by (unfold wait_time; lia).
      change (list_fmap nat Z wait_time) with (fmap (M := list) wait_time).
      lia. }
    specialize (Hsum 0 n). lia.
  - apply open_scroll_no_store.
  - intros Hopen Hpages. by apply open_scroll_returns.
Qed.

(** *** The clock of the two scheduled jobs *)

(** A naive [datetime] is counted in microseconds from the epoch, and a
    [timedelta] is a number of microseconds. *)
Definition second : Z := 1000000.
Definition minute : Z := 60 * second.
Definition hour : Z := 60 * minute.

(** [kst_now]: [convert_to_kst(utc_now.isoformat() + 'Z')] made naive again
    by [.replace(tzinfo=None)], or [utc_now + timedelta(hours=9)] when the
    conversion returned [None].  Asia/Seoul has been at UTC+9 without
    daylight saving since 1988, so both are the UTC clock plus nine hours. *)
Definition kst_now (utc_now : Z) : Z := (utc_now + 9 * hour)%Z.

(** [dt.replace(second=0, microsecond=0)]. *)
Definition replace_second_0 (dt : Z) : Z := (dt - dt mod minute)%Z.

(** [collect_current_minute_data]: the KST minute collected, and the UTC
    bounds of the query. *)
Definition collect_target_minute (utc_now : Z) : Z :=
  (replace_second_0 (kst_now utc_now) - 1 * minute)%Z.

Definition collect_utc_minute_start (utc_now : Z) : Z :=
  (collect_target_minute utc_now - 9 * hour)%Z.

Definition collect_utc_minute_end (utc_now : Z) : Z :=
  (collect_utc_minute_start utc_now + 1 * minute)%Z.

(** [merge_previous_minute_data]: the KST minute merged. *)
Definition merge_target_minute (utc_now : Z) : Z :=
  (replace_second_0 (kst_now utc_now) - 2 * minute)%Z.

(** The strings the collector derives from the clock, given the two
    formats [strftime("%Y%m%d_%H%M")] and [isoformat()]. *)
Definition window_at (strftime isoformat : Z → string) (utc_now : Z) : minute_window :=
  {| minute_str := strftime (collect_target_minute utc_now);
     utc_minute_end := isoformat (collect_utc_minute_end utc_now);
     target_minute := isoformat (collect_target_minute utc_now) |}.

(** Nine hours are a whole number of minutes. *)
Lemma replace_second_0_kst (utc_now : Z) :
  replace_second_0 (kst_now utc_now) = (replace_second_0 utc_now + 9 * hour)%Z.
Proof.
  unfold replace_second_0, kst_now.
  replace (9 * hour)%Z with (540 * minute)%Z by reflexivity.
  rewrite Z.mod_add by done. lia.
Qed.

Lemma replace_second_0_bounds (dt : Z) :
  (replace_second_0 dt ≤ dt < replace_second_0 dt + minute)%Z ∧
  (replace_second_0 dt mod minute = 0)%Z.
Proof.
  unfold replace_second_0.
  pose proof (Z.mod_pos_bound dt minute eq_refl). split; [lia|].
  rewrite Zminus_mod, Z.mod_mod, Z.sub_diag by done. done.
Qed.

(** X10 — The window the collector queries.  The UTC window starts on a
    minute boundary, lasts one minute, and is the last minute that has
    fully elapsed at [utc_now]; the KST target minute is that start plus
    nine hours.  A run whose clock reads the next minute queries the window
    that begins where this one ends: runs in consecutive minutes leave no
    gap and no overlap. *)
Theorem collect_window_is_last_full_minute (utc_now : Z) :
  let utc_minute_start := collect_utc_minute_start utc_now in
  let utc_minute_end := collect_utc_minute_end utc_now in
  (utc_minute_start mod minute = 0)%Z ∧
  (utc_minute_end = utc_minute_start + minute)%Z ∧
  (utc_minute_end ≤ utc_now < utc_minute_end + minute)%Z ∧
  (collect_target_minute utc_now = utc_minute_start + 9 * hour)%Z ∧
  (∀ utc_later,
     replace_second_0 utc_later = (replace_second_0 utc_now + minute)%Z →
     collect_utc_minute_start utc_later = utc_minute_end).
Proof.
  intros s e. subst s e.
  unfold collect_utc_minute_end, collect_utc_minute_start, collect_target_minute.
  rewrite replace_second_0_kst.
  destruct (replace_second_0_bounds utc_now) as [Hb Hm].
  split; [|split; [|split; [|split]]].
  - replace (replace_second_0 utc_now + 9 * hour - 1 * minute - 9 * hour)%Z
      with (replace_second_0 utc_now + (-1) * minute)%Z by lia.
    by rewrite Z.mod_add.
  - lia.
  - lia.
  - lia.
  - intros utc_later Hlater. rewrite replace_second_0_kst, Hlater. lia.
Qed.



(** *** The minute collector when documents arrive *)

(** The checkpoint [_load_checkpoint] hands over. *)
Definition loaded_checkpoint (one_hour_ago : string) (w : world) : doc :=
  match streaming_checkpoint w with
  | Parsed checkpoint => checkpoint
  | NoFile | Unparsable => [("last_timestamp", VStr (one_hour_ago ++ "Z")%string)]
  end.

(** The collector on a non-empty answer with an [@timestamp] column: the
    write of the minute file, then the checkpoint. *)
Lemma collect_current_minute_data_run (self : pipeline) (es : es_env)
    (win : minute_window) (one_hour_ago : string) (w : world) (docs : list doc) :
  (fetch_elasticsearch_data_paginated es (keep_fields self) default_max_retries).2
    = Ok docs →
  docs ≠ [] →
  has_timestamp_column docs = true →
  process_dataframe_timestamps self docs ≠ [] →
  let object_name := minute_object_name (minute_str win) in
  let df := process_dataframe_timestamps self
              (process_dataframe_timestamps self docs) in
  ∃ tr,
    filter (λ e, bool_decide (is_store e = true)) tr = [] ∧
    collect_current_minute_data self es win one_hour_ago w =
    match store_faults w (store_calls w) with
    | Some e =>
        (Raise e, after_call w (objects w),
         tr ++ [Store (FPutObject object_name df) (Some e)])
    | None =>
        (Ok tt,
         {| objects := <[object_name := Parquet df]> (objects w);
            store_faults := store_faults w;
            store_calls := S (store_calls w);
            streaming_checkpoint :=
              Parsed (dict_set "last_processed_minute" (VStr (target_minute win))
                        (dict_set "last_timestamp"
                           (VStr (utc_minute_end win ++ "Z"))
                           (loaded_checkpoint one_hour_ago w)));
            batch_checkpoint_file := batch_checkpoint_file w |},
         tr ++ Store (FPutObject object_name df) None ::
           Log INFO "Saved records" ::
           (match streaming_checkpoint w with
            | Parsed _ => []
            | _ => [Log ERROR "Failed to load checkpoint"]
            end) ++ [Log INFO "Successfully processed records"])
    end.
Proof.
  intros Hfetch Hdocs Hcol Hp object_name df.
  pose proof (fetch_no_store es (keep_fields self) default_max_retries) as Hns.
  unfold collect_current_minute_data, mbind at 1, M_bind at 1, lift.
  destruct (fetch_elasticsearch_data_paginated es (keep_fields self) default_max_retries)
    as [tr r]. cbn [fst snd] in *. subst r. exists tr. split.
  { clear -Hns. induction Hns as [|e tr He _ IH]; [done|].
    rewrite filter_cons, bool_decide_eq_false_2 by (by rewrite He). done. }
  destruct docs as [|d0 docs']; [done|]. rewrite Hcol.
  unfold save_minute_data. subst df.
  remember (process_dataframe_timestamps self (d0 :: docs')) as df1 eqn:Hdf1.
  destruct df1 as [|r0 df0]; [done|].
  unfold mbind, M_bind. rewrite fput_object_run.
  destruct (store_faults w (store_calls w)) as [e|]; cbn [fst snd]; [done|].
  unfold log, _load_checkpoint, _save_checkpoint, loaded_checkpoint. cbn [fst snd].
  cbn. destruct (streaming_checkpoint w); done.
Qed.

(** X12 — The collector when documents arrive.  On a non-empty answer with
    an [@timestamp] column the collector makes one call to the object
    store: the write of [realtime/rt_<minute>_kst.parquet], holding the
    documents passed twice through [process_dataframe_timestamps] (once by
    the collector, once more by [save_minute_data]).  If the write returns,
    the checkpoint file is rewritten with [last_timestamp] set to the UTC
    end of the minute and [last_processed_minute] to the KST minute, over
    the checkpoint that was there or, if that was missing or unreadable,
    over the default.  If the write raises, the collector raises the same
    exception and bucket and checkpoint file are as before. *)
Theorem collector_writes_then_checkpoints (self : pipeline) (es : es_env)
    (win : minute_window) (one_hour_ago : string) (w : world) (docs : list doc) :
  (fetch_elasticsearch_data_paginated es (keep_fields self) default_max_retries).2
    = Ok docs →
  docs ≠ [] →
  has_timestamp_column docs = true →
  process_dataframe_timestamps self docs ≠ [] →
  let out := collect_current_minute_data self es win one_hour_ago w in
  let object_name := minute_object_name (minute_str win) in
  let df := process_dataframe_timestamps self
              (process_dataframe_timestamps self docs) in
  match store_faults w (store_calls w) with
  | None =>
      out.1.1 = Ok tt ∧
      objects out.1.2 = <[object_name := Parquet df]> (objects w) ∧
      streaming_checkpoint out.1.2 =
        Parsed (dict_set "last_processed_minute" (VStr (target_minute win))
                  (dict_set "last_timestamp" (VStr (utc_minute_end win ++ "Z"))
                     (loaded_checkpoint one_hour_ago w))) ∧
      filter (λ e, bool_decide (is_store e = true)) out.2 =
        [Store (FPutObject object_name df) None]
  | Some e =>
      out.1.1 = Raise e ∧
      objects out.1.2 = objects w ∧
      streaming_checkpoint out.1.2 = streaming_checkpoint w ∧
      filter (λ e, bool_decide (is_store e = true)) out.2 =
        [Store (FPutObject object_name df) (Some e)]
  end.
Proof.
  intros Hfetch Hdocs Hcol Hp out object_name df.
  destruct (collect_current_minute_data_run self es win one_hour_ago w docs
              Hfetch Hdocs Hcol Hp) as (tr & Htr & Hout).
  subst out. rewrite Hout.
  destruct (store_faults w (store_calls w)) as [e|]; cbn [fst snd].
  - split; [done|]. split; [done|]. split; [done|].
    rewrite filter_app, Htr. done.
  - split; [done|]. split; [done|]. split; [done|].
    rewrite filter_app, Htr. by destruct (streaming_checkpoint w).
Qed.

(** A search index that answers with the sample hit. *)
Definition es_one_hit : es_env := λ _, Ok {| hits := [sample_hit]; pages := [] |}.

Definition sample_window : minute_window :=
  {| minute_str := "20250601_0900";
     utc_minute_end := "2025-06-01T00:01:00";
     target_minute := "2025-06-01T09:00:00" |}.

(** One document collected into an empty bucket, with no checkpoint file. *)
Lemma collector_writes_then_checkpoints_witness :
  let out := collect_current_minute_data sample_pipeline es_one_hit sample_window
               "2025-05-31T23:01:30" (world_of ∅ no_faults) in
  out.1.1 = Ok tt ∧
  objects out.1.2 =
    <[ "realtime/rt_20250601_0900_kst.parquet" :=
         Parquet [ [ ("TEMPERATURE", VNum 215);
                     ("@timestamp", VStr "2025-06-01T00:00:01Z") ] ] ]> ∅ ∧
  streaming_checkpoint out.1.2 =
    Parsed [ ("last_timestamp", VStr "2025-06-01T00:01:00Z");
             ("last_processed_minute", VStr "2025-06-01T09:00:00") ] ∧
  filter (λ e, bool_decide (is_store e = true)) out.2 =
    [ Store (FPutObject "realtime/rt_20250601_0900_kst.parquet"
               [ [ ("TEMPERATURE", VNum 215);
                   ("@timestamp", VStr "2025-06-01T00:00:01Z") ] ]) None ].
Proof.
  apply (collector_writes_then_checkpoints sample_pipeline es_one_hit sample_window
           "2025-05-31T23:01:30" (world_of ∅ no_faults)
           [ [ ("TEMPERATURE", VNum 215); ("@timestamp", VStr "2025-06-01T00:00:01Z") ] ]).
  - reflexivity.
  - discriminate.
  - reflexivity.
  - discriminate.
Defined.

(** *** What a merge cycle leaves in the bucket *)

(** The loading loop leaves the faults to come as they are. *)
Lemma load_minute_file_faults (f : string) (w : world) :
  store_faults (load_minute_file f w).1.2 = store_faults w.
Proof.
  destruct (load_minute_file_run f w) as (r & o & logs & -> & _). done.
Qed.

Lemma load_minute_files_faults (files : list string) :
  ∀ w, store_faults (load_minute_files files w).1.2 = store_faults w.
Proof.
  induction files as [|f rest IH]; intros w; [done|].
  cbn [load_minute_files]. unfold mbind, M_bind.
  destruct (load_minute_file_run f w) as (r & o & logs & -> & _).
  specialize (IH (after_call w (objects w))).
  destruct (load_minute_files rest (after_call w (objects w))) as [[[[dfs p]|e] w'] tr];
    cbn in *; done.
Qed.

(** When no injected fault is [NoSuchKey], the daily file is reported
    missing only when the bucket does not hold it. *)
Lemma merge_daily_not_found (minute_str date_str : string) (w : world) :
  (∀ n, store_faults w n ≠ Some (S3Error "NoSuchKey")) →
  Store (FGetObject (daily_file date_str)) (Some (S3Error "NoSuchKey"))
    ∈ (merge_previous_minute_data minute_str date_str w).2 →
  objects w !! daily_file date_str = None.
Proof.
  intros Hfaults. unfold merge_previous_minute_data, mbind, M_bind.
  destruct (list_target_files_run minute_str w) as [[e ->]| ->]; cbn [fst snd].
  { cbn. intros Hin. trace_mem. }
  destruct (target_files minute_str (objects w)) as [|f0 files'] eqn:Hfiles.
  { cbn. intros Hin. trace_mem. }
  unfold log.
  pose proof (load_minute_files_faults (f0 :: files') (after_call w (objects w))) as Hf.
  destruct (load_minute_files_spec (f0 :: files') (after_call w (objects w)))
    as (dfs & processed & w1 & tr_load & Heq & Hobjs & Hspec).
  rewrite Heq in Hf |- *. cbn [fst snd after_call objects store_faults] in *.
  assert (Store (FGetObject (daily_file date_str)) (Some (S3Error "NoSuchKey")) ∉ tr_load)
    as Hnot.
  { intros Hin. destruct Hspec as (Hev & _). rewrite Forall_forall in Hev.
    destruct (Hev _ Hin) as [(f & o & [= <- <-] & Hin')|(l & m & ?)]; [|done].
    rewrite <-Hfiles in Hin'.
    by destruct (target_files_not_daily minute_str date_str (objects w)
                   (daily_file date_str)). }
  unfold merge_loaded_frames. destruct dfs as [|df0 dfs'].
  { cbn. rewrite app_nil_r. intros Hin. trace_mem. done. }
  unfold mbind, M_bind.
  unfold read_daily_file at 1, try_except, mbind, M_bind, fget_object, store_call.
  rewrite Hf, Hobjs.
  destruct (store_faults w (store_calls w1)) as [e|] eqn:He; cbn [fst snd].
  { destruct e as [| | | |code| |]; try (cbn; intros Hin; trace_mem; done).
    cbn [fst snd].
    destruct (String.eqb_spec code "NoSuchKey") as [->|Hne]; [by destruct (Hfaults _ He)|].
    cbn. intros Hin. trace_mem; done. }
  destruct (objects w !! daily_file date_str) as [[existing|]|] eqn:Hd; [| |done].
  - cbn [fst snd read_parquet mret M_ret app]. rewrite fput_object_run.
    cbn [after_call store_faults store_calls objects].
    destruct (store_faults w1 (S (store_calls w1))); cbn [fst snd].
    + intros Hin. trace_mem; done.
    + unfold log. cbn [fst snd].
      match goal with
      | |- context [remove_processed_files processed ?w'] =>
          destruct (remove_processed_files_spec processed w') as (w2 & tr_rm & -> & Hrm)
      end.
      cbn [fst snd]. destruct Hrm as (Hev & _). rewrite Forall_forall in Hev.
      intros Hin. trace_mem; try done.
      destruct (Hev _ Hin) as [(? & ? & ? & _)|(? & ? & ?)]; done.
  - cbn. intros Hin. trace_mem; done.
Qed.

(** The deleting loop does not delete the daily file. *)
Lemma remove_spec_daily objs0 processed_files tr objs minute_str date_str files_objs :
  remove_spec objs0 processed_files tr objs →
  (∀ f, f ∈ processed_files → f ∈ target_files minute_str files_objs) →
  Store (RemoveObject (daily_file date_str)) None ∉ tr.
Proof.
  intros (Hev & _) Hsub Hin. rewrite Forall_forall in Hev.
  destruct (Hev _ Hin) as [(f & o & [= <- <-] & Hf)|(l & m & ?)]; [|done].
  by destruct (target_files_not_daily minute_str date_str files_objs (daily_file date_str));
    [apply Hsub|].
Qed.



(** X14 — What a merge cycle touches.  Apart from the daily artifact and
    the minute artifacts it deleted, every object of the bucket is after
    the cycle as it was before.  The daily artifact is as before, or it was
    written by a call that returned, and then it holds no row twice and is
    ascending by [@timestamp]. *)
Theorem merge_changes_daily_and_deleted_only (minute_str date_str : string)
    (w : world) :
  let out := merge_previous_minute_data minute_str date_str w in
  let daily := daily_file date_str in
  (∀ name, name ≠ daily → name ∉ deleted out.2 →
           objects out.1.2 !! name = objects w !! name) ∧
  (objects out.1.2 !! daily = objects w !! daily ∨
   ∃ df, Store (FPutObject daily df) None ∈ out.2 ∧
         objects out.1.2 !! daily = Some (Parquet df) ∧
         NoDup df ∧ StronglySorted ts_le df).
Proof.
  intros out daily.
  pose proof (merge_previous_minute_data_run minute_str date_str w) as Hrun.
  fold out in Hrun. apply merge_run_cases in Hrun.
  destruct Hrun as [[_ Hobjs]|[(tr0 & df' & e & _ & _ & _ & Hobjs)|
    (tr0 & tr_load & o & existing & tr_rm & dfs & processed & Htr0 & Hload & Hdfs &
     Hread & Htr & Hr' & Hrm)]]; [rewrite Hobjs; split; [done|by left]..|].
  pose proof Hrm as (Hev & _ & Hlook). split.
  - intros name Hne Hnot. rewrite Hlook, decide_False; [by rewrite lookup_insert_ne|].
    intros Hin. apply Hnot, elem_of_deleted. rewrite Htr.
    apply elem_of_app. right. by do 2 right.
  - right. exists (merge_records existing dfs). split; [|split; [|split]].
    + rewrite Htr. apply elem_of_app. right. left.
    + rewrite Hlook, decide_False, lookup_insert_eq; [done|].
      eapply remove_spec_daily; [done|]. intros f Hf. by eapply load_spec_processed.
    + apply merge_records_NoDup.
    + apply merge_records_sorted.
Qed.

(** *** The merge cycle when the object store does not fail *)

(** No call to the object store raises but for a key that is missing. *)
Definition fault_free (w : world) : Prop := ∀ n, store_faults w n = None.

(** The frame the loading loop keeps for a file: the rows of a parquet file
    that has some. *)
Definition minute_frame (objs : gmap string blob) (file_name : string)
  : option dataframe :=
  match objs !! file_name with
  | Some (Parquet (r :: df)) => Some (r :: df)
  | _ => None
  end.

(** The files and frames a cycle merges, and the daily frame it finds. *)
Definition merged_files (minute_str : string) (objs : gmap string blob) : list string :=
  List.filter (λ f, bool_decide (is_Some (minute_frame objs f)))
    (target_files minute_str objs).

Definition merged_frames (minute_str : string) (objs : gmap string blob)
  : list dataframe :=
  omap (minute_frame objs) (target_files minute_str objs).

Definition existing_daily (date_str : string) (objs : gmap string blob)
  : option dataframe :=
  match objs !! daily_file date_str with
  | Some (Parquet existing_df) => Some existing_df
  | _ => None
  end.

Lemma fault_free_after_call (w : world) (objs : gmap string blob) :
  fault_free w → fault_free (after_call w objs).
Proof. done. Qed.

Lemma load_minute_file_fault_free (f : string) (w : world) :
  fault_free w →
  ∃ tr, load_minute_file f w =
        (Ok (minute_frame (objects w) f), after_call w (objects w), tr).
Proof.
  intros Hff.
  unfold load_minute_file, try_except, mbind, M_bind, fget_object, store_call, minute_frame.
  rewrite Hff. destruct (objects w !! f) as [[[|r df]|]|]; cbn; by eexists.
Qed.

Lemma load_minute_files_fault_free (files : list string) :
  ∀ w, fault_free w →
    ∃ w' tr,
      load_minute_files files w =
        (Ok (omap (minute_frame (objects w)) files,
             List.filter (λ f, bool_decide (is_Some (minute_frame (objects w) f))) files),
         w', tr) ∧
      objects w' = objects w ∧ fault_free w'.
Proof.
  induction files as [|f rest IH]; intros w Hff.
  { exists w, []. done. }
  cbn [load_minute_files]. unfold mbind, M_bind.
  destruct (load_minute_file_fault_free f w Hff) as [tr1 ->].
  destruct (IH (after_call w (objects w)) (fault_free_after_call _ _ Hff))
    as (w' & tr2 & -> & Hobjs & Hff').
  cbn [after_call objects] in *. exists w', (tr1 ++ tr2 ++ []).
  split; [|done]. cbn [omap list_omap List.filter].
  destruct (minute_frame (objects w) f) as [df|]; cbn; done.
Qed.

Lemma remove_processed_files_fault_free (files : list string) :
  ∀ w, fault_free w →
    ∃ w' tr,
      remove_processed_files files w = (Ok tt, w', tr) ∧
      ∀ name, objects w' !! name =
              if decide (name ∈ files) then None else objects w !! name.
Proof.
  induction files as [|f rest IH]; intros w Hff.
  { exists w, []. split; [done|]. intros name.
    by destruct (decide (name ∈ [])) as [?%elem_of_nil|]. }
  cbn [remove_processed_files]. unfold mbind, M_bind.
  unfold remove_processed_file at 1, try_except, mbind, M_bind, remove_object,
    store_call, log.
  rewrite Hff. cbn [fst snd].
  destruct (IH (after_call w (delete f (objects w))) (fault_free_after_call _ _ Hff))
    as (w' & tr & -> & Hlook).
  eexists _, _. split; [done|]. intros name. rewrite Hlook. cbn [after_call objects].
  destruct (decide (name ∈ rest)) as [Hin|Hnin].
  - rewrite decide_True; [done|]. by apply list_elem_of_further.
  - destruct (decide (name = f)) as [->|Hne].
    + rewrite lookup_delete_eq, decide_True; [done|]. apply list_elem_of_here.
    + rewrite lookup_delete_ne, decide_False; [done| |done].
      by intros [?|?]%elem_of_cons.
Qed.

Lemma merge_loaded_frames_fault_free (date_str : string) (dfs : list dataframe)
    (processed_files : list string) (w : world) :
  fault_free w → dfs ≠ [] →
  objects w !! daily_file date_str ≠ Some Garbage →
  ∃ w' tr,
    merge_loaded_frames date_str dfs processed_files w = (Ok tt, w', tr) ∧
    ∀ name, objects w' !! name =
            if decide (name ∈ processed_files) then None
            else if decide (name = daily_file date_str)
                 then Some (Parquet (merge_records (existing_daily date_str (objects w)) dfs))
                 else objects w !! name.
Proof.
  intros Hff Hdfs Hgarbage. unfold merge_loaded_frames.
  destruct dfs as [|df0 dfs']; [done|]. set (dfs := df0 :: dfs').
  unfold mbind, M_bind.
  assert (∃ tr, read_daily_file (daily_file date_str)
                  (sort_values (drop_duplicates (pd_concat dfs))) w =
                (Ok (Some (merge_records (existing_daily date_str (objects w)) dfs)),
                 after_call w (objects w), tr)) as [tr1 ->].
  { unfold read_daily_file, try_except, mbind, M_bind, fget_object, store_call,
      existing_daily, merge_records.
    rewrite Hff. destruct (objects w !! daily_file date_str) as [[existing|]|];
      [| done |]; cbn; by eexists. }
  cbn [fst snd]. rewrite fput_object_run.
  cbn [after_call store_faults store_calls objects]. rewrite (Hff _). cbn [fst snd].
  unfold log. cbn [fst snd].
  match goal with
  | |- context [remove_processed_files processed_files ?w'] =>
      destruct (remove_processed_files_fault_free processed_files w')
        as (w2 & tr_rm & -> & Hlook); [done|]
  end.
  eexists _, _. split; [done|]. intros name. rewrite Hlook.
  cbn [after_call objects].
  destruct (decide (name ∈ processed_files)); [done|].
  destruct (decide (name = daily_file date_str)) as [->|Hne].
  - by rewrite lookup_insert_eq.
  - by rewrite lookup_insert_ne.
Qed.

(** The whole cycle on a store that does not fail. *)
Lemma merge_previous_minute_data_fault_free (minute_str date_str : string) (w : world) :
  fault_free w →
  objects w !! daily_file date_str ≠ Some Garbage →
  ∃ w' tr,
    merge_previous_minute_data minute_str date_str w = (Ok tt, w', tr) ∧
    ∀ name, objects w' !! name =
            if decide (merged_frames minute_str (objects w) = []) then objects w !! name
            else if decide (name ∈ merged_files minute_str (objects w)) then None
            else if decide (name = daily_file date_str)
                 then Some (Parquet (merge_records (existing_daily date_str (objects w))
                                       (merged_frames minute_str (objects w))))
                 else objects w !! name.
Proof.
  intros Hff Hgarbage. unfold merged_frames, merged_files.
  unfold merge_previous_minute_data, mbind, M_bind.
  destruct (list_target_files_run minute_str w) as [[e Heq]|Heq].
  { exfalso. revert Heq.
    unfold list_target_files, try_except, mbind, M_bind, list_objects, store_call.
    by rewrite Hff. }
  rewrite Heq. cbn [fst snd].
  destruct (target_files minute_str (objects w)) as [|f0 files'] eqn:Hfiles.
  { cbn. eexists _, _. split; [done|]. intros name. by rewrite decide_True. }
  unfold log. cbn [fst snd].
  destruct (load_minute_files_fault_free (f0 :: files') (after_call w (objects w))
              (fault_free_after_call _ _ Hff))
    as (w1 & tr_load & -> & Hobjs & Hff1).
  cbn [fst snd after_call objects] in *.
  set (dfs := omap (minute_frame (objects w)) (f0 :: files')) in *.
  set (processed := List.filter _ (f0 :: files')) in *.
  destruct (decide (dfs = [])) as [Hnil|Hne].
  - rewrite Hnil. cbn. eexists _, _. split; [done|]. intros name. by rewrite Hobjs.
  - destruct (merge_loaded_frames_fault_free date_str dfs processed w1 Hff1 Hne)
      as (w2 & tr_tail & -> & Hlook); [by rewrite Hobjs|].
    cbn [fst snd]. eexists _, _. split; [done|]. intros name.
    rewrite Hlook, Hobjs. done.
Qed.

(** The rows of the merged frames are the rows of the target files. *)
Lemma elem_of_merged_frames (minute_str : string) (objs : gmap string blob) (r : row) :
  r ∈ pd_concat (merged_frames minute_str objs) ↔
  ∃ f df, f ∈ target_files minute_str objs ∧ objs !! f = Some (Parquet df) ∧ r ∈ df.
Proof.
  unfold pd_concat, merged_frames. rewrite list_elem_of_In, in_concat. split.
  - intros (df & Hdf%list_elem_of_In & Hr%list_elem_of_In).
    apply list_elem_of_omap in Hdf as (f & Hf & Hframe).
    exists f, df. split; [done|]. split; [|done].
    unfold minute_frame in Hframe.
    destruct (objs !! f) as [[[|r0 df0]|]|]; by simplify_eq.
  - intros (f & df & Hf & Hobj & Hr). exists df.
    split; apply list_elem_of_In; [|done].
    apply list_elem_of_omap. exists f. split; [done|].
    unfold minute_frame. rewrite Hobj. destruct df; [by apply elem_of_nil in Hr|done].
Qed.



(** *** From collection to the daily artifact *)

(** [(s + t).startswith(s)]. *)
Lemma prefix_app (s t : string) : String.prefix s (s +:+ t) = true.
Proof.
  induction s as [|a s IH]; [by destruct t|].
  change (String a s +:+ t) with (String a (s +:+ t)). simpl.
  by destruct (Ascii.ascii_dec a a).
Qed.

Lemma append_assoc (s t u : string) : (s +:+ t) +:+ u = s +:+ t +:+ u.
Proof.
  induction s as [|a s IH]; [done|].
  change ((String a s +:+ t) +:+ u) with (String a ((s +:+ t) +:+ u)).
  change (String a s +:+ t +:+ u) with (String a (s +:+ t +:+ u)).
  by rewrite IH.
Qed.

Lemma contains_unfold (s name : string) :
  contains s name =
  String.prefix s name ||
  match name with
  | EmptyString => false
  | String _ name' => contains s name'
  end.
Proof. by destruct name. Qed.

(** [s in pre + s + post]. *)
Lemma contains_app (s pre post : string) :
  contains s (pre +:+ s +:+ post) = true.
Proof.
  induction pre as [|a pre IH].
  - change ("" +:+ s +:+ post) with (s +:+ post).
    by rewrite contains_unfold, prefix_app.
  - change (String a pre +:+ s +:+ post) with (String a (pre +:+ s +:+ post)).
    rewrite contains_unfold. cbv beta iota. rewrite IH. apply orb_true_r.
Qed.

(** The object the collector writes for a minute is among the files the
    merge of that minute sets out to merge. *)
Lemma minute_object_is_target (minute_str : string) (objs : gmap string blob) (b : blob) :
  objs !! minute_object_name minute_str = Some b →
  minute_object_name minute_str ∈ target_files minute_str objs.
Proof.
  intros Hobj. unfold target_files. apply list_elem_of_In.
  apply filter_In. split; [apply filter_In; split|].
  - apply list_elem_of_In, list_elem_of_fmap.
    exists (minute_object_name minute_str, b). split; [done|].
    by apply elem_of_map_to_list.
  - done.
  - unfold is_target_file, minute_object_name. apply andb_true_iff. split.
    + apply (contains_app ("rt_" +:+ minute_str) "realtime/" "_kst.parquet").
    + replace ("realtime/rt_" +:+ minute_str +:+ "_kst.parquet")
        with (("realtime/rt_" +:+ minute_str) +:+ "_kst.parquet" +:+ "").
      * apply contains_app.
      * apply append_assoc.
Qed.

(** A minute artifact is never the daily artifact. *)
Lemma minute_object_not_daily (minute_str date_str : string) :
  minute_object_name minute_str ≠ daily_file date_str.
Proof. done. Qed.



(** *** The weeks of the month: the loop of [process_batch_mode] *)

(** A [datetime] at midnight is counted in days, and [timedelta(days=n)]
    adds [n].  The loop [while current_date < end_date] goes through the
    weeks; each iteration has its [week_num], its [current_date] and its
    [week_end = min(current_date + timedelta(days=7), end_date)], whether
    the week is skipped or processed. *)
Equations week_ranges (current_date end_date week_num : Z) : list (Z * Z * Z)
  by wf (Z.to_nat (end_date - current_date)) lt :=
  week_ranges current_date end_date week_num
    with decide (current_date < end_date)%Z := {
    | left _ =>
        let week_end := Z.min (current_date + 7) end_date in
        (week_num, current_date, week_end)
          :: week_ranges week_end end_date (week_num + 1)
    | right _ => []
  }.
Next Obligation. lia. Qed.

(** [total_weeks_expected = ((end_date - start_date).days + 6) // 7]. *)
Definition total_weeks_expected (start_date end_date : Z) : Z :=
  ((end_date - start_date + 6) / 7)%Z.

(** The weeks as the loop hands them to the processing of a week, with the
    object name and the search index of each. *)
Definition batch_weeks (object_name : Z → Z → Z → string) (we : Z → week_env)
    (start_date end_date : Z) : list (Z * string * week_env) :=
  (λ '(week_num, current_date, week_end),
     (week_num, object_name week_num current_date week_end, we week_num))
    <$> week_ranges start_date end_date 1.

(** One iteration of the loop. *)
Lemma week_ranges_step (current_date end_date week_num : Z) :
  week_ranges current_date end_date week_num =
  if decide (current_date < end_date)%Z
  then (week_num, current_date, Z.min (current_date + 7) end_date)
         :: week_ranges (Z.min (current_date + 7) end_date) end_date (week_num + 1)
  else [].
Proof.
  rewrite week_ranges_equation_1.
  by destruct (decide (current_date < end_date)%Z).
Qed.

(** The [i]-th week of a loop that starts at [current_date] with number
    [week_num]. *)
Definition nth_week (current_date end_date week_num : Z) (i : nat) : Z * Z * Z :=
  ((week_num + Z.of_nat i)%Z,
   (current_date + 7 * Z.of_nat i)%Z,
   Z.min (current_date + 7 * Z.of_nat i + 7) end_date).

(** The loop makes [(days + 6) // 7] iterations. *)
Lemma week_ranges_closed (k : nat) :
  ∀ current_date end_date week_num,
    k = Z.to_nat ((end_date - current_date + 6) / 7) →
    week_ranges current_date end_date week_num =
    nth_week current_date end_date week_num <$> seq 0 k.
Proof.
  induction k as [|k IH]; intros c e n Hk; rewrite week_ranges_step.
  - destruct (decide (c < e)%Z) as [Hlt|]; [|done]. exfalso.
    assert (1 ≤ (e - c + 6) / 7)%Z by (apply Z.div_le_lower_bound; lia). lia.
  - destruct (decide (c < e)%Z) as [Hlt|Hge].
    + cbn [seq fmap list_fmap]. f_equal.
      { unfold nth_week. f_equal; [f_equal; lia|f_equal; lia]. }
      destruct (decide (c + 7 ≤ e)%Z) as [Hfull|Hshort].
      * rewrite Z.min_l by done. rewrite (IH (c + 7)%Z e (n + 1)%Z).
        -- rewrite <-fmap_S_seq, <-list_fmap_compose. apply list_fmap_ext.
           intros i x _. unfold nth_week. simpl.
           f_equal; [f_equal; lia|f_equal; lia].
        -- replace (e - (c + 7) + 6)%Z with (e - c + 6 + (-1) * 7)%Z by lia.
           rewrite Z.div_add by done. lia.
      * rewrite Z.min_r by lia. rewrite week_ranges_step.
        rewrite decide_False by lia.
        assert ((e - c + 6) / 7 = 1)%Z as Hone.
        { symmetry. apply (Z.div_unique _ _ _ (e - c - 1)); lia. }
        rewrite Hone in Hk. assert (k = 0) as -> by lia. done.
    + exfalso.
      assert ((e - c + 6) / 7 ≤ 0)%Z.
      { destruct (decide (0 ≤ e - c + 6)%Z).
        - rewrite Z.div_small by lia. done.
        - apply Z.div_le_upper_bound; lia. }
      lia.
Qed.

(** The weeks of the loop, by position. *)
Lemma week_ranges_lookup (start_date end_date : Z) (i : nat) (wk : Z * Z * Z) :
  week_ranges start_date end_date 1 !! i = Some wk ↔
  wk = nth_week start_date end_date 1 i ∧
  (start_date + 7 * Z.of_nat i < end_date)%Z.
Proof.
  rewrite (week_ranges_closed _ start_date end_date 1 eq_refl).
  rewrite list_lookup_fmap.
  pose proof (Z.div_mod (end_date - start_date + 6) 7 ltac:(done)) as Hdm.
  pose proof (Z.mod_pos_bound (end_date - start_date + 6) 7 ltac:(done)) as Hm.
  set (q := ((end_date - start_date + 6) / 7)%Z) in *.
  destruct (decide (i < Z.to_nat q)%nat) as [Hlt|Hge].
  - rewrite lookup_seq_lt by done. simpl. split.
    + intros [= <-]. split; [done|]. lia.
    + by intros [-> _].
  - rewrite lookup_seq_ge by lia. simpl. split; [done|]. intros [_ Hi]. lia.
Qed.

(** X17 — The weeks tile the month.  The loop of [process_batch_mode]
    makes as many iterations as the [total_weeks_expected] it logs; the
    [i]-th iteration (from 0) has week number [i + 1], starts [7 * i] days
    after the start date and ends seven days later or at the end date,
    whichever comes first; each week begins where the one before ended,
    only the last can be shorter than seven days, and it ends at the end
    date: no day of the month is left out and none is in two weeks.  For a
    month of 28 to 31 days there are 4 or 5 weeks. *)
Theorem week_ranges_tile_the_month (start_date end_date : Z) :
  let weeks := week_ranges start_date end_date 1 in
  length weeks = Z.to_nat (total_weeks_expected start_date end_date) ∧
  (∀ i week_num current_date week_end,
     weeks !! i = Some (week_num, current_date, week_end) →
     week_num = (1 + Z.of_nat i)%Z ∧
     current_date = (start_date + 7 * Z.of_nat i)%Z ∧
     week_end = Z.min (current_date + 7) end_date ∧
     (start_date ≤ current_date < week_end)%Z ∧ (week_end ≤ end_date)%Z) ∧
  (∀ i week_num current_date week_end next,
     weeks !! i = Some (week_num, current_date, week_end) →
     weeks !! S i = Some next →
     week_end = (current_date + 7)%Z ∧
     next.1 = ((week_num + 1)%Z, week_end)) ∧
  (∀ i week_num current_date week_end,
     weeks !! i = Some (week_num, current_date, week_end) →
     weeks !! S i = None →
     week_end = end_date) ∧
  ((start_date < end_date)%Z →
   ∃ week_end, weeks !! 0 = Some (1%Z, start_date, week_end)) ∧
  ((28 ≤ end_date - start_date ≤ 31)%Z → (4 ≤ length weeks ≤ 5)%nat).
Proof.
  intros weeks.
  assert (length weeks = Z.to_nat (total_weeks_expected start_date end_date)) as Hlen.
  { unfold weeks. rewrite (week_ranges_closed _ start_date end_date 1 eq_refl).
    by rewrite length_fmap, length_seq. }
  split; [done|]. split; [|split; [|split; [|split]]].
  - intros i n c e [[= -> -> ->] Hi]%week_ranges_lookup. lia.
  - intros i n c e next [[= -> -> ->] Hi]%week_ranges_lookup
      [-> Hi']%week_ranges_lookup.
    unfold nth_week. simpl. split; [lia|]. f_equal; lia.
  - intros i n c e [[= -> -> ->] Hi]%week_ranges_lookup Hnone.
    destruct (decide (start_date + 7 * Z.of_nat (S i) < end_date)%Z) as [Hlt|Hge].
    + assert (weeks !! S i = Some (nth_week start_date end_date 1 (S i))) as Hsome
        by (by apply week_ranges_lookup).
      congruence.
    + lia.
  - intros Hlt. eexists. apply week_ranges_lookup. split; [|lia].
    unfold nth_week. simpl. f_equal. f_equal. lia.
  - intros Hdays. rewrite Hlen. unfold total_weeks_expected.
    assert (4 ≤ (end_date - start_date + 6) / 7 ≤ 5)%Z; [|lia]. split.
    + apply Z.div_le_lower_bound; lia.
    + assert ((end_date - start_date + 6) / 7 < 6)%Z; [|lia].
      apply Z.div_lt_upper_bound; lia.
Qed.

(** June 2025, counted in days from its first day. *)
Example week_ranges_june :
  week_ranges 0 30 1 = [ (1, 0, 7); (2, 7, 14); (3, 14, 21); (4, 21, 28); (5, 28, 30) ]%Z.
Proof.
  rewrite (week_ranges_closed _ 0 30 1 eq_refl). reflexivity.
Qed.

(** *** The weeks of a batch run *)

(** Over the weeks of a run: the completed weeks only grow, and a week that
    becomes completed had its artifact written. *)
Lemma process_weeks_completed (self : pipeline) (now : string)
    (weeks : list (Z * string * week_env)) :
  ∀ ck w ck',
    (process_weeks self now weeks ck w).1.1 = Ok ck' →
    completed_weeks ck ⊆ completed_weeks ck' ∧
    ∀ week_num, week_num ∈ completed_weeks ck' →
      week_num ∈ completed_weeks ck ∨
      ∃ object_name we,
        (week_num, object_name, we) ∈ weeks ∧
        week_saved object_name (process_weeks self now weeks ck w).2.
Proof.
  induction weeks as [|[[week_num name] we] rest IH]; intros ck w ck'.
  { cbn. intros [= <-]. split; [done|]. intros n Hn. by left. }
  cbn [process_weeks].
  destruct (decide (week_num ∈ completed_weeks ck)) as [Hdone|Htodo].
  - unfold mbind, M_bind, log. cbn [fst snd].
    specialize (IH ck w ck').
    destruct (process_weeks self now rest ck w) as [[r w'] tr]. cbn [fst snd] in *.
    destruct r as [ck1|e]; [|done]. intros Heq.
    destruct (IH Heq) as [Hsub Hnew]. split; [done|].
    intros n Hn. destruct (Hnew n Hn) as [?|(name' & we' & Hin & Hsaved)]; [by left|].
    right. exists name', we'. split; [by right|].
    by apply week_saved_cons_log.
  - unfold mbind, M_bind.
    pose proof (process_week_cases self we week_num name now ck w) as Hcases.
    cbv zeta in Hcases.
    destruct (process_week self we week_num name now ck w) as [[r1 w1] tr1].
    cbn [fst snd] in *. destruct r1 as [ck1|e]; [|done].
    specialize (Hcases ck1 eq_refl). specialize (IH ck1 w1 ck').
    destruct (process_weeks self now rest ck1 w1) as [[r2 w2] tr2]. cbn [fst snd] in *.
    destruct r2 as [ck2|e]; [|done]. intros Heq.
    destruct (IH Heq) as [Hsub Hnew].
    assert (completed_weeks ck ⊆ completed_weeks ck1 ∧
            ∀ n, n ∈ completed_weeks ck1 →
                 n ∈ completed_weeks ck ∨ (n = week_num ∧ week_saved name tr1))
      as [Hsub1 Hnew1].
    { destruct Hcases as [(_ & _ & info & _ & _ & ->)|
                          [(_ & _ & info & _ & ->)|
                           [(_ & Hs & ->)|(_ & _ & ->)]]]; cbn; try (split; [done|by left]).
      split; [intros x Hx; apply elem_of_union; by right|]. intros n [->%elem_of_singleton|?]%elem_of_union;
        [by right|by left]. }
    split; [by etrans|]. intros n Hn.
    destruct (Hnew n Hn) as [Hn1|(name' & we' & Hin & Hsaved)].
    + destruct (Hnew1 n Hn1) as [?|[-> Hs]]; [by left|].
      right. exists name, we. split; [left|]. apply week_saved_app. by left.
    + right. exists name', we'. split; [by right|]. apply week_saved_app. by right.
Qed.

(** Weeks already completed are passed over. *)
Lemma process_weeks_all_completed (self : pipeline) (now : string)
    (weeks : list (Z * string * week_env)) (ck : batch_checkpoint) (w : world) :
  Forall (λ wk, wk.1.1 ∈ completed_weeks ck) weeks →
  process_weeks self now weeks ck w =
  (Ok ck, w, (λ _, Log INFO "Week already completed, skipping") <$> weeks).
Proof.
  induction 1 as [|[[week_num name] we] rest Hwk _ IH]; [done|].
  cbn [process_weeks]. rewrite decide_True by done.
  unfold mbind, M_bind, log. cbn [fst snd]. by rewrite IH.
Qed.



(** *** The weekly artifact on a store that does not fail *)

(** Loading a parquet object that is there. *)
Lemma load_parquet_safe_fault_free (name : string) (w : world) (df : dataframe) :
  fault_free w → objects w !! name = Some (Parquet df) →
  load_parquet_safe name w =
  (Ok df, after_call w (objects w), [Store (FGetObject name) None]).
Proof.
  intros Hff Hobj. unfold load_parquet_safe, mbind, M_bind, fget_object, store_call.
  by rewrite Hff, Hobj.
Qed.

(** The pre-check counts the rows of the artifact. *)
Lemma count_existing_records_fault_free (name : string) (w : world) (df : dataframe) :
  fault_free w → objects w !! name = Some (Parquet df) →
  (count_existing_records name w).1.1 = Ok (length df) ∧
  objects (count_existing_records name w).1.2 = objects w ∧
  fault_free (count_existing_records name w).1.2.
Proof.
  intros Hff Hobj. unfold count_existing_records, mbind, M_bind.
  unfold object_exists, try_except, mbind, M_bind, stat_object, store_call.
  rewrite Hff, Hobj. cbn [fst snd mret M_ret app].
  rewrite (load_parquet_safe_fault_free name (after_call w (objects w)) df
             (fault_free_after_call _ _ Hff) Hobj).
  done.
Qed.


(** A weekly artifact with one row, and a week whose fetch brings another. *)
Definition bucket_week : gmap string blob :=
  {[ sample_week_file := Parquet [sample_row "2025-06-01 09:00:30.000" 215] ]}.


(** *** Running the cycle again *)

(** Deleting the merged files leaves the faults to come as they are. *)
Lemma remove_processed_files_faults (files : list string) :
  ∀ w, store_faults (remove_processed_files files w).1.2 = store_faults w.
Proof.
  induction files as [|f rest IH]; intros w; [done|].
  cbn [remove_processed_files]. unfold mbind, M_bind.
  destruct (remove_processed_file_run f w) as (o & objs & l & -> & _).
  specialize (IH (after_call w objs)).
  destruct (remove_processed_files rest (after_call w objs)) as [[[[]|e] w'] tr];
    cbn in *; done.
Qed.

(** So does the merge of the loaded frames into the daily file. *)
Lemma merge_loaded_frames_faults (date_str : string) (dfs : list dataframe)
    (processed_files : list string) (w : world) :
  store_faults (merge_loaded_frames date_str dfs processed_files w).1.2 = store_faults w.
Proof.
  unfold merge_loaded_frames. destruct dfs as [|df0 dfs']; [done|].
  unfold mbind, M_bind.
  destruct (read_daily_file_run (daily_file date_str)
              (sort_values (drop_duplicates (pd_concat (df0 :: dfs')))) w) as [Hw _].
  destruct (read_daily_file _ _ w) as [[r w1] tr1]. cbn [fst snd] in *. subst w1.
  destruct r as [[final_df|]|e]; [|done..].
  rewrite fput_object_run. cbn [after_call store_faults store_calls objects].
  destruct (store_faults w (S (store_calls w))); [done|].
  unfold log. cbn [fst snd].
  match goal with
  | |- context [remove_processed_files processed_files ?w'] =>
      pose proof (remove_processed_files_faults processed_files w') as Hrm;
      destruct (remove_processed_files processed_files w') as [[r2 w2] tr2]
  end.
  cbn in *. by destruct r2.
Qed.

(** The cycle leaves the faults to come as they are. *)
Lemma merge_previous_minute_data_faults (minute_str date_str : string) (w : world) :
  store_faults (merge_previous_minute_data minute_str date_str w).1.2 = store_faults w.
Proof.
  unfold merge_previous_minute_data, mbind, M_bind.
  destruct (list_target_files_run minute_str w) as [[e ->]| ->]; [done|].
  cbn [fst snd].
  destruct (target_files minute_str (objects w)) as [|f0 files']; [done|].
  unfold log.
  pose proof (load_minute_files_faults (f0 :: files') (after_call w (objects w))) as Hf.
  destruct (load_minute_files (f0 :: files') (after_call w (objects w)))
    as [[[[dfs processed]|e] w1] tr1]; cbn [fst snd] in *; [|done].
  pose proof (merge_loaded_frames_faults date_str dfs processed w1) as Hm.
  destruct (merge_loaded_frames date_str dfs processed w1) as [[r2 w2] tr2].
  cbn in *. destruct r2; congruence.
Qed.

(** A file counts as merged when it holds a frame with rows. *)
Lemma minute_frame_Some (objs : gmap string blob) (f : string) (df : dataframe) :
  minute_frame objs f = Some df ↔ objs !! f = Some (Parquet df) ∧ df ≠ [].
Proof.
  unfold minute_frame. destruct (objs !! f) as [[[|r df0]|]|]; split;
    try done; try (by intros [[= <-] ?]); try (by intros [? ?]).
  by intros [= <-].
Qed.

(** A target file of a bucket is a target file of any bucket that holds it. *)
Lemma target_files_present (minute_str : string) (objs objs' : gmap string blob)
    (f : string) (b : blob) :
  f ∈ target_files minute_str objs' → objs !! f = Some b →
  f ∈ target_files minute_str objs.
Proof.
  unfold target_files. intros Hf Hobj.
  apply list_elem_of_In, filter_In in Hf as [Hf Ht].
  apply filter_In in Hf as [_ Hp].
  apply list_elem_of_In, filter_In. split; [|done].
  apply filter_In. split; [|done].
  apply list_elem_of_In, list_elem_of_fmap.
  exists (f, b). split; [done|]. by apply elem_of_map_to_list.
Qed.

(** X20 — Running the merge cycle again.  On a store that does not fail,
    a second merge cycle for the same minute, run after the first, finds
    nothing left to merge: it returns, writes and deletes nothing, and
    leaves the bucket as the first cycle left it. *)
Theorem merge_again_changes_nothing (minute_str date_str : string) (w : world) :
  fault_free w →
  objects w !! daily_file date_str ≠ Some Garbage →
  let first := merge_previous_minute_data minute_str date_str w in
  let again := merge_previous_minute_data minute_str date_str first.1.2 in
  again.1.1 = Ok tt ∧
  objects again.1.2 = objects first.1.2 ∧
  Forall (λ e, is_write e = false) again.2.
Proof.
  intros Hff Hgarbage first again.
  destruct (merge_previous_minute_data_fault_free minute_str date_str w Hff Hgarbage)
    as (w1 & tr1 & Heq1 & Hlook1).
  assert (fault_free w1) as Hff1.
  { intros n. pose proof (merge_previous_minute_data_faults minute_str date_str w) as Hf.
    rewrite Heq1 in Hf. cbn in Hf. by rewrite Hf. }
  assert (first.1.2 = w1) as Hw1 by (unfold first; by rewrite Heq1).
  subst again. rewrite Hw1. clear Hw1 first Heq1.
  assert (objects w1 !! daily_file date_str ≠ Some Garbage) as Hgarbage1.
  { rewrite Hlook1. destruct (decide (merged_frames minute_str (objects w) = []));
      [done|]. destruct (decide (_ ∈ _)); [done|]. by rewrite decide_True. }
  assert (merged_frames minute_str (objects w1) = []) as Hnone.
  { destruct (merged_frames minute_str (objects w1)) as [|df dfs] eqn:Hm; [done|].
    exfalso.
    assert (df ∈ merged_frames minute_str (objects w1)) as Hin
      by (rewrite Hm; apply list_elem_of_here).
    apply list_elem_of_omap in Hin as (f & Hf & Hframe).
    apply minute_frame_Some in Hframe as [Hobj Hne].
    pose proof (target_files_not_daily minute_str date_str _ f Hf) as Hnd.
    rewrite Hlook1 in Hobj.
    destruct (decide (merged_frames minute_str (objects w) = [])) as [Hnil|Hsome].
    - assert (df ∈ merged_frames minute_str (objects w)) as Hin.
      { apply list_elem_of_omap. exists f. split; [|by apply minute_frame_Some].
        by eapply target_files_present. }
      rewrite Hnil in Hin. by apply elem_of_nil in Hin.
    - destruct (decide (f ∈ merged_files minute_str (objects w))) as [|Hnot]; [done|].
      rewrite decide_False in Hobj by done.
      apply Hnot. unfold merged_files. apply list_elem_of_In, filter_In. split.
      + apply list_elem_of_In. by eapply target_files_present.
      + apply bool_decide_eq_true_2. exists df. by apply minute_frame_Some. }
  destruct (merge_previous_minute_data_fault_free minute_str date_str w1 Hff1 Hgarbage1)
    as (w2 & tr2 & Heq2 & Hlook2).
  pose proof (merge_previous_minute_data_run minute_str date_str w1) as Hrun.
  apply merge_run_cases in Hrun. rewrite Heq2 in Hrun |- *. cbn [fst snd] in *.
  split; [done|]. split.
  - apply map_eq. intros name. by rewrite Hlook2, decide_True.
  - destruct Hrun as [[Hnw _]|[(tr0 & df & e & _ & _ & ? & _)|
      (tr0 & tr_load & o & existing & tr_rm & dfs & processed & Htr0 & Hload & Hdfs &
       Hread & Htr & Hr' & Hrm)]]; [done|done|].
    exfalso. pose proof Hload as (_ & Hall & _).
    destruct dfs as [|df dfs']; [done|].
    apply Forall2_cons_inv_r in Hall as (f & processed' & [Hobj Hne] & _ & ->).
    assert (df ∈ merged_frames minute_str (objects w1)) as Hin.
    { apply list_elem_of_omap. exists f. split; [|by apply minute_frame_Some].
      eapply load_spec_processed; [done|]. apply list_elem_of_here. }
    rewrite Hnone in Hin. by apply elem_of_nil in Hin.
Qed.

(** The sample bucket, merged twice. *)
Lemma merge_again_changes_nothing_witness :
  let first := merge_previous_minute_data "20250601_0901" "20250601"
                 (world_of bucket_minute no_faults) in
  (merge_previous_minute_data "20250601_0901" "20250601" first.1.2).1.1 = Ok tt.
Proof.
  refine (proj1 (merge_again_changes_nothing "20250601_0901" "20250601"
                   (world_of bucket_minute no_faults) _ _)).
  - intros n. reflexivity.
  - vm_compute. discriminate.
Defined.

(** *** Collecting a minute again *)

(** X23 — Collecting the same minute again.  On a store that does not
    fail, when the search returns the same non-empty answer for the same
    minute, a second collection after the first returns as the first did,
    and leaves the bucket and the streaming checkpoint as the first left
    them: the minute file is overwritten with the same rows, not
    duplicated. *)
Theorem collect_again_changes_nothing (self : pipeline) (es : es_env)
    (win : minute_window) (one_hour_ago one_hour_ago' : string) (w : world)
    (docs : list doc) :
  (fetch_elasticsearch_data_paginated es (keep_fields self) default_max_retries).2
    = Ok docs →
  docs ≠ [] →
  has_timestamp_column docs = true →
  process_dataframe_timestamps self docs ≠ [] →
  fault_free w →
  let first := collect_current_minute_data self es win one_hour_ago w in
  let again := collect_current_minute_data self es win one_hour_ago' first.1.2 in
  first.1.1 = Ok tt ∧
  again.1.1 = Ok tt ∧
  objects again.1.2 = objects first.1.2 ∧
  streaming_checkpoint again.1.2 = streaming_checkpoint first.1.2.
Proof.
  intros Hfetch Hdocs Hcol Hp Hff first again.
  destruct (collect_current_minute_data_run self es win one_hour_ago w docs
              Hfetch Hdocs Hcol Hp) as (tr & _ & Hfirst).
  rewrite (Hff _) in Hfirst. fold first in Hfirst.
  subst again. rewrite Hfirst. cbn [fst snd].
  match goal with
  | |- context [collect_current_minute_data self es win one_hour_ago' ?w1] =>
      destruct (collect_current_minute_data_run self es win one_hour_ago' w1 docs
                  Hfetch Hdocs Hcol Hp) as (tr' & _ & ->)
  end.
  cbn [store_faults store_calls]. rewrite (Hff _). cbn [fst snd objects streaming_checkpoint].
  split; [done|]. split; [done|]. split; [apply insert_insert_eq|].
  f_equal. unfold loaded_checkpoint at 1. cbn [streaming_checkpoint].
  set (c := loaded_checkpoint one_hour_ago w).
  set (c1 := dict_set "last_processed_minute" _ (dict_set "last_timestamp" _ c)).
  assert (dict_set "last_timestamp" (VStr (utc_minute_end win ++ "Z")) c1 = c1) as ->.
  { apply dict_set_same. unfold c1. rewrite dict_get_set_ne by done.
    apply dict_get_set_eq. }
  apply dict_set_same. apply dict_get_set_eq.
Qed.

(** The sample document collected twice. *)
Lemma collect_again_changes_nothing_witness :
  let first := collect_current_minute_data sample_pipeline es_one_hit sample_window
                 "2025-05-31T23:01:30" (world_of ∅ no_faults) in
  (collect_current_minute_data sample_pipeline es_one_hit sample_window
     "2025-05-31T23:02:30" first.1.2).1.1 = Ok tt.
Proof.
  refine (proj1 (proj2 (collect_again_changes_nothing sample_pipeline es_one_hit
                          sample_window "2025-05-31T23:01:30" "2025-05-31T23:02:30"
                          (world_of ∅ no_faults)
                          [ [ ("TEMPERATURE", VNum 215);
                              ("@timestamp", VStr "2025-06-01T00:00:01Z") ] ]
                          _ _ _ _ _))).
  - reflexivity.
  - discriminate.
  - reflexivity.
  - discriminate.
  - intros n. reflexivity.
Defined.

(** *** The batch checkpoint file *)

(** Merging with the weekly file does not touch the batch checkpoint file. *)
Lemma merge_with_existing_checkpoint (name : string) (final_df : dataframe)
    (count : nat) (w : world) :
  batch_checkpoint_file (merge_with_existing name final_df count w).1.2 =
  batch_checkpoint_file w.
Proof.
  unfold merge_with_existing. destruct (0 <? count)%nat; [|done].
  unfold try_except, mbind, M_bind.
  destruct (load_parquet_safe_run name w) as [Hw _].
  destruct (load_parquet_safe name w) as [[r w1] tr1]. cbn [fst snd] in *. subst w1.
  by destruct r.
Qed.

(** Saving a week does not touch the batch checkpoint file. *)
Lemma process_and_save_week_data_checkpoint (self : pipeline) (all_docs : list doc)
    (week_num : Z) (name : string) (count : nat) (w : world) :
  batch_checkpoint_file
    (process_and_save_week_data self all_docs week_num name count w).1.2 =
  batch_checkpoint_file w.
Proof.
  unfold process_and_save_week_data. destruct all_docs as [|d0 docs']; [done|].
  unfold try_except, mbind, M_bind.
  destruct (week_frame_run self week_num (d0 :: docs') w) as [Hw _].
  destruct (week_frame self week_num (d0 :: docs') w) as [[r w1] tr1].
  cbn [fst snd] in *. subst w1. destruct r as [[final_df|]|e]; [|done..].
  pose proof (merge_with_existing_checkpoint name final_df count w) as Hm.
  destruct (merge_with_existing name final_df count w) as [[r2 w2] tr2].
  cbn [fst snd] in *. destruct r2 as [df|e]; [|done].
  rewrite fput_object_run. by destruct (store_faults w2 (store_calls w2)).
Qed.

(** Neither does counting the rows of an existing weekly file. *)
Lemma count_existing_records_checkpoint (name : string) (w : world) :
  batch_checkpoint_file (count_existing_records name w).1.2 = batch_checkpoint_file w.
Proof.
  unfold count_existing_records, mbind, M_bind.
  destruct (object_exists_run name w) as [Hw _].
  destruct (object_exists name w) as [[r w1] tr1]. cbn [fst snd] in *. subst w1.
  destruct r as [[|]|e]; [|done..].
  unfold try_except, mbind, M_bind.
  destruct (load_parquet_safe_run name (after_call w (objects w))) as [Hw _].
  destruct (load_parquet_safe name (after_call w (objects w))) as [[r w2] tr2].
  cbn [fst snd] in *. subst w2. by destruct r.
Qed.

(** After the outcome of a week is recorded, the checkpoint file holds the
    checkpoint returned, or it is as it was. *)
Lemma record_week_outcome_checkpoint (self : pipeline) (week_num : Z)
    (name now : string) (ck : batch_checkpoint) (count : nat) (expected : Z)
    (fetched : attempts_result) (w : world) :
  let out := record_week_outcome self week_num name now ck count expected fetched w in
  ∃ ck', out.1.1 = Ok ck' ∧
         (batch_checkpoint_file out.1.2 = batch_checkpoint_file w ∨
          batch_checkpoint_file out.1.2 = Some ck').
Proof.
  destruct fetched as [[all_docs ok] last_error]. unfold record_week_outcome.
  destruct (negb ok && _).
  { cbn. eexists. split; [done|]. by right. }
  destruct (negb ok && _).
  - unfold mbind, M_bind, log, dump_batch_checkpoint. cbn [fst snd].
    match goal with
    | |- context [process_and_save_week_data self ?d week_num name count ?w'] =>
        pose proof (process_and_save_week_data_checkpoint self d week_num name count w')
          as Hck;
        destruct (process_and_save_week_data_run self d week_num name count w')
          as (b & Hb & _);
        destruct (process_and_save_week_data self d week_num name count w')
          as [[r1 w1] tr1]
    end.
    cbn [fst snd] in *. subst r1. cbn. eexists. split; [done|]. by right.
  - unfold mbind, M_bind, log, dump_batch_checkpoint. cbn [fst snd].
    match goal with
    | |- context [process_and_save_week_data self ?d week_num name count ?w'] =>
        pose proof (process_and_save_week_data_checkpoint self d week_num name count w')
          as Hck;
        destruct (process_and_save_week_data_run self d week_num name count w')
          as (b & Hb & _);
        destruct (process_and_save_week_data self d week_num name count w')
          as [[r1 w1] tr1]
    end.
    cbn [fst snd] in *. subst r1. destruct b; cbn; eexists; (split; [done|]);
      [by right|by left].
Qed.

(** The processing of a week: when it raises, the checkpoint file is as it
    was; when it returns, the file is as it was or holds the checkpoint
    returned, and a week newly completed had its artifact written. *)
Lemma process_week_checkpoint (self : pipeline) (we : week_env) (week_num : Z)
    (name now : string) (ck : batch_checkpoint) (w : world) :
  let out := process_week self we week_num name now ck w in
  match out.1.1 with
  | Raise _ => batch_checkpoint_file out.1.2 = batch_checkpoint_file w
  | Ok ck' =>
      (batch_checkpoint_file out.1.2 = batch_checkpoint_file w ∨
       batch_checkpoint_file out.1.2 = Some ck') ∧
      ∀ n, n ∈ completed_weeks ck' →
           n ∈ completed_weeks ck ∨ (n = week_num ∧ week_saved name out.2)
  end.
Proof.
  intros out.
  pose proof (process_week_cases self we week_num name now ck w) as Hcases.
  cbv zeta in Hcases. fold out in Hcases.
  assert (match out.1.1 with
          | Raise _ => batch_checkpoint_file out.1.2 = batch_checkpoint_file w
          | Ok ck' => batch_checkpoint_file out.1.2 = batch_checkpoint_file w ∨
                      batch_checkpoint_file out.1.2 = Some ck'
          end) as Hfile.
  { subst out. unfold process_week, mbind, M_bind, lift.
    pose proof (count_existing_records_checkpoint name w) as Hc.
    destruct (count_existing_records name w) as [[r0 w0] tr0]. cbn [fst snd] in *.
    destruct r0 as [count|e]; [|done]. cbn [fst snd].
    destruct (expected_count_query we) as [tr_q [expected|e]] eqn:Hq; cbn [fst snd].
    2:{ unfold expected_count_query in Hq. by destruct (count_query we). }
    destruct (fetch_attempts self we expected max_attempts 0 max_attempts [] None)
      as [tr_a fetched]. cbn [fst snd].
    destruct (record_week_outcome_checkpoint self week_num name now ck count expected
                fetched w0) as (ck' & Hr & Hfile).
    destruct (record_week_outcome self week_num name now ck count expected fetched w0)
      as [[r1 w1] tr1]. cbn [fst snd] in *. subst r1. by rewrite <-Hc. }
  destruct out.1.1 as [ck'|e]; [|done]. split; [done|].
  destruct (Hcases ck' eq_refl) as [(_ & _ & info & _ & _ & ->)|
                                    [(_ & _ & info & _ & ->)|
                                     [(_ & Hs & ->)|(_ & _ & ->)]]]; cbn;
    try (intros n Hn; by left).
  intros n [->%elem_of_singleton|?]%elem_of_union; [by right|by left].
Qed.

(** X22 — The batch checkpoint file never runs ahead of the bucket.
    However the week loop ends, by returning or by an exception that
    escapes it, the checkpoint file is either the one the loop started
    with, or it lists as completed only weeks that were completed in the
    checkpoint the loop started from or whose weekly file was written to
    the bucket during this run. *)
Theorem checkpoint_file_completed_weeks_saved (self : pipeline) (now : string)
    (weeks : list (Z * string * week_env)) (ck : batch_checkpoint) (w : world) :
  let out := process_weeks self now weeks ck w in
  batch_checkpoint_file out.1.2 = batch_checkpoint_file w ∨
  ∃ on_disk,
    batch_checkpoint_file out.1.2 = Some on_disk ∧
    ∀ week_num, week_num ∈ completed_weeks on_disk →
      week_num ∈ completed_weeks ck ∨
      ∃ object_name we,
        (week_num, object_name, we) ∈ weeks ∧ week_saved object_name out.2.
Proof.
  revert ck w. induction weeks as [|[[week_num name] we] rest IH]; intros ck w out.
  { by left. }
  subst out. cbn [process_weeks].
  destruct (decide (week_num ∈ completed_weeks ck)) as [Hdone|Htodo].
  - unfold mbind, M_bind, log. cbn [fst snd].
    specialize (IH ck w). cbv zeta in IH.
    destruct (process_weeks self now rest ck w) as [[r w'] tr]. cbn [fst snd] in *.
    destruct IH as [Hsame|(on_disk & Hfile & Hweeks)]; [left|right].
    + by destruct r.
    + exists on_disk. split; [by destruct r|]. intros n Hn.
      destruct (Hweeks n Hn) as [?|(name' & we' & Hin & Hsaved)]; [by left|].
      right. exists name', we'. split; [by right|].
      destruct r; by apply week_saved_cons_log.
  - unfold mbind, M_bind.
    pose proof (process_week_checkpoint self we week_num name now ck w) as Hstep.
    cbv zeta in Hstep.
    destruct (process_week self we week_num name now ck w) as [[r1 w1] tr1].
    cbn [fst snd] in *. destruct r1 as [ck1|e]; [|by left].
    destruct Hstep as [Hfile1 Hnew1].
    specialize (IH ck1 w1). cbv zeta in IH.
    destruct (process_weeks self now rest ck1 w1) as [[r2 w2] tr2]. cbn [fst snd] in *.
    assert (∀ n, n ∈ completed_weeks ck1 →
                 n ∈ completed_weeks ck ∨
                 ∃ object_name we0,
                   (n, object_name, we0) ∈ (week_num, name, we) :: rest ∧
                   week_saved object_name (tr1 ++ tr2)) as Hnew.
    { intros n Hn. destruct (Hnew1 n Hn) as [?|[-> Hs]]; [by left|].
      right. exists name, we. split; [left|]. apply week_saved_app. by left. }
    destruct IH as [Hsame|(on_disk & Hfile & Hweeks)].
    + destruct Hfile1 as [Hfile1|Hfile1].
      * left. destruct r2; cbn; congruence.
      * right. exists ck1. split; [destruct r2; cbn; congruence|].
        intros n Hn. destruct r2; by apply Hnew.
    + right. exists on_disk. split; [by destruct r2|]. intros n Hn.
      destruct (Hweeks n Hn) as [Hn1|(name' & we' & Hin & Hsaved)].
      * destruct r2; by apply Hnew.
      * right. exists name', we'. split; [by right|].
        destruct r2; apply week_saved_app; by right.
Qed.

End Pipeline.
